(** * Streamint DataDAO toolkit: deployment scripts and contribution flow

    A shallow embedding of the deployment state manager
    ([scripts/state-manager.js]), the registration, contract-deployment and
    refiner scripts, the contribution wizard of the web application and its
    encryption helper, together with the properties the specification states
    about them. *)

From Stdlib Require Import ZArith String Ascii List Bool Lia.
From stdpp Require Import base option gmap strings list fin_maps pretty.

Open Scope string_scope.
Open Scope list_scope.

(** ** JavaScript values and effects *)

Module JS.

(** JSON-like values.  Numbers are the integers the scripts handle (ids,
    counts); objects are finite maps from property names to values. *)
#[warnings="-register-all"]
Inductive value :=
| VUndefined
| VNull
| VBool (b : bool)
| VNum (n : Z)
| VStr (s : string)
| VObj (o : gmap string value).

(** [ToBoolean]: what [if (v)], [!v], [&&] and [||] test. *)
Definition truthy (v : value) : bool :=
  match v with
  | VUndefined | VNull => false
  | VBool b => b
  | VNum n => negb (n =? 0)%Z
  | VStr EmptyString => false
  | VStr _ => true
  | VObj _ => true
  end.

(** [a && b] and [a || b] return one of their operands. *)
Definition js_and (a b : value) : value := if truthy a then b else a.
Definition js_or (a b : value) : value := if truthy a then a else b.

(** [v[k]] for own properties; a primitive has none of the properties the
    scripts ask for, so the read yields [undefined]. *)
Definition prop (v : value) (k : string) : value :=
  match v with
  | VObj o => default VUndefined (o !! k)
  | _ => VUndefined
  end.

(** The own enumerable properties of a value, as the spread [{...v}] and
    [Object.keys(v)] see them. *)
Definition entries (v : value) : gmap string value :=
  match v with
  | VObj o => o
  | _ => ∅
  end.

(** [v == null]: the two values a member of which cannot be read or
    written. *)
Definition nullish (v : value) : bool :=
  match v with
  | VUndefined | VNull => true
  | _ => false
  end.

(** The properties of [Object.prototype], which an object made by a literal
    or by [JSON.parse] inherits.  They are functions, and [__proto__] reads as
    the prototype itself: every one of them is truthy. *)
Definition object_prototype_names : list string :=
  ["constructor"; "hasOwnProperty"; "isPrototypeOf"; "propertyIsEnumerable";
   "toLocaleString"; "toString"; "valueOf"; "__defineGetter__";
   "__defineSetter__"; "__lookupGetter__"; "__lookupSetter__"; "__proto__"].

(** Is [o[k]] truthy, for a key [k] that the caller chose?  An own property
    decides; a key the object lacks is looked up in [Object.prototype]. *)
Definition member_truthy (o : gmap string value) (k : string) : bool :=
  match o !! k with
  | Some v => truthy v
  | None => bool_decide (k ∈ object_prototype_names)
  end.

(** What the engine finds for [p[k]] when [p] is a string, a number or a
    boolean: nothing (or a falsy value), a method of the prototype of its
    wrapper, or an own property of the wrapper (a character or the length of
    a string), which [delete] refuses in strict mode. *)
Inductive member := Missing | Inherited | Own.

(** [s.includes(sub)] *)
Fixpoint includes (sub s : string) : bool :=
  String.prefix sub s ||
  match s with
  | EmptyString => false
  | String _ s' => includes sub s'
  end.

(** [xs.join(sep)] *)
Fixpoint join (sep : string) (xs : list string) : string :=
  match xs with
  | [] => EmptyString
  | [x] => x
  | x :: rest => x +:+ sep +:+ join sep rest
  end.

(** [s.split('.')], written as a scan that closes the current part at every
    dot. *)
Fixpoint split_dot_acc (cur : string) (s : string) : list string :=
  match s with
  | EmptyString => [cur]
  | String c s' =>
      if Ascii.eqb c "."%char then cur :: split_dot_acc EmptyString s'
      else split_dot_acc (cur +:+ String c EmptyString) s'
  end.

Definition split_dot (s : string) : list string := split_dot_acc EmptyString s.

(** A thrown error: its constructor name and its message. *)
Record error := Error { name : string; message : string }.

(** The outcome of running a piece of script: it returns, it throws, or the
    process is ended by [process.exit(code)]. *)
Inductive outcome (A : Type) :=
| Returned (a : A)
| Thrown (e : error)
| Exited (code : Z).

Arguments Returned {A} a.
Arguments Thrown {A} e.
Arguments Exited {A} code.

(** Scripts thread a world [W] (file system, console, chain, ...) and may
    throw. *)
Definition M (W A : Type) : Type := W → outcome A * W.

#[global] Instance M_ret {W} : MRet (M W) := λ A a w, (Returned a, w).

#[global] Instance M_bind {W} : MBind (M W) := λ A B f m w,
  match m w with
  | (Returned a, w') => f a w'
  | (Thrown e, w') => (Thrown e, w')
  | (Exited c, w') => (Exited c, w')
  end.

Definition throw {W A} (e : error) : M W A := λ w, (Thrown e, w).
Definition exit {W A} (code : Z) : M W A := λ w, (Exited code, w).
Definition gets {W A} (f : W → A) : M W A := λ w, (Returned (f w), w).
Definition modify {W} (f : W → W) : M W unit := λ w, (Returned tt, f w).

(** [try { m } catch (e) { h e }]; [process.exit] is not caught. *)
Definition try_catch {W A} (m : M W A) (h : error → M W A) : M W A := λ w,
  match m w with
  | (Thrown e, w') => h e w'
  | r => r
  end.

Definition new_Error (msg : string) : error := Error "Error" msg.

(** The [TypeError] of the engine; the wording of its message varies with
    the version of the engine. *)
Definition TypeError (msg : string) : error := Error "TypeError" msg.

End JS.

(** ** The deployment state manager ([scripts/state-manager.js]) *)

Module StateManager.
Import JS.

(** What a [DeploymentStateManager] method can see and change: the object
    [this.state], the files on disk, the clock, the console and the answers
    the operator gives to [inquirer.prompt]. *)
Record world := World {
  this_state : gmap string value;
  files : gmap string string;
  clock : Z;
  console : list string;
  answers : list (gmap string value)
}.

Definition set_this (s : gmap string value) (w : world) : world :=
  World s (files w) (clock w) (console w) (answers w).
Definition set_files (f : gmap string string) (w : world) : world :=
  World (this_state w) f (clock w) (console w) (answers w).
Definition set_console (c : list string) (w : world) : world :=
  World (this_state w) (files w) (clock w) c (answers w).
Definition set_answers (a : list (gmap string value)) (w : world) : world :=
  World (this_state w) (files w) (clock w) (console w) a.

(** One entry of [getRecoverySuggestions]. *)
Record suggestion := Suggestion {
  sg_step : string;
  sg_issue : string;
  sg_solutions : list string
}.

Section Manager.

(** [JSON.stringify(_, null, 2)], [JSON.parse] ([None]: a syntax error) and
    [Date.prototype.toISOString] are the platform's. *)
Variable stringify : value → string.
Variable parse : string → option value.
Variable toISOString : Z → string.

(** [this.deploymentPath] *)
Variable deploymentPath : string.

(** The members of the wrapper of a primitive are the engine's. *)
Variable primitive_member : value → string → member.

Definition existsSync (p : string) : M world bool :=
  gets (λ w, bool_decide (is_Some (files w !! p))).

Definition readFileSync (p : string) : M world string := λ w,
  match files w !! p with
  | Some c => (Returned c, w)
  | None => (Thrown (Error "Error" "ENOENT: no such file or directory"), w)
  end.

Definition writeFileSync (p content : string) : M world unit :=
  modify (λ w, set_files (<[p := content]> (files w)) w).

Definition copyFileSync (src dst : string) : M world unit :=
  content ← readFileSync src;
  writeFileSync dst content.

Definition console_log (line : string) : M world unit :=
  modify (λ w, set_console (console w ++ [line]) w).

(** [inquirer.prompt]: the next answer object of the operator. *)
Definition prompt : M world (gmap string value) := λ w,
  match answers w with
  | a :: rest => (Returned a, set_answers rest w)
  | [] => (Thrown (Error "Error" "prompt closed"), w)
  end.

(** [saveState(newState = null)] *)
Definition saveState (newState : option (gmap string value)) : M world unit :=
  this ← gets this_state;
  let stateToSave := default this newState in
  there ← existsSync deploymentPath;
  (if (there : bool)
   then copyFileSync deploymentPath (deploymentPath +:+ ".backup")
   else mret tt);;
  writeFileSync deploymentPath (stringify (VObj stateToSave));;
  match newState with
  | None => modify (set_this stateToSave)
  | Some _ => mret tt
  end.

(** [loadState()] *)
Definition loadState : M world (gmap string value) :=
  there ← existsSync deploymentPath;
  if negb there
  then throw (new_Error "deployment.json not found. Run deployment steps in order.")
  else
    content ← readFileSync deploymentPath;
    match parse content with
    | None => throw (Error "SyntaxError" "Unexpected token in JSON")
    | Some (VObj deployment) =>
        deployment ←
          (if negb (truthy (prop (VObj deployment) "state"))
           then
             let flags : gmap string value :=
               <["contractsDeployed" :=
                   VBool (truthy (prop (VObj deployment) "tokenAddress")
                          && truthy (prop (VObj deployment) "proxyAddress"))]>
               (<["dataDAORegistered" := VBool (truthy (prop (VObj deployment) "dlpId"))]>
               (<["proofConfigured" := VBool false]>
               (<["proofGitSetup" := VBool false]>
               (<["proofPublished" := VBool false]>
               (<["refinerConfigured" := VBool false]>
               (<["refinerGitSetup" := VBool false]>
               (<["refinerPublished" := VBool false]>
               (<["uiConfigured" := VBool false]> ∅)))))))) in
             let deployment := <["state" := VObj flags]> deployment in
             saveState (Some deployment);;
             mret deployment
           else mret deployment);
        mret (if negb (truthy (prop (VObj deployment) "errors"))
              then <["errors" := VObj ∅]> deployment
              else deployment)
    | Some _ => throw (Error "TypeError" "Cannot create property 'state'")
    end.

(** [constructor(projectRoot)] *)
Definition constructor : M world unit :=
  s ← loadState;
  modify (set_this s).

(** The entry [{ message: error.message, timestamp: new Date().toISOString(),
    stack: error.stack }] *)
Definition error_entry (now : Z) (err : value) : value :=
  VObj (<["message" := prop err "message"]>
       (<["timestamp" := VStr (toISOString now)]>
       (<["stack" := prop err "stack"]> ∅))).

(** [recordError(step, error)].  Reading [error.message] throws when [error]
    is [undefined] or [null]; the assignment to [this.state.errors[step]]
    throws when [errors] is missing and, the body of a class being strict
    code, also when it is a string, a number or a boolean.  On an object the
    assignment makes or replaces an own property, except for the key
    [__proto__] where the object has no such property of its own: there the
    setter of [Object.prototype] replaces the prototype of [errors] and no
    own property changes (the model does not follow the replaced prototype
    any further).  The same setter ignores a receiver that is not an object,
    so on a string, a number or a boolean the key [__proto__] stores nothing
    and does not throw, and the document is saved as it is. *)
Definition recordError (step : string) (err : value) : M world unit :=
  this ← gets this_state;
  if nullish err
  then throw (TypeError "Cannot read properties of undefined (reading 'message')")
  else
    now ← gets clock;
    match prop (VObj this) "errors" with
    | VObj errs =>
        (if String.eqb step "__proto__" && bool_decide (errs !! step = None)
         then mret tt
         else
           modify (set_this
             (<["errors" := VObj (<[step := error_entry now err]> errs)]> this)));;
        saveState None
    | VUndefined | VNull => throw (TypeError "Cannot set properties of undefined")
    | _ =>
        if String.eqb step "__proto__"
        then saveState None
        else throw (TypeError "Cannot create property")
    end.

(** [clearError(step)].  [this.state.errors[step]] throws when [errors] is
    missing; on an object it finds the own property or what
    [Object.prototype] has under that name, and [delete] removes the own
    property if there is one; on a string, a number or a boolean the
    engine's wrapper decides. *)
Definition clearError (step : string) : M world unit :=
  this ← gets this_state;
  match prop (VObj this) "errors" with
  | VUndefined | VNull =>
      throw (TypeError "Cannot read properties of undefined")
  | VObj errs =>
      if member_truthy errs step
      then
        modify (set_this (<["errors" := VObj (delete step errs)]> this));;
        saveState None
      else mret tt
  | primitive =>
      match primitive_member primitive step with
      | Missing => mret tt
      | Inherited => saveState None
      | Own => throw (TypeError "Cannot delete property")
      end
  end.

(** [getRecoverySuggestions()]: the list it builds once [this.state.errors]
    could be read.  The five names it asks for are no properties of
    [Object.prototype] nor of a primitive. *)
Definition getRecoverySuggestions_of (this : gmap string value) : list suggestion :=
  let errs := prop (VObj this) "errors" in
  (if truthy (prop errs "contractsDeployed")
   then [Suggestion "Contract Deployment" "Smart contract deployment failed"
           ["Check wallet balance (need VANA tokens)";
            "Verify network connectivity";
            "Try again: npm run deploy:contracts"]]
   else []) ++
  (if truthy (prop errs "dataDAORegistered")
   then [Suggestion "DataDAO Registration" "Registration on Vana network failed"
           ["Ensure contracts are deployed first";
            "Check you have 1 VANA for registration fee";
            "Try again: npm run register:datadao"]]
   else []) ++
  (if truthy (prop errs "proofConfigured")
   then [Suggestion "Proof of Contribution" "Proof system configuration failed"
           ["Ensure GitHub repository is accessible";
            "Check dlpId is available from registration";
            "Verify git configuration and permissions";
            "Try again: npm run deploy:proof"]]
   else []) ++
  (if truthy (prop errs "refinerConfigured")
   then [Suggestion "Data Refiner" "Refiner configuration failed"
           ["Ensure Docker is running (for local schema generation)";
            "Check Pinata API credentials are valid";
            "Verify GitHub repository is accessible";
            "Check encryption key retrieval from blockchain";
            "Try again: npm run deploy:refiner"]]
   else []) ++
  (if truthy (prop errs "uiConfigured")
   then [Suggestion "User Interface" "UI configuration failed"
           ["Ensure proof deployment completed (need proofUrl)";
            "Ensure refiner registration completed (need refinerId)";
            "Check Google OAuth credentials are valid";
            "Check Pinata API credentials are valid";
            "Try again: npm run deploy:ui"]]
   else []).

Definition getRecoverySuggestions : M world (list suggestion) :=
  this ← gets this_state;
  if nullish (prop (VObj this) "errors")
  then throw (TypeError "Cannot read properties of undefined (reading 'contractsDeployed')")
  else mret (getRecoverySuggestions_of this).

Definition log_lines (ls : list string) : M world unit :=
  modify (λ w, set_console (console w ++ ls) w).

(** [showRecoveryMenu()]; it resolves to the action chosen, or to
    [undefined] when there is nothing to recover. *)
Definition showRecoveryMenu : M world value :=
  suggestions ← getRecoverySuggestions;
  if (length suggestions =? 0)%nat
  then
    log_lines ["ℹ️  No critical errors detected in completed steps.";
               "Note: This only checks for errors, not incomplete steps."];;
    mret VUndefined
  else
    log_lines ["⚠️  Issues detected in your DataDAO setup:"; EmptyString];;
    log_lines (List.concat ((λ s,
        ["❌ " +:+ sg_step s +:+ ": " +:+ sg_issue s; "   Solutions:"] ++
        ((λ sol, "   • " +:+ sol) <$> sg_solutions s) ++ [EmptyString]) <$> suggestions));;
    a ← prompt;
    mret (prop (VObj a) "action").

(** [validateConfiguration()] *)
Definition validateConfiguration_of (this : gmap string value) : list string :=
  let st := VObj this in
  ((λ field, "Missing " +:+ field) <$>
     filter (λ field, truthy (prop st field) = false)
       ["dlpName"; "tokenName"; "tokenSymbol"; "privateKey"; "address"]) ++
  (if negb (truthy (prop st "pinataApiKey")) || negb (truthy (prop st "pinataApiSecret"))
   then ["Missing Pinata credentials"] else []) ++
  (if negb (truthy (prop st "googleClientId")) || negb (truthy (prop st "googleClientSecret"))
   then ["Missing Google OAuth credentials"] else []) ++
  (if truthy (prop (prop st "state") "dataDAORegistered") && negb (truthy (prop st "dlpId"))
   then ["Marked as registered but missing dlpId"] else []) ++
  (if truthy (prop (prop st "state") "contractsDeployed")
   then
     let hasOldFormat := js_and (prop st "tokenAddress") (prop st "proxyAddress") in
     let hasNewFormat :=
       js_and (prop st "contracts")
         (js_and (prop (prop st "contracts") "tokenAddress")
                 (prop (prop st "contracts") "proxyAddress")) in
     if negb (truthy hasOldFormat) && negb (truthy hasNewFormat)
     then ["Marked as deployed but missing contract addresses"] else []
   else []).

Definition validateConfiguration : M world (list string) :=
  gets (λ w, validateConfiguration_of (this_state w)).

(** [updateState(updates)] *)
Definition updateState (updates : gmap string value) : M world (gmap string value) :=
  modify (λ w,
    let flags := updates ∪ entries (prop (VObj (this_state w)) "state") in
    set_this (<["state" := VObj flags]> (this_state w)) w);;
  saveState None;;
  gets this_state.

(** [updateDeployment(updates)] *)
Definition updateDeployment (updates : gmap string value) : M world (gmap string value) :=
  modify (λ w, set_this (updates ∪ this_state w) w);;
  saveState None;;
  gets this_state.

(** [getState()] *)
Definition getState : M world (gmap string value) := gets this_state.

(** The body of the loop of [fixConfiguration()] for one issue. *)
Definition fix_issue (issue : string) : M world unit :=
  (if includes "Pinata" issue
   then
     a ← prompt;
     updateDeployment
       (<["pinataApiKey" := prop (VObj a) "pinataApiKey"]>
        (<["pinataApiSecret" := prop (VObj a) "pinataApiSecret"]> ∅));;
     console_log "✅ Pinata credentials updated"
   else mret tt);;
  (if includes "Google OAuth" issue
   then
     a ← prompt;
     updateDeployment
       (<["googleClientId" := prop (VObj a) "googleClientId"]>
        (<["googleClientSecret" := prop (VObj a) "googleClientSecret"]> ∅));;
     console_log "✅ Google OAuth credentials updated"
   else mret tt).

Fixpoint for_each {A} (f : A → M world unit) (xs : list A) : M world unit :=
  match xs with
  | [] => mret tt
  | x :: rest => f x;; for_each f rest
  end.

(** [fixConfiguration()] *)
Definition fixConfiguration : M world unit :=
  issues ← validateConfiguration;
  if (length issues =? 0)%nat
  then console_log "✅ Configuration looks good!"
  else
    console_log "🔧 Configuration issues found:";;
    log_lines ((λ issue, "  • " +:+ issue) <$> issues);;
    console_log EmptyString;;
    a ← prompt;
    if negb (truthy (prop (VObj a) "shouldFix"))
    then mret tt
    else for_each fix_issue issues.

(** [isCompleted(step)]: the value the method returns. *)
Definition isCompleted_of (this : gmap string value) (step : string) : value :=
  let st := VObj this in
  if truthy (prop (prop st "state") step) then VBool true
  else if String.eqb step "contractsDeployed" then
    let hasOldFormat := js_and (prop st "tokenAddress") (prop st "proxyAddress") in
    let hasNewFormat :=
      js_and (prop st "contracts")
        (js_and (prop (prop st "contracts") "tokenAddress")
                (prop (prop st "contracts") "proxyAddress")) in
    js_or hasOldFormat hasNewFormat
  else if String.eqb step "dataDAORegistered" then VBool (truthy (prop st "dlpId"))
  else if String.eqb step "proofGitSetup" then VBool (truthy (prop st "proofRepo"))
  else if String.eqb step "refinerGitSetup" then VBool (truthy (prop st "refinerRepo"))
  else if String.eqb step "proofConfigured" then
    VBool (truthy (js_or (prop st "proofUrl") (prop st "proofContractAddress")))
  else if String.eqb step "refinerConfigured" then
    VBool (truthy (js_or (prop st "refinerId") (prop st "refinerContractAddress")))
  else if String.eqb step "uiConfigured" then
    VBool (truthy (prop (prop st "state") step))
  else VBool (truthy (prop (prop st "state") step)).

Definition isCompleted (step : string) : M world value :=
  gets (λ w, isCompleted_of (this_state w) step).

(** [markCompleted(step, data = {})] *)
Definition markCompleted (step : string) (data : gmap string value) : M world unit :=
  updateState {[ step := VBool true ]};;
  if (0 <? size data)%nat
  then updateDeployment data;; mret tt
  else mret tt.

(** One of the six checks of [syncStateFromData()]: the updates collected
    so far and [hasUpdates]. *)
Definition sync_check (this : gmap string value) (step : string)
    (acc : gmap string value * bool) : gmap string value * bool :=
  if negb (truthy (prop (prop (VObj this) "state") step))
     && truthy (isCompleted_of this step)
  then (<[step := VBool true]> (fst acc), true)
  else acc.

Definition sync_updates (this : gmap string value) : gmap string value * bool :=
  sync_check this "refinerConfigured"
    (sync_check this "proofConfigured"
      (sync_check this "refinerGitSetup"
        (sync_check this "proofGitSetup"
          (sync_check this "dataDAORegistered"
            (sync_check this "contractsDeployed" (∅, false)))))).

(** [syncStateFromData()]; [None] is the [null] it returns when nothing
    changed. *)
Definition syncStateFromData : M world (option (gmap string value)) :=
  this ← gets this_state;
  let '(updates, hasUpdates) := sync_updates this in
  if (hasUpdates : bool)
  then updateState updates;; mret (Some updates)
  else mret None.

(** [showProgress()] *)
Definition showProgress : M world unit :=
  this ← gets this_state;
  console_log "📋 Deployment Progress:";;
  log_lines ((λ step : string * string,
      "  " +:+ (if truthy (isCompleted_of this (fst step)) then "✅" else "⏸️")
        +:+ " " +:+ snd step) <$>
    [("contractsDeployed", "Smart Contracts Deployed");
     ("dataDAORegistered", "DataDAO Registered");
     ("proofConfigured", "Proof of Contribution Configured");
     ("proofPublished", "Proof of Contribution Published");
     ("refinerConfigured", "Data Refiner Configured");
     ("refinerPublished", "Data Refiner Published");
     ("uiConfigured", "UI Configured")]);;
  console_log EmptyString.

(** [getNextIncompleteStep()]; [None] is [null]: every step is complete. *)
Definition getNextIncompleteStep_of (this : gmap string value) : option string :=
  List.find (λ step, negb (truthy (isCompleted_of this step)))
    ["contractsDeployed"; "dataDAORegistered"; "proofConfigured";
     "refinerConfigured"; "uiConfigured"].

Definition getNextIncompleteStep : M world (option string) :=
  gets (λ w, getNextIncompleteStep_of (this_state w)).

(** The filter of [validateRequiredFields]: is the dotted path missing? *)
Fixpoint path_missing (v : value) (fieldParts : list string) : bool :=
  match fieldParts with
  | [] => false
  | part :: rest =>
      if negb (truthy v) || negb (truthy (prop v part)) then true
      else path_missing (prop v part) rest
  end.

(** [validateRequiredFields(requiredFields)] *)
Definition validateRequiredFields (requiredFields : list string) : M world unit :=
  this ← gets this_state;
  let missing :=
    List.filter (λ field, path_missing (VObj this) (split_dot field)) requiredFields in
  if (0 <? length missing)%nat
  then throw (new_Error ("Missing required fields: " +:+ join ", " missing))
  else mret tt.

(** *** Running the methods *)

Definition backupPath : string := deploymentPath +:+ ".backup".

(** The files after [saveState] wrote the object [s]. *)
Definition save_files (s : gmap string value) (fs : gmap string string)
    : gmap string string :=
  <[deploymentPath := stringify (VObj s)]>
    (match fs !! deploymentPath with
     | Some previous => <[backupPath := previous]> fs
     | None => fs
     end).

(** [this.state] after the assignments of the mutating methods. *)
Definition with_flags (updates this : gmap string value) : gmap string value :=
  <["state" := VObj (updates ∪ entries (prop (VObj this) "state"))]> this.

Definition with_error (step : string) (entry : value) (this : gmap string value)
    : gmap string value :=
  <["errors" := VObj (<[step := entry]> (entries (prop (VObj this) "errors")))]> this.

Definition without_error (step : string) (this : gmap string value)
    : gmap string value :=
  <["errors" := VObj (delete step (entries (prop (VObj this) "errors")))]> this.

(** The world after a method assigned [s] to [this.state] and saved it. *)
Definition saved (s : gmap string value) (w : world) : world :=
  set_files (save_files s (files w)) (set_this s w).

Ltac run :=
  cbv [mbind M_bind mret M_ret gets modify throw existsSync
       copyFileSync readFileSync writeFileSync console_log log_lines]; simpl.

Lemma length_append (a b : string) :
  String.length (a +:+ b) = (String.length a + String.length b)%nat.
Proof. induction a as [|c a IH]; simpl; [reflexivity | now rewrite IH]. Qed.

Lemma backupPath_ne : backupPath ≠ deploymentPath.
Proof.
  unfold backupPath. intros H.
  apply (f_equal String.length) in H. rewrite length_append in H.
  simpl in H. lia.
Qed.

Lemma saveState_run newState w :
  saveState newState w =
    (Returned tt,
     set_files (save_files (default (this_state w) newState) (files w)) w).
Proof.
  unfold saveState, save_files. run.
  destruct w as [this fs clk con ans]; simpl.
  destruct (fs !! deploymentPath) as [previous|] eqn:Hfile; simpl;
    rewrite ?Hfile; simpl; destruct newState; reflexivity.
Qed.

Lemma updateState_run updates w :
  updateState updates w =
    (Returned (with_flags updates (this_state w)),
     saved (with_flags updates (this_state w)) w).
Proof.
  unfold updateState. run. rewrite saveState_run. simpl.
  destruct w; reflexivity.
Qed.

Lemma updateDeployment_run updates w :
  updateDeployment updates w =
    (Returned (updates ∪ this_state w), saved (updates ∪ this_state w) w).
Proof.
  unfold updateDeployment. run. rewrite saveState_run. simpl.
  destruct w; reflexivity.
Qed.

Lemma prop_errors this errs :
  this !! "errors" = Some (VObj errs) → prop (VObj this) "errors" = VObj errs.
Proof. intros H. unfold prop. now rewrite H. Qed.

Lemma prop_errors_with_error step entry this errs :
  this !! "errors" = Some (VObj errs) →
  prop (VObj (with_error step entry this)) "errors" = VObj (<[step := entry]> errs).
Proof.
  intros Herrs. unfold with_error. rewrite (prop_errors _ _ Herrs).
  unfold prop. now rewrite lookup_insert_eq.
Qed.

Lemma recordError_run step err errs w :
  nullish err = false →
  this_state w !! "errors" = Some (VObj errs) →
  step ≠ "__proto__" ∨ is_Some (errs !! step) →
  recordError step err w =
    (Returned tt,
     saved (with_error step (error_entry (clock w) err) (this_state w)) w).
Proof.
  intros Herr Herrs Hstep. unfold recordError, with_error.
  cbv [mbind M_bind mret M_ret gets modify throw].
  rewrite Herr, (prop_errors _ _ Herrs). cbn [entries].
  assert (Hown : String.eqb step "__proto__" && bool_decide (errs !! step = None) = false).
  { destruct Hstep as [Hne|[entry Hentry]].
    - apply String.eqb_neq in Hne. now rewrite Hne.
    - rewrite Hentry, bool_decide_eq_false_2 by discriminate. apply andb_false_r. }
  rewrite Hown. rewrite saveState_run. simpl. destruct w; reflexivity.
Qed.

(** The key [__proto__] on an [errors] without such a property of its own:
    nothing is stored, the document is saved as it is. *)
Lemma recordError_proto err errs w :
  nullish err = false →
  this_state w !! "errors" = Some (VObj errs) →
  errs !! "__proto__" = None →
  recordError "__proto__" err w = (Returned tt, saved (this_state w) w).
Proof.
  intros Herr Herrs Hnone. unfold recordError.
  cbv [mbind M_bind mret M_ret gets modify throw].
  rewrite Herr, (prop_errors _ _ Herrs).
  rewrite String.eqb_refl, bool_decide_eq_true_2 by exact Hnone. cbn [andb].
  rewrite saveState_run. simpl. destruct w; reflexivity.
Qed.

Lemma recordError_saves step err errs w :
  nullish err = false →
  this_state w !! "errors" = Some (VObj errs) →
  ∃ s, recordError step err w = (Returned tt, saved s w).
Proof.
  intros Herr Herrs.
  destruct (decide (step = "__proto__")) as [->|Hne].
  - destruct (errs !! "__proto__") as [entry|] eqn:Hown.
    + eexists. apply (recordError_run _ _ errs);
        [exact Herr | exact Herrs | right; rewrite Hown; now eexists].
    + eexists. now apply (recordError_proto _ errs).
  - eexists. apply (recordError_run _ _ errs); [exact Herr | exact Herrs | now left].
Qed.

Lemma recordError_throws step err w :
  nullish err = true
  ∨ nullish (prop (VObj (this_state w)) "errors") = true
  ∨ (step ≠ "__proto__" ∧ ∀ errs, this_state w !! "errors" ≠ Some (VObj errs)) →
  ∃ e, recordError step err w = (Thrown e, w) ∧ name e = "TypeError".
Proof.
  intros Hbad. unfold recordError. cbv [mbind M_bind mret M_ret gets modify throw].
  destruct (nullish err) eqn:Herr; [now eexists|].
  destruct Hbad as [Hbad|[Hbad|[Hstep Hbad]]]; [discriminate| |].
  - destruct (prop (VObj (this_state w)) "errors"); try discriminate; now eexists.
  - apply String.eqb_neq in Hstep. rewrite Hstep.
    unfold prop. destruct (this_state w !! "errors") as [[| | | | |errs]|] eqn:Herrs;
      simpl; try (now eexists).
    now destruct (Hbad errs).
Qed.

(** Whatever it is given, [recordError] saves the document, with the entry
    or as it was, or throws a [TypeError] and has touched nothing. *)
Lemma recordError_cases step err w :
  (∃ s, recordError step err w = (Returned tt, saved s w) ∧
        (s = this_state w
         ∨ s = with_error step (error_entry (clock w) err) (this_state w))) ∨
  (∃ e, recordError step err w = (Thrown e, w) ∧ name e = "TypeError").
Proof.
  destruct (nullish err) eqn:Herr; [right; apply recordError_throws; now left|].
  destruct (prop (VObj (this_state w)) "errors") as [| | | | |errs] eqn:Herrs;
    try (right; apply recordError_throws; right; left; now rewrite Herrs);
    try (destruct (decide (step = "__proto__")) as [->|Hne];
         [left; exists (this_state w); split; [|now left];
          unfold recordError; cbv [mbind M_bind mret M_ret gets modify throw];
          rewrite Herr, Herrs; cbn [String.eqb Ascii.eqb Bool.eqb andb];
          rewrite saveState_run; simpl; now destruct w
         |right; apply recordError_throws; right; right; split; [exact Hne|];
          intros errs Hobj; unfold prop in Herrs; rewrite Hobj in Herrs;
          discriminate Herrs]).
  assert (Hobj : this_state w !! "errors" = Some (VObj errs)).
  { unfold prop in Herrs. destruct (this_state w !! "errors"); simpl in Herrs;
      [now subst | discriminate]. }
  left. destruct (decide (step = "__proto__" ∧ errs !! step = None)) as [[-> Hnone]|Hown].
  - exists (this_state w). split; [now apply (recordError_proto _ errs) | now left].
  - eexists. split; [|now right]. apply (recordError_run _ _ errs); [exact Herr|exact Hobj|].
    destruct (decide (step = "__proto__")) as [->|Hne]; [|now left].
    right. destruct (errs !! "__proto__") eqn:Hentry; [now eexists|].
    destruct Hown. now split.
Qed.

Lemma clearError_run step errs w :
  this_state w !! "errors" = Some (VObj errs) →
  clearError step w =
    if member_truthy errs step
    then (Returned tt, saved (without_error step (this_state w)) w)
    else (Returned tt, w).
Proof.
  intros Herrs. unfold clearError, without_error.
  cbv [mbind M_bind mret M_ret gets modify throw].
  rewrite (prop_errors _ _ Herrs). cbn [entries].
  destruct (member_truthy errs step); [|reflexivity].
  rewrite saveState_run. simpl. destruct w; reflexivity.
Qed.

Lemma clearError_missing step w :
  nullish (prop (VObj (this_state w)) "errors") = true →
  ∃ e, clearError step w = (Thrown e, w) ∧ name e = "TypeError".
Proof.
  intros Hnull. unfold clearError. cbv [mbind M_bind mret M_ret gets modify throw].
  destruct (prop (VObj (this_state w)) "errors"); try discriminate; now eexists.
Qed.

(** The three ways [clearError] ends: it saved (after it removed the entry,
    or the document as it was where the key is inherited), it left
    everything as it was, or it threw a [TypeError] before any change. *)
Lemma clearError_cases step w :
  (∃ s, clearError step w = (Returned tt, saved s w) ∧
        (s = this_state w ∨ s = without_error step (this_state w))) ∨
  clearError step w = (Returned tt, w) ∨
  (∃ e, clearError step w = (Thrown e, w) ∧ name e = "TypeError").
Proof.
  unfold clearError, without_error. cbv [mbind M_bind mret M_ret gets modify throw].
  destruct (prop (VObj (this_state w)) "errors") as [| | | | |errs] eqn:Herrs;
    try (right; right; now eexists);
    try (destruct (primitive_member _ step);
         [right; now left
         |left; exists (this_state w); rewrite saveState_run; simpl;
          split; [now destruct w | now left]
         |right; right; now eexists]).
  destruct (member_truthy errs step); [|right; now left].
  left. eexists. rewrite saveState_run. simpl. split; [now destruct w | now right].
Qed.

Lemma getRecoverySuggestions_run w :
  nullish (prop (VObj (this_state w)) "errors") = false →
  getRecoverySuggestions w = (Returned (getRecoverySuggestions_of (this_state w)), w).
Proof.
  intros Hthere. unfold getRecoverySuggestions.
  cbv [mbind M_bind mret M_ret gets throw]. now rewrite Hthere.
Qed.

Lemma getRecoverySuggestions_missing w :
  nullish (prop (VObj (this_state w)) "errors") = true →
  ∃ e, getRecoverySuggestions w = (Thrown e, w) ∧ name e = "TypeError".
Proof.
  intros Hnull. unfold getRecoverySuggestions.
  cbv [mbind M_bind mret M_ret gets throw]. rewrite Hnull. now eexists.
Qed.

Lemma markCompleted_run step data w :
  markCompleted step data w =
    let s1 := with_flags {[ step := VBool true ]} (this_state w) in
    if (0 <? size data)%nat
    then (Returned tt, saved (data ∪ s1) (saved s1 w))
    else (Returned tt, saved s1 w).
Proof.
  unfold markCompleted. run. rewrite updateState_run. simpl.
  destruct (0 <? size data)%nat; [|reflexivity].
  run. rewrite updateDeployment_run. reflexivity.
Qed.

Lemma saved_backup s w content :
  files w !! deploymentPath = Some content →
  files (saved s w) !! backupPath = Some content.
Proof.
  intros H. unfold saved, save_files. simpl. rewrite H.
  rewrite lookup_insert_ne by (intros E; symmetry in E; now apply backupPath_ne in E).
  apply lookup_insert_eq.
Qed.

Lemma saved_file s w :
  files (saved s w) !! deploymentPath = Some (stringify (VObj s)).
Proof. unfold saved, save_files. simpl. apply lookup_insert_eq. Qed.

Lemma saved_this s w : this_state (saved s w) = s.
Proof. reflexivity. Qed.

(** *** Backups *)

(** C8: whenever [saveState] runs while [deployment.json] exists, the
    previous contents of the file are in [deployment.json.backup] once the new
    state is written.  Hence after [updateState], [updateDeployment], a
    [recordError] that stores its entry, a [clearError] that finds an entry,
    and [markCompleted] the backup holds the snapshot that was on disk
    immediately before the last write: the contents found at the call for the
    methods that save once, and for a [markCompleted] with data (which saves
    twice) the snapshot its own flag update had just written.  [recordError]
    stores and saves when it is given an error (not [null] or [undefined])
    and [errors] is an object; it throws a [TypeError] before it touches
    anything when the error or [errors] is [null] or [undefined], and when
    [errors] is no object and the step is not [__proto__].  In every case
    [recordError] and [clearError] either save, and the backup then holds
    the previous contents, or leave memory and files as they are. *)
Theorem C8_backup_holds_previous_snapshot (w : world) (content : string) :
  files w !! deploymentPath = Some content →
  (∀ newState,
     fst (saveState newState w) = Returned tt ∧
     files (snd (saveState newState w)) !! backupPath = Some content ∧
     files (snd (saveState newState w)) !! deploymentPath
       = Some (stringify (VObj (default (this_state w) newState)))) ∧
  (∀ updates, files (snd (updateState updates w)) !! backupPath = Some content) ∧
  (∀ updates, files (snd (updateDeployment updates w)) !! backupPath = Some content) ∧
  (∀ step err errs,
     nullish err = false →
     this_state w !! "errors" = Some (VObj errs) →
     fst (recordError step err w) = Returned tt ∧
     files (snd (recordError step err w)) !! backupPath = Some content ∧
     files (snd (recordError step err w)) !! deploymentPath
       = Some (stringify (VObj (this_state (snd (recordError step err w)))))) ∧
  (∀ step err,
     nullish err = true
     ∨ nullish (prop (VObj (this_state w)) "errors") = true
     ∨ (step ≠ "__proto__" ∧ ∀ errs, this_state w !! "errors" ≠ Some (VObj errs)) →
     ∃ e, recordError step err w = (Thrown e, w) ∧ name e = "TypeError") ∧
  (∀ step err,
     files (snd (recordError step err w)) !! backupPath = Some content ∨
     snd (recordError step err w) = w) ∧
  (∀ step errs,
     this_state w !! "errors" = Some (VObj errs) →
     member_truthy errs step = true →
     fst (clearError step w) = Returned tt ∧
     files (snd (clearError step w)) !! backupPath = Some content ∧
     files (snd (clearError step w)) !! deploymentPath
       = Some (stringify (VObj (this_state (snd (clearError step w)))))) ∧
  (∀ step,
     files (snd (clearError step w)) !! backupPath = Some content ∨
     snd (clearError step w) = w) ∧
  (∀ step, files (snd (markCompleted step ∅ w)) !! backupPath = Some content) ∧
  (∀ step data,
     data ≠ ∅ →
     files (snd (markCompleted step data w)) !! backupPath
       = files (snd (updateState {[ step := VBool true ]} w)) !! deploymentPath).
Proof.
  intros Hfile. repeat match goal with |- _ ∧ _ => split end.
  - intros newState. rewrite saveState_run. cbn [fst snd].
    split; [reflexivity|]. split.
    + simpl. unfold save_files. rewrite Hfile.
      rewrite lookup_insert_ne by (intros E; symmetry in E; now apply backupPath_ne in E).
      apply lookup_insert_eq.
    + simpl. unfold save_files. apply lookup_insert_eq.
  - intros updates. rewrite updateState_run. simpl. now apply saved_backup.
  - intros updates. rewrite updateDeployment_run. simpl. now apply saved_backup.
  - intros step err errs Herr Herrs.
    destruct (recordError_saves step err errs w Herr Herrs) as [s ->]. cbn [fst snd].
    split; [reflexivity|]. split; [now apply saved_backup | apply saved_file].
  - intros step err. apply recordError_throws.
  - intros step err.
    destruct (recordError_cases step err w) as [(s & -> & _)|(e & -> & _)]; cbn [snd];
      [left; now apply saved_backup | now right].
  - intros step errs Herrs Hentry. rewrite (clearError_run _ _ _ Herrs), Hentry.
    cbn [fst snd]. split; [reflexivity|].
    split; [now apply saved_backup | apply saved_file].
  - intros step.
    destruct (clearError_cases step w) as [(s & -> & _)|[->|(e & -> & _)]]; cbn [snd];
      [left; now apply saved_backup | now right | now right].
  - intros step. rewrite markCompleted_run. simpl. now apply saved_backup.
  - intros step data Hdata. rewrite markCompleted_run, updateState_run.
    assert (Hsize : (0 <? size data)%nat = true).
    { apply Nat.ltb_lt. destruct (decide (size data = 0%nat)) as [E|E]; [|lia].
      apply map_size_empty_inv in E. contradiction. }
    cbv zeta. rewrite Hsize. cbn [snd].
    rewrite saved_file. apply saved_backup. apply saved_file.
Qed.

(** *** Completion tracking *)

(** [this.state.state[step]] *)
Definition flag (this : gmap string value) (step : string) : value :=
  prop (prop (VObj this) "state") step.

(** The condition of one check of [syncStateFromData()]. *)
Definition sync_cond (this : gmap string value) (step : string) : bool :=
  negb (truthy (flag this step)) && truthy (isCompleted_of this step).

Definition sync_steps : list string :=
  ["contractsDeployed"; "dataDAORegistered"; "proofGitSetup";
   "refinerGitSetup"; "proofConfigured"; "refinerConfigured"].

(** The data that proves a step complete, as the specification lists it:
    the contract addresses in the old or the new format, the dlpId, the
    repository URLs, the proof URL or contract, the refiner id or contract. *)
Definition spec_data_present (this : gmap string value) (step : string) : bool :=
  let st := VObj this in
  if String.eqb step "contractsDeployed" then
    (truthy (prop st "tokenAddress") && truthy (prop st "proxyAddress"))
    || (truthy (prop st "contracts")
        && truthy (prop (prop st "contracts") "tokenAddress")
        && truthy (prop (prop st "contracts") "proxyAddress"))
  else if String.eqb step "dataDAORegistered" then truthy (prop st "dlpId")
  else if String.eqb step "proofGitSetup" then truthy (prop st "proofRepo")
  else if String.eqb step "refinerGitSetup" then truthy (prop st "refinerRepo")
  else if String.eqb step "proofConfigured" then
    truthy (prop st "proofUrl") || truthy (prop st "proofContractAddress")
  else if String.eqb step "refinerConfigured" then
    truthy (prop st "refinerId") || truthy (prop st "refinerContractAddress")
  else false.

Lemma truthy_js_and a b : truthy (js_and a b) = truthy a && truthy b.
Proof. unfold js_and. destruct (truthy a) eqn:E; simpl; [reflexivity | exact E]. Qed.

Lemma truthy_js_or a b : truthy (js_or a b) = truthy a || truthy b.
Proof. unfold js_or. destruct (truthy a) eqn:E; simpl; [exact E | reflexivity]. Qed.


Lemma isCompleted_of_data this step :
  spec_data_present this step = true → truthy (isCompleted_of this step) = true.
Proof.
  unfold isCompleted_of, spec_data_present.
  destruct (truthy (prop (prop (VObj this) "state") step)); [reflexivity|].
  repeat (destruct (String.eqb step _);
          [rewrite ?truthy_js_or, ?truthy_js_and; simpl;
           rewrite ?truthy_js_or, ?andb_assoc; tauto|]).
  discriminate.
Qed.

Lemma sync_updates_fold this :
  sync_updates this = foldl (λ acc step, sync_check this step acc) (∅, false) sync_steps.
Proof. reflexivity. Qed.

Lemma sync_fold_lookup this steps acc step :
  fst (foldl (λ acc step, sync_check this step acc) acc steps) !! step =
    if bool_decide (step ∈ steps) && sync_cond this step
    then Some (VBool true) else fst acc !! step.
Proof.
  revert acc. induction steps as [|s steps IH]; intros acc; simpl.
  - reflexivity.
  - rewrite IH. unfold sync_check. fold (flag this s). fold (sync_cond this s).
    destruct (decide (step ∈ steps)) as [Hin|Hin].
    + rewrite (bool_decide_eq_true_2 _ Hin).
      rewrite bool_decide_eq_true_2 by (now right).
      simpl. destruct (sync_cond this step) eqn:Hstep; [reflexivity|].
      destruct (sync_cond this s) eqn:Hs; simpl; [|reflexivity].
      apply lookup_insert_ne. intros ->. congruence.
    + rewrite (bool_decide_eq_false_2 _ Hin). simpl.
      destruct (decide (step = s)) as [->|Hne].
      * rewrite bool_decide_eq_true_2 by (now left). simpl.
        destruct (sync_cond this s); simpl; [apply lookup_insert_eq | reflexivity].
      * rewrite bool_decide_eq_false_2
          by (intros H; apply elem_of_cons in H as [?|?]; contradiction).
        simpl. destruct (sync_cond this s); simpl; [|reflexivity].
        now apply lookup_insert_ne.
Qed.


Lemma sync_updates_lookup this step :
  fst (sync_updates this) !! step =
    if bool_decide (step ∈ sync_steps) && sync_cond this step
    then Some (VBool true) else None.
Proof. rewrite sync_updates_fold, sync_fold_lookup. reflexivity. Qed.


Lemma flag_with_flags updates this step :
  flag (with_flags updates this) step =
    match updates !! step with
    | Some v => v
    | None => flag this step
    end.
Proof.
  unfold flag, with_flags, prop at 2. rewrite lookup_insert_eq. simpl.
  unfold prop at 1. rewrite lookup_union.
  destruct (updates !! step) as [v|] eqn:Hu; simpl.
  - now destruct (entries _ !! step).
  - unfold prop, entries. destruct (default VUndefined (this !! "state")); simpl;
      rewrite ?lookup_empty; try reflexivity.
    now destruct (o !! step).
Qed.

Lemma prop_with_flags updates this k :
  k ≠ "state" → prop (VObj (with_flags updates this)) k = prop (VObj this) k.
Proof. intros Hk. unfold prop, with_flags. now rewrite lookup_insert_ne. Qed.



Lemma syncStateFromData_run w :
  syncStateFromData w =
    let updates := fst (sync_updates (this_state w)) in
    if snd (sync_updates (this_state w))
    then (Returned (Some updates), saved (with_flags updates (this_state w)) w)
    else (Returned None, w).
Proof.
  unfold syncStateFromData. run.
  destruct (sync_updates (this_state w)) as [updates [|]]; simpl; [|reflexivity].
  run. rewrite updateState_run. reflexivity.
Qed.




(** *** The status command: [showDetailedErrors] *)

(** [new Date(t).toLocaleString()] depends on the locale of the host. *)
Variable toLocaleString : value → string.

(** The text a template literal puts in for [${v}]. *)
Definition template (v : value) : string :=
  match v with
  | VUndefined => "undefined"
  | VNull => "null"
  | VBool true => "true"
  | VBool false => "false"
  | VNum n => pretty n
  | VStr s => s
  | VObj _ => "[object Object]"
  end.



(** A template literal and [new Date(v)] turn an object into a primitive
    through its [toString] method.  An object of a JSON document that has a
    property of that name of its own holds no function there, and the
    conversion throws a [TypeError]; any other object gives
    [[object Object]]. *)
Definition unprintable (v : value) : bool :=
  match v with
  | VObj o => bool_decide (is_Some (o !! "toString"))
  | _ => false
  end.





(** *** The status command: [showStatus] and its helpers *)

(** [`${v}`]: the text, or the [TypeError] of an object that cannot be
    converted. *)
Definition interpolate (v : value) : M world string :=
  if unprintable v
  then throw (TypeError "Cannot convert object to primitive value")
  else mret (template v).
















(** The callees of [showStatus] that the properties below do not enter:
    [retryFailedSteps(stateManager)], [updateCredentials(stateManager)] and
    [resumeGuidedSetup(stateManager, deployment)] run other scripts of the
    project as child processes and ask the operator further questions. *)
Variable retryFailedSteps : M world unit.
Variable updateCredentials : M world unit.
Variable resumeGuidedSetup : M world unit.





(** [this.state.errors], as a map *)
Definition errors_of (this : gmap string value) : gmap string value :=
  entries (prop (VObj this) "errors").

Lemma errors_with_error step entry this :
  errors_of (with_error step entry this) = <[step := entry]> (errors_of this).
Proof. unfold errors_of, with_error, prop. now rewrite lookup_insert_eq. Qed.

Lemma errors_without_error step this :
  errors_of (without_error step this) = delete step (errors_of this).
Proof. unfold errors_of, without_error, prop. now rewrite lookup_insert_eq. Qed.


Lemma set_console_nil w : set_console (console w ++ []) w = w.
Proof. destruct w. unfold set_console. simpl. now rewrite app_nil_r. Qed.

Lemma set_console_app w l1 l2 :
  set_console (console (set_console (console w ++ l1) w) ++ l2)
    (set_console (console w ++ l1) w)
  = set_console (console w ++ l1 ++ l2) w.
Proof. destruct w. unfold set_console. simpl. now rewrite app_assoc. Qed.

(** [m] returns after it printed some lines, and changes nothing else. *)
Definition prints_only {A} (m : M world A) : Prop :=
  ∀ w, ∃ a lines, m w = (Returned a, set_console (console w ++ lines) w).

Lemma prints_only_ret {A} (a : A) : prints_only (mret a).
Proof. intros w. exists a, []. now rewrite set_console_nil. Qed.

Lemma prints_only_gets {A} (f : world → A) : prints_only (gets f).
Proof. intros w. exists (f w), []. now rewrite set_console_nil. Qed.

Lemma prints_only_console_log line : prints_only (console_log line).
Proof. intros w. now exists tt, [line]. Qed.

Lemma prints_only_log_lines ls : prints_only (log_lines ls).
Proof. intros w. now exists tt, ls. Qed.

Lemma prints_only_bind {A B} (m : M world A) (f : A → M world B) :
  prints_only m → (∀ a, prints_only (f a)) → prints_only (m ≫= f).
Proof.
  intros Hm Hf w. destruct (Hm w) as (a & l1 & Hrun).
  destruct (Hf a (set_console (console w ++ l1) w)) as (b & l2 & Hrun').
  exists b, (l1 ++ l2). unfold mbind, M_bind. rewrite Hrun, Hrun'.
  now rewrite set_console_app.
Qed.

Lemma prints_only_interpolate v : unprintable v = false → prints_only (interpolate v).
Proof. intros Hv. unfold interpolate. rewrite Hv. apply prints_only_ret. Qed.

Ltac prints :=
  repeat first
    [ apply prints_only_ret | apply prints_only_console_log
    | apply prints_only_log_lines | apply prints_only_gets
    | (apply prints_only_interpolate; assumption)
    | (apply prints_only_bind; [|intros ?]) ].








(** *** A run of the status command that shows the recorded errors *)








(** *** The invariant "registered implies dlpId" *)

(** A state that breaks the invariant: the flag is set, the id is missing. *)
Definition registered_without_dlpId (this : gmap string value) : Prop :=
  truthy (flag this "dataDAORegistered") = true ∧
  truthy (prop (VObj this) "dlpId") = false.

(** The only failure of the model that is not the script's: the operator
    stopped answering. *)
Definition prompt_closed : error := Error "Error" "prompt closed".

(** [m] tolerates the broken invariant: started in a state that breaks it,
    it ends in one that still does, and it does not throw (unless the
    operator left a prompt unanswered). *)
Definition tolerates {A} (m : M world A) : Prop :=
  ∀ w, registered_without_dlpId (this_state w) →
    registered_without_dlpId (this_state (snd (m w))) ∧
    ((∃ a, fst (m w) = Returned a) ∨ fst (m w) = Thrown prompt_closed).

Lemma tolerates_ret {A} (a : A) : tolerates (mret a).
Proof. intros w H. split; [exact H | left; now exists a]. Qed.

Lemma tolerates_bind {A B} (m : M world A) (f : A → M world B) :
  tolerates m → (∀ a, tolerates (f a)) → tolerates (m ≫= f).
Proof.
  intros Hm Hf w H. destruct (Hm w H) as [Hkeep Hout].
  unfold mbind, M_bind. destruct (m w) as [[a|e|c] w']; simpl in *.
  - apply Hf. exact Hkeep.
  - split; [exact Hkeep|]. destruct Hout as [[a Ha]|Hout]; [discriminate|].
    right. now inversion Hout.
  - destruct Hout as [[a Ha]|Hout]; discriminate.
Qed.

Lemma tolerates_gets {A} (f : world → A) : tolerates (gets f).
Proof. intros w H. split; [exact H | left; now eexists]. Qed.

Lemma tolerates_console_log line : tolerates (console_log line).
Proof. intros w H. split; [exact H | left; now eexists]. Qed.

Lemma tolerates_log_lines ls : tolerates (log_lines ls).
Proof. intros w H. split; [exact H | left; now eexists]. Qed.

Lemma tolerates_prompt : tolerates prompt.
Proof.
  intros w H. unfold prompt. destruct (answers w); simpl.
  - split; [exact H | now right].
  - split; [exact H | left; now eexists].
Qed.

Lemma tolerates_saveState ns : tolerates (saveState ns).
Proof. intros w H. rewrite saveState_run. split; [exact H | left; now eexists]. Qed.

Lemma broken_with_error step entry this :
  registered_without_dlpId this → registered_without_dlpId (with_error step entry this).
Proof.
  unfold registered_without_dlpId, flag, with_error, prop.
  now rewrite !lookup_insert_ne by discriminate.
Qed.

Lemma broken_without_error step this :
  registered_without_dlpId this → registered_without_dlpId (without_error step this).
Proof.
  unfold registered_without_dlpId, flag, without_error, prop.
  now rewrite !lookup_insert_ne by discriminate.
Qed.

Lemma broken_with_flags updates this :
  match updates !! "dataDAORegistered" with
  | Some v => truthy v = true
  | None => True
  end →
  registered_without_dlpId this → registered_without_dlpId (with_flags updates this).
Proof.
  intros Hu [Hflag Hid]. split.
  - rewrite flag_with_flags. destruct (updates !! "dataDAORegistered"); assumption.
  - now rewrite prop_with_flags by discriminate.
Qed.

Lemma prop_union updates this k :
  updates !! k = None → prop (VObj (updates ∪ this)) k = prop (VObj this) k.
Proof. intros Hk. unfold prop. now rewrite lookup_union_r. Qed.

Lemma broken_union updates this :
  updates !! "dlpId" = None → updates !! "state" = None →
  registered_without_dlpId this → registered_without_dlpId (updates ∪ this).
Proof.
  intros Hid Hstate. unfold registered_without_dlpId, flag.
  now rewrite !prop_union.
Qed.

(** The same for a method that needs something of the world it is called
    in. *)
Definition tolerates_where {A} (P : world → Prop) (m : M world A) : Prop :=
  ∀ w, registered_without_dlpId (this_state w) → P w →
    registered_without_dlpId (this_state (snd (m w))) ∧
    ((∃ a, fst (m w) = Returned a) ∨ fst (m w) = Thrown prompt_closed).

(** [this.state.errors] is an object; it can be read. *)
Definition errors_object (w : world) : Prop :=
  ∃ errs, this_state w !! "errors" = Some (VObj errs).

Definition errors_readable (w : world) : Prop :=
  nullish (prop (VObj (this_state w)) "errors") = false.

Lemma tolerates_where_bind {A B} P (m : M world A) (f : A → M world B) :
  tolerates_where P m → (∀ a, tolerates (f a)) → tolerates_where P (m ≫= f).
Proof.
  intros Hm Hf w H HP. destruct (Hm w H HP) as [Hkeep Hout].
  unfold mbind, M_bind. destruct (m w) as [[a|e|c] w']; simpl in *.
  - apply Hf. exact Hkeep.
  - split; [exact Hkeep|]. destruct Hout as [[a Ha]|Hout]; [discriminate|].
    right. now inversion Hout.
  - destruct Hout as [[a Ha]|Hout]; discriminate.
Qed.

Lemma tolerates_recordError step err :
  nullish err = false → tolerates_where errors_object (recordError step err).
Proof.
  intros Herr w H [errs Herrs].
  destruct (decide (step = "__proto__" ∧ errs !! step = None)) as [[-> Hnone]|Hown].
  - rewrite (recordError_proto _ _ _ Herr Herrs Hnone). split; [|left; now eexists].
    exact H.
  - rewrite (recordError_run _ _ _ _ Herr Herrs).
    + split; [|left; now eexists]. now apply broken_with_error.
    + destruct (decide (step = "__proto__")) as [->|Hne]; [|now left].
      right. destruct (errs !! "__proto__") eqn:Hentry; [now eexists|].
      destruct Hown. now split.
Qed.

Lemma tolerates_clearError step : tolerates_where errors_object (clearError step).
Proof.
  intros w H [errs Herrs]. rewrite (clearError_run _ _ _ Herrs).
  destruct (member_truthy errs step).
  - split; [|left; now eexists]. now apply broken_without_error.
  - split; [exact H | left; now eexists].
Qed.

Lemma tolerates_getRecoverySuggestions :
  tolerates_where errors_readable getRecoverySuggestions.
Proof.
  intros w H Hread. rewrite (getRecoverySuggestions_run _ Hread).
  split; [exact H | left; now eexists].
Qed.

Lemma tolerates_updateState updates :
  match updates !! "dataDAORegistered" with
  | Some v => truthy v = true
  | None => True
  end →
  tolerates (updateState updates).
Proof.
  intros Hu w H. rewrite updateState_run. split; [|left; now eexists].
  now apply broken_with_flags.
Qed.

Lemma tolerates_updateDeployment updates :
  updates !! "dlpId" = None → updates !! "state" = None →
  tolerates (updateDeployment updates).
Proof.
  intros Hid Hstate w H. rewrite updateDeployment_run. split; [|left; now eexists].
  now apply broken_union.
Qed.

Lemma tolerates_markCompleted step data :
  data !! "dlpId" = None → data !! "state" = None →
  tolerates (markCompleted step data).
Proof.
  intros Hid Hstate. unfold markCompleted. apply tolerates_bind.
  - apply tolerates_updateState.
    destruct (decide (step = "dataDAORegistered")) as [->|Hne].
    + now rewrite lookup_singleton_eq.
    + now rewrite lookup_singleton_ne.
  - intros _. destruct (0 <? size data)%nat; [|apply tolerates_ret].
    apply tolerates_bind; [now apply tolerates_updateDeployment|].
    intros _. apply tolerates_ret.
Qed.

Lemma tolerates_syncStateFromData : tolerates syncStateFromData.
Proof.
  intros w H. rewrite syncStateFromData_run. cbv zeta.
  destruct (snd (sync_updates (this_state w))); [|split; [exact H | left; now eexists]].
  split; [|left; now eexists]. cbn [snd]. rewrite saved_this.
  apply broken_with_flags; [|exact H].
  rewrite sync_updates_lookup. now destruct (_ && _).
Qed.

Lemma tolerates_for_each {A} (f : A → M world unit) xs :
  (∀ x, tolerates (f x)) → tolerates (for_each f xs).
Proof.
  intros Hf. induction xs as [|x xs IH]; simpl.
  - apply tolerates_ret.
  - apply tolerates_bind; [apply Hf | intros _; exact IH].
Qed.

Lemma tolerates_fix_issue issue : tolerates (fix_issue issue).
Proof.
  unfold fix_issue. apply tolerates_bind.
  - destruct (includes "Pinata" issue); [|apply tolerates_ret].
    apply tolerates_bind; [apply tolerates_prompt|]. intros a.
    apply tolerates_bind; [now apply tolerates_updateDeployment|].
    intros _. apply tolerates_console_log.
  - intros _. destruct (includes "Google OAuth" issue); [|apply tolerates_ret].
    apply tolerates_bind; [apply tolerates_prompt|]. intros a.
    apply tolerates_bind; [now apply tolerates_updateDeployment|].
    intros _. apply tolerates_console_log.
Qed.

Lemma tolerates_fixConfiguration : tolerates fixConfiguration.
Proof.
  unfold fixConfiguration. apply tolerates_bind; [apply tolerates_gets|].
  intros issues. destruct (length issues =? 0)%nat; [apply tolerates_console_log|].
  apply tolerates_bind; [apply tolerates_console_log|]. intros _.
  apply tolerates_bind; [apply tolerates_log_lines|]. intros _.
  apply tolerates_bind; [apply tolerates_console_log|]. intros _.
  apply tolerates_bind; [apply tolerates_prompt|]. intros a.
  destruct (negb _); [apply tolerates_ret|].
  apply tolerates_for_each. apply tolerates_fix_issue.
Qed.

Lemma tolerates_showRecoveryMenu : tolerates_where errors_readable showRecoveryMenu.
Proof.
  unfold showRecoveryMenu.
  apply tolerates_where_bind; [apply tolerates_getRecoverySuggestions|].
  intros suggestions. destruct (length suggestions =? 0)%nat.
  - apply tolerates_bind; [apply tolerates_log_lines|]. intros _. apply tolerates_ret.
  - apply tolerates_bind; [apply tolerates_log_lines|]. intros _.
    apply tolerates_bind; [apply tolerates_log_lines|]. intros _.
    apply tolerates_bind; [apply tolerates_prompt|]. intros a. apply tolerates_ret.
Qed.

(** Where the four methods that read [this.state.errors] do not return,
    they throw a [TypeError] before they touch anything, whatever the flags
    and the dlpId are. *)
Lemma showRecoveryMenu_missing w :
  nullish (prop (VObj (this_state w)) "errors") = true →
  ∃ e, showRecoveryMenu w = (Thrown e, w) ∧ name e = "TypeError".
Proof.
  intros Hnull. destruct (getRecoverySuggestions_missing w Hnull) as (e & Hrun & He).
  exists e. split; [|exact He]. unfold showRecoveryMenu, mbind, M_bind. now rewrite Hrun.
Qed.

Lemma tolerates_showProgress : tolerates showProgress.
Proof.
  unfold showProgress. apply tolerates_bind; [apply tolerates_gets|]. intros this.
  apply tolerates_bind; [apply tolerates_console_log|]. intros _.
  apply tolerates_bind; [apply tolerates_log_lines|]. intros _.
  apply tolerates_console_log.
Qed.

Lemma flag_truthy_state this step :
  truthy (flag this step) = true → truthy (prop (VObj this) "state") = true.
Proof.
  unfold flag. destruct (prop (VObj this) "state"); simpl; try discriminate.
  reflexivity.
Qed.

Lemma loadState_broken w content document :
  files w !! deploymentPath = Some content →
  parse content = Some (VObj document) →
  registered_without_dlpId document →
  ∃ s, loadState w = (Returned s, w) ∧ registered_without_dlpId s.
Proof.
  intros Hfile Hparse Hbroken. unfold loadState.
  cbv [mbind M_bind mret M_ret gets modify throw existsSync readFileSync].
  rewrite Hfile. cbn -[prop]. rewrite Hfile, Hparse.
  rewrite (flag_truthy_state _ _ (proj1 Hbroken)). cbn -[prop].
  eexists. split; [reflexivity|].
  destruct (negb _); [|exact Hbroken].
  destruct Hbroken as [Hflag Hid]. unfold registered_without_dlpId, flag, prop in *.
  now rewrite !lookup_insert_ne by discriminate.
Qed.

Lemma path_missing_with_flags updates this parts :
  head parts ≠ Some "state" →
  path_missing (VObj (with_flags updates this)) parts = path_missing (VObj this) parts.
Proof.
  destruct parts as [|part rest]; [reflexivity|]. intros Hpart.
  cbn [path_missing]. simpl in Hpart.
  rewrite prop_with_flags by congruence. reflexivity.
Qed.

Lemma validateRequiredFields_flags_irrelevant fields updates w :
  Forall (λ field, head (split_dot field) ≠ Some "state") fields →
  fst (validateRequiredFields fields (set_this (with_flags updates (this_state w)) w))
    = fst (validateRequiredFields fields w).
Proof.
  intros Hfields. unfold validateRequiredFields. run.
  assert (E : List.filter
                (λ field, path_missing (VObj (with_flags updates (this_state w)))
                            (split_dot field)) fields
              = List.filter
                  (λ field, path_missing (VObj (this_state w)) (split_dot field)) fields).
  { induction Hfields as [|field fields Hfield _ IH]; simpl; [reflexivity|].
    rewrite (path_missing_with_flags _ _ _ Hfield), IH. reflexivity. }
  rewrite E. now destruct (0 <? _)%nat.
Qed.

Lemma validateRequiredFields_reads fields w :
  snd (validateRequiredFields fields w) = w.
Proof.
  unfold validateRequiredFields. run. now destruct (0 <? _)%nat.
Qed.

(** C2: a state whose [dataDAORegistered] flag is set while [dlpId] is
    missing is reported by [validateConfiguration] with the entry
    'Marked as registered but missing dlpId'; [validateConfiguration] leaves
    the world as it found it; and no method of the manager rejects or repairs
    such a state: the constructor loads it, every method that takes no data
    from its caller returns with the state still broken, the setters
    ([updateState], [updateDeployment], [markCompleted]) never throw and
    leave it broken unless the caller's own data overwrite the flag, the id
    or the [state] object, and the verdict of [validateRequiredFields] does
    not look at the flags.  The four methods that go through
    [this.state.errors] return in the same way where they can read it
    ([recordError] and [clearError] where it is an object, [recordError]
    for an error that is not [null] or [undefined]); otherwise they either
    return, the state as broken as it was, or throw a [TypeError] before
    they touch anything, as they always do where [errors] or the error is
    [null] or [undefined]; and which of the two does not depend on the flag
    or the id. *)
Theorem C2_invariant_reported_not_enforced (w : world) :
  registered_without_dlpId (this_state w) →
  (∃ issues,
     validateConfiguration w = (Returned issues, w) ∧
     "Marked as registered but missing dlpId" ∈ issues) ∧
  (∀ w0, snd (validateConfiguration w0) = w0) ∧
  (∀ w0 content,
     files w0 !! deploymentPath = Some content →
     parse content = Some (VObj (this_state w)) →
     ∃ s, loadState w0 = (Returned s, w0) ∧ registered_without_dlpId s) ∧
  (∀ newState, tolerates (saveState newState)) ∧
  (∀ step err,
     nullish err = false → tolerates_where errors_object (recordError step err)) ∧
  (∀ step err w0,
     nullish err = true
     ∨ ¬ errors_readable w0
     ∨ (step ≠ "__proto__" ∧ ¬ errors_object w0) →
     ∃ e, recordError step err w0 = (Thrown e, w0) ∧ name e = "TypeError") ∧
  (∀ step err w0,
     registered_without_dlpId (this_state w0) →
     registered_without_dlpId (this_state (snd (recordError step err w0))) ∧
     ((∃ a, fst (recordError step err w0) = Returned a) ∨
      (∃ e, recordError step err w0 = (Thrown e, w0) ∧ name e = "TypeError"))) ∧
  (∀ step, tolerates_where errors_object (clearError step)) ∧
  (∀ step w0,
     registered_without_dlpId (this_state w0) →
     registered_without_dlpId (this_state (snd (clearError step w0))) ∧
     ((∃ a, fst (clearError step w0) = Returned a) ∨
      (∃ e, clearError step w0 = (Thrown e, w0) ∧ name e = "TypeError"))) ∧
  tolerates_where errors_readable getRecoverySuggestions ∧
  tolerates_where errors_readable showRecoveryMenu ∧
  (∀ w0,
     ¬ errors_readable w0 →
     (∃ e, getRecoverySuggestions w0 = (Thrown e, w0) ∧ name e = "TypeError") ∧
     (∃ e, showRecoveryMenu w0 = (Thrown e, w0) ∧ name e = "TypeError") ∧
     (∀ step, ∃ e, clearError step w0 = (Thrown e, w0) ∧ name e = "TypeError")) ∧
  tolerates validateConfiguration ∧
  tolerates fixConfiguration ∧
  tolerates getState ∧
  (∀ step, tolerates (isCompleted step)) ∧
  tolerates syncStateFromData ∧
  tolerates showProgress ∧
  tolerates getNextIncompleteStep ∧
  (∀ updates w0, ∃ s, fst (updateState updates w0) = Returned s) ∧
  (∀ updates,
     updates !! "dataDAORegistered" = None → tolerates (updateState updates)) ∧
  (∀ updates w0, ∃ s, fst (updateDeployment updates w0) = Returned s) ∧
  (∀ updates,
     updates !! "dlpId" = None → updates !! "state" = None →
     tolerates (updateDeployment updates)) ∧
  (∀ step data w0, fst (markCompleted step data w0) = Returned tt) ∧
  (∀ step data,
     data !! "dlpId" = None → data !! "state" = None →
     tolerates (markCompleted step data)) ∧
  (∀ fields w0, snd (validateRequiredFields fields w0) = w0) ∧
  (∀ fields updates,
     Forall (λ field, head (split_dot field) ≠ Some "state") fields →
     fst (validateRequiredFields fields
            (set_this (with_flags updates (this_state w)) w))
       = fst (validateRequiredFields fields w)).
Proof.
  intros Hbroken. repeat match goal with |- _ ∧ _ => split end.
  - eexists. split; [reflexivity|].
    unfold validateConfiguration_of. destruct Hbroken as [Hflag Hid].
    unfold flag in Hflag. rewrite Hflag, Hid. simpl.
    rewrite !elem_of_app. do 3 right. apply list_elem_of_here.
  - reflexivity.
  - intros w0 content Hfile Hparse. exact (loadState_broken _ _ _ Hfile Hparse Hbroken).
  - apply tolerates_saveState.
  - apply tolerates_recordError.
  - intros step err w0 Hbad. apply recordError_throws.
    destruct Hbad as [Hbad|[Hbad|[Hstep Hbad]]]; [now left| |].
    + right. left. unfold errors_readable in Hbad. now apply not_false_is_true in Hbad.
    + right. right. split; [exact Hstep|].
      intros errs Herrs. apply Hbad. now exists errs.
  - intros step err w0 H0.
    destruct (recordError_cases step err w0) as [(s & Hrun & Hs)|(e & Hrun & He)].
    + rewrite Hrun. cbn [fst snd]. rewrite saved_this.
      split; [|left; now eexists].
      destruct Hs as [->| ->]; [exact H0 | now apply broken_with_error].
    + rewrite Hrun. split; [exact H0 | right; now exists e].
  - apply tolerates_clearError.
  - intros step w0 H0.
    destruct (clearError_cases step w0) as [(s & Hrun & Hs)|[Hrun|(e & Hrun & He)]].
    + rewrite Hrun. cbn [fst snd]. rewrite saved_this.
      split; [|left; now eexists].
      destruct Hs as [->| ->]; [exact H0 | now apply broken_without_error].
    + rewrite Hrun. split; [exact H0 | left; now eexists].
    + rewrite Hrun. split; [exact H0 | right; now exists e].
  - apply tolerates_getRecoverySuggestions.
  - apply tolerates_showRecoveryMenu.
  - intros w0 Hno. unfold errors_readable in Hno. apply not_false_is_true in Hno.
    split; [now apply getRecoverySuggestions_missing|].
    split; [now apply showRecoveryMenu_missing|].
    intros step. now apply clearError_missing.
  - apply tolerates_gets.
  - apply tolerates_fixConfiguration.
  - apply tolerates_gets.
  - intros step. apply tolerates_gets.
  - apply tolerates_syncStateFromData.
  - apply tolerates_showProgress.
  - apply tolerates_gets.
  - intros updates w0. rewrite updateState_run. now eexists.
  - intros updates Hu. apply tolerates_updateState. now rewrite Hu.
  - intros updates w0. rewrite updateDeployment_run. now eexists.
  - intros updates. apply tolerates_updateDeployment.
  - intros step data w0. rewrite markCompleted_run. cbv zeta.
    now destruct (0 <? size data)%nat.
  - intros step data. apply tolerates_markCompleted.
  - apply validateRequiredFields_reads.
  - intros fields updates. apply validateRequiredFields_flags_irrelevant.
Qed.

(** *** Further properties of the manager *)

(** X1: [loadState] fails without touching anything: on a missing file with the
    message that asks to run the steps in order, on text that is no JSON with
    a [SyntaxError], and on JSON that is no object with a [TypeError]. *)
Theorem loadState_failures (w : world) :
  (files w !! deploymentPath = None →
   loadState w =
     (Thrown (Error "Error" "deployment.json not found. Run deployment steps in order."),
      w)) ∧
  (∀ content,
     files w !! deploymentPath = Some content → parse content = None →
     ∃ e, loadState w = (Thrown e, w) ∧ name e = "SyntaxError") ∧
  (∀ content v,
     files w !! deploymentPath = Some content → parse content = Some v →
     (∀ o, v ≠ VObj o) →
     ∃ e, loadState w = (Thrown e, w) ∧ name e = "TypeError").
Proof.
  repeat split.
  - intros Hfile. unfold loadState. run. now rewrite Hfile.
  - intros content Hfile Hparse. unfold loadState.
    cbv [mbind M_bind mret M_ret gets modify throw existsSync readFileSync].
    rewrite Hfile. cbn -[prop]. rewrite Hfile, Hparse. now eexists.
  - intros content v Hfile Hparse Hprim. unfold loadState.
    cbv [mbind M_bind mret M_ret gets modify throw existsSync readFileSync].
    rewrite Hfile. cbn -[prop]. rewrite Hfile, Hparse.
    destruct v; try (now eexists). now destruct (Hprim o).
Qed.

(** The flags [loadState] gives a document that has no [state] yet. *)
Definition initial_flags (document : gmap string value) : gmap string value :=
  <["contractsDeployed" :=
      VBool (truthy (prop (VObj document) "tokenAddress")
             && truthy (prop (VObj document) "proxyAddress"))]>
  (<["dataDAORegistered" := VBool (truthy (prop (VObj document) "dlpId"))]>
  (<["proofConfigured" := VBool false]>
  (<["proofGitSetup" := VBool false]>
  (<["proofPublished" := VBool false]>
  (<["refinerConfigured" := VBool false]>
  (<["refinerGitSetup" := VBool false]>
  (<["refinerPublished" := VBool false]>
  (<["uiConfigured" := VBool false]> ∅)))))))).

(** X2: A document without [state] gets its flags from its data when it is
    loaded: [contractsDeployed] when both top-level addresses are there,
    [dataDAORegistered] when the dlpId is, every other flag false.  The
    document with these flags is written back at once (the text that was on
    disk goes to the backup); the empty [errors] map that the loaded state
    also gets is not part of what is written. *)
Theorem loadState_initialises_flags (w : world) (content : string)
    (document : gmap string value) :
  files w !! deploymentPath = Some content →
  parse content = Some (VObj document) →
  truthy (prop (VObj document) "state") = false →
  ∃ s w',
    loadState w = (Returned s, w') ∧
    s !! "state" = Some (VObj (initial_flags document)) ∧
    flag s "contractsDeployed" =
      VBool (truthy (prop (VObj document) "tokenAddress")
             && truthy (prop (VObj document) "proxyAddress")) ∧
    flag s "dataDAORegistered" = VBool (truthy (prop (VObj document) "dlpId")) ∧
    (∀ step, step ∈ ["proofConfigured"; "proofGitSetup"; "proofPublished";
                     "refinerConfigured"; "refinerGitSetup"; "refinerPublished";
                     "uiConfigured"] → flag s step = VBool false) ∧
    truthy (prop (VObj s) "errors") = true ∧
    (∀ k, k ≠ "state" → k ≠ "errors" → s !! k = document !! k) ∧
    files w' !! deploymentPath
      = Some (stringify (VObj (<["state" := VObj (initial_flags document)]> document))) ∧
    files w' !! backupPath = Some content ∧
    this_state w' = this_state w.
Proof.
  intros Hfile Hparse Hstate. unfold loadState.
  cbv [mbind M_bind mret M_ret gets modify throw existsSync readFileSync].
  rewrite Hfile. cbn -[prop]. rewrite Hfile, Hparse, Hstate. cbn -[prop].
  fold (initial_flags document).
  rewrite saveState_run. cbn -[prop initial_flags].
  set (saved_doc := <["state" := VObj (initial_flags document)]> document).
  set (s := if negb (truthy (prop (VObj saved_doc) "errors"))
            then <["errors" := VObj ∅]> saved_doc else saved_doc).
  assert (Hs_state : s !! "state" = Some (VObj (initial_flags document))).
  { unfold s. destruct (negb _).
    - rewrite lookup_insert_ne by discriminate. apply lookup_insert_eq.
    - apply lookup_insert_eq. }
  assert (Hflag : ∀ step, flag s step
                    = default VUndefined (initial_flags document !! step)).
  { intros step. unfold flag, prop at 2. rewrite Hs_state. reflexivity. }
  eexists s, _. split; [reflexivity|]. split; [exact Hs_state|].
  split; [rewrite Hflag; reflexivity|]. split; [rewrite Hflag; reflexivity|].
  split.
  { intros step Hin. rewrite Hflag.
    repeat (apply elem_of_cons in Hin as [-> | Hin]; [reflexivity|]).
    now apply elem_of_nil in Hin. }
  split.
  { unfold s. destruct (truthy (prop (VObj saved_doc) "errors")) eqn:E; simpl.
    - exact E.
    - unfold prop. now rewrite lookup_insert_eq. }
  split.
  { intros k Hk1 Hk2. unfold s, saved_doc.
    destruct (negb _); now rewrite !lookup_insert_ne by congruence. }
  split; [|split; [|reflexivity]].
  - unfold save_files. simpl. apply lookup_insert_eq.
  - unfold save_files. simpl. rewrite Hfile.
    rewrite lookup_insert_ne by (intros E; symmetry in E; now apply backupPath_ne in E).
    apply lookup_insert_eq.
Qed.

(** X3: Whenever the constructor returns, [this.state.state] and
    [this.state.errors] are truthy: the methods can read and assign their
    properties. *)
Theorem constructor_establishes_state_and_errors (w w' : world) :
  constructor w = (Returned tt, w') →
  truthy (prop (VObj (this_state w')) "state") = true ∧
  truthy (prop (VObj (this_state w')) "errors") = true.
Proof.
  unfold constructor, loadState.
  cbv [mbind M_bind mret M_ret gets modify throw existsSync readFileSync].
  destruct (files w !! deploymentPath) as [content|] eqn:Hfile; cbn -[prop];
    [|discriminate].
  rewrite ?Hfile. destruct (parse content) as [[| | | | |document]|]; try discriminate.
  destruct (truthy (prop (VObj document) "state")) eqn:Hstate; cbn -[prop].
  - destruct (truthy (prop (VObj document) "errors")) eqn:Herr; cbn -[prop];
      intros [= <-]; simpl.
    + split; assumption.
    + split.
      * unfold prop in *. now rewrite lookup_insert_ne by discriminate.
      * unfold prop. now rewrite lookup_insert_eq.
  - rewrite saveState_run. cbn -[prop].
    match goal with
    | |- context [<["state" := VObj ?f]> document] =>
        set (saved_doc := <["state" := VObj f]> document)
    end.
    destruct (truthy (prop (VObj saved_doc) "errors")) eqn:Herr; cbn -[prop];
      intros [= <-]; simpl.
    + split; [|exact Herr]. unfold saved_doc. now rewrite lookup_insert_eq.
    + split.
      * rewrite lookup_insert_ne by discriminate. unfold saved_doc.
        now rewrite lookup_insert_eq.
      * now rewrite lookup_insert_eq.
Qed.

(** [Array.prototype.find] returns the first element that passes. *)
Lemma find_first {A} (p : A → bool) (xs : list A) (x : A) :
  List.find p xs = Some x →
  ∃ before after,
    xs = before ++ x :: after ∧ p x = true ∧ ∀ y, y ∈ before → p y = false.
Proof.
  induction xs as [|y xs IH]; simpl; [discriminate|].
  destruct (p y) eqn:Hy.
  - intros [= ->]. exists [], xs. repeat split; [exact Hy|].
    intros z Hz. now apply elem_of_nil in Hz.
  - intros Hfind. destruct (IH Hfind) as (before & after & -> & Hx & Hbefore).
    exists (y :: before), after. repeat split; [exact Hx|].
    intros z Hz. apply elem_of_cons in Hz as [->|Hz]; [exact Hy | now apply Hbefore].
Qed.

Lemma find_none_all {A} (p : A → bool) (xs : list A) :
  List.find p xs = None ↔ ∀ y, y ∈ xs → p y = false.
Proof.
  induction xs as [|y xs IH]; simpl.
  - split; [|reflexivity]. intros _ z Hz. now apply elem_of_nil in Hz.
  - destruct (p y) eqn:Hy.
    + split; [discriminate|]. intros Hall.
      rewrite (Hall y) in Hy by apply list_elem_of_here. discriminate.
    + rewrite IH. split.
      * intros Hall z Hz. apply elem_of_cons in Hz as [->|Hz]; [exact Hy | now apply Hall].
      * intros Hall z Hz. apply Hall. now right.
Qed.


(** The steps of [getNextIncompleteStep()], in its order. *)
Definition steps_in_order : list string :=
  ["contractsDeployed"; "dataDAORegistered"; "proofConfigured";
   "refinerConfigured"; "uiConfigured"].

Lemma Returned_inj {A} (a b : A) : Returned a = Returned b → a = b.
Proof. now intros [=]. Qed.

Lemma getNextIncompleteStep_run w :
  fst (getNextIncompleteStep w) =
    Returned (List.find (λ step, negb (truthy (isCompleted_of (this_state w) step)))
                steps_in_order).
Proof. reflexivity. Qed.

Lemma getNextIncompleteStep_found w step :
  fst (getNextIncompleteStep w) = Returned (Some step) →
  ∃ before after,
    steps_in_order = before ++ step :: after ∧
    truthy (isCompleted_of (this_state w) step) = false ∧
    ∀ earlier, earlier ∈ before →
      truthy (isCompleted_of (this_state w) earlier) = true.
Proof.
  rewrite getNextIncompleteStep_run. intros Hfind. apply Returned_inj in Hfind.
  destruct (find_first _ _ _ Hfind) as (before & after & Heq & Hstep & Hbefore).
  exists before, after. split; [exact Heq|]. split.
  - now apply negb_true_iff in Hstep.
  - intros earlier Hin. apply Hbefore in Hin. now apply negb_false_iff in Hin.
Qed.

(** X4: On a manager whose [state] is set, as the constructor leaves it,
    [getNextIncompleteStep()] returns [null] exactly when the five steps it
    knows are complete, and otherwise the first of them, in deployment order,
    that [isCompleted] does not accept: every step before it is complete.
    It never names another step, so neither of the two publishing steps. *)
Theorem getNextIncompleteStep_first_incomplete (w : world) :
  truthy (prop (VObj (this_state w)) "state") = true →
  snd (getNextIncompleteStep w) = w ∧
  (fst (getNextIncompleteStep w) = Returned None ↔
     ∀ step, step ∈ steps_in_order →
       truthy (isCompleted_of (this_state w) step) = true) ∧
  (∀ step,
     fst (getNextIncompleteStep w) = Returned (Some step) →
     ∃ before after,
       steps_in_order = before ++ step :: after ∧
       truthy (isCompleted_of (this_state w) step) = false ∧
       ∀ earlier, earlier ∈ before →
         truthy (isCompleted_of (this_state w) earlier) = true).
Proof.
  intros _. split; [reflexivity|]. rewrite getNextIncompleteStep_run. split.
  - split.
    + intros Hnone step Hin. apply Returned_inj in Hnone.
      apply (proj1 (find_none_all _ _)) with (y := step) in Hnone; [|exact Hin].
      now apply negb_false_iff in Hnone.
    + intros Hall. f_equal. apply find_none_all. intros step Hin.
      apply negb_false_iff. now apply Hall.
  - intros step Hfind. rewrite <- getNextIncompleteStep_run in Hfind.
    now apply getNextIncompleteStep_found.
Qed.





(** The keys [fixConfiguration()] can write. *)
Definition credential_keys : list string :=
  ["pinataApiKey"; "pinataApiSecret"; "googleClientId"; "googleClientSecret"].

(** [m] writes no key of [this.state] but the credentials. *)
Definition only_credentials {A} (m : M world A) : Prop :=
  ∀ w k, k ∉ credential_keys → this_state (snd (m w)) !! k = this_state w !! k.

Lemma only_credentials_ret {A} (a : A) : only_credentials (mret a).
Proof. now intros w k _. Qed.

Lemma only_credentials_bind {A B} (m : M world A) (f : A → M world B) :
  only_credentials m → (∀ a, only_credentials (f a)) → only_credentials (m ≫= f).
Proof.
  intros Hm Hf w k Hk. specialize (Hm w k Hk).
  unfold mbind, M_bind. destruct (m w) as [[a|e|c] w1]; simpl in *; try exact Hm.
  now rewrite (Hf a w1 k Hk).
Qed.

Lemma only_credentials_prompt : only_credentials prompt.
Proof. intros w k _. unfold prompt. now destruct (answers w). Qed.

Lemma only_credentials_updateDeployment updates :
  (∀ k, k ∉ credential_keys → updates !! k = None) →
  only_credentials (updateDeployment updates).
Proof.
  intros Hupdates w k Hk. rewrite updateDeployment_run. simpl.
  now rewrite lookup_union_r by auto.
Qed.

Lemma only_credentials_for_each {A} (f : A → M world unit) xs :
  (∀ x, only_credentials (f x)) → only_credentials (for_each f xs).
Proof.
  intros Hf. induction xs as [|x xs IH]; simpl.
  - apply only_credentials_ret.
  - apply only_credentials_bind; [apply Hf | intros _; exact IH].
Qed.

Lemma only_credentials_fix_issue issue : only_credentials (fix_issue issue).
Proof.
  assert (Hlog : ∀ line, only_credentials (console_log line)) by now intros line w k _.
  unfold fix_issue. apply only_credentials_bind.
  - destruct (includes "Pinata" issue); [|apply only_credentials_ret].
    apply only_credentials_bind; [apply only_credentials_prompt|]. intros a.
    apply only_credentials_bind; [|intros _; apply Hlog].
    apply only_credentials_updateDeployment. intros k Hk.
    unfold credential_keys in Hk. rewrite !not_elem_of_cons in Hk.
    rewrite !lookup_insert_ne by (intros <-; tauto). apply lookup_empty.
  - intros _. destruct (includes "Google OAuth" issue); [|apply only_credentials_ret].
    apply only_credentials_bind; [apply only_credentials_prompt|]. intros a.
    apply only_credentials_bind; [|intros _; apply Hlog].
    apply only_credentials_updateDeployment. intros k Hk.
    unfold credential_keys in Hk. rewrite !not_elem_of_cons in Hk.
    rewrite !lookup_insert_ne by (intros <-; tauto). apply lookup_empty.
Qed.

Lemma only_credentials_fixConfiguration : only_credentials fixConfiguration.
Proof.
  assert (Hlog : ∀ line, only_credentials (console_log line)) by now intros line w k _.
  assert (Hlogs : ∀ ls, only_credentials (log_lines ls)) by now intros ls w k _.
  unfold fixConfiguration. apply only_credentials_bind; [now intros w k _|].
  intros issues. destruct (length issues =? 0)%nat; [apply Hlog|].
  apply only_credentials_bind; [apply Hlog|]. intros _.
  apply only_credentials_bind; [apply Hlogs|]. intros _.
  apply only_credentials_bind; [apply Hlog|]. intros _.
  apply only_credentials_bind; [apply only_credentials_prompt|]. intros a.
  destruct (negb _); [apply only_credentials_ret|].
  apply only_credentials_for_each, only_credentials_fix_issue.
Qed.

(** The issues of [validateConfiguration()] that do not depend on the
    credentials are the same for two documents that agree outside them. *)
Lemma issue_persists (this this' : gmap string value) (issue : string) :
  (∀ k, k ∉ credential_keys → this' !! k = this !! k) →
  issue ∈ validateConfiguration_of this →
  includes "Pinata" issue = false →
  includes "Google OAuth" issue = false →
  issue ∈ validateConfiguration_of this'.
Proof.
  intros Hsame Hin Hpinata Hgoogle.
  assert (Hprop : ∀ k, k ∉ credential_keys → prop (VObj this') k = prop (VObj this) k).
  { intros k Hk. unfold prop. now rewrite Hsame. }
  assert (Hkeys : Forall (λ k, k ∉ credential_keys)
            ["dlpName"; "tokenName"; "tokenSymbol"; "privateKey"; "address";
             "state"; "dlpId"; "tokenAddress"; "proxyAddress"; "contracts"]).
  { repeat constructor; unfold credential_keys; rewrite !not_elem_of_cons;
      repeat split; try discriminate; apply not_elem_of_nil. }
  rewrite Forall_forall in Hkeys.
  unfold validateConfiguration_of in *.
  rewrite !elem_of_app in Hin. rewrite !elem_of_app.
  destruct Hin as [Hin|[Hin|[Hin|[Hin|Hin]]]].
  - left. apply list_elem_of_fmap in Hin as (field & -> & Hin).
    apply list_elem_of_fmap. exists field. split; [reflexivity|].
    apply list_elem_of_filter in Hin as [Hfalsy Hfield].
    apply list_elem_of_filter. split; [|exact Hfield].
    rewrite Hprop; [exact Hfalsy|]. apply Hkeys.
    apply list_elem_of_In. apply list_elem_of_In in Hfield.
    simpl in Hfield. simpl. tauto.
  - destruct (_ || _); [|now apply elem_of_nil in Hin].
    apply list_elem_of_singleton in Hin as ->. discriminate.
  - destruct (_ || _); [|now apply elem_of_nil in Hin].
    apply list_elem_of_singleton in Hin as ->. discriminate.
  - do 3 right. left.
    rewrite (Hprop "state"), (Hprop "dlpId")
      by (apply Hkeys, list_elem_of_In; simpl; tauto).
    exact Hin.
  - do 4 right.
    rewrite (Hprop "state"), (Hprop "tokenAddress"), (Hprop "proxyAddress"),
      (Hprop "contracts") by (apply Hkeys, list_elem_of_In; simpl; tauto).
    exact Hin.
Qed.

(** X8: [fixConfiguration()], on a manager whose [state] is set, repairs
    credentials and nothing else.  Whatever the
    operator answers, it writes no key of the document but the four
    credentials, so every other issue (a missing name, symbol, key or
    address, a flag without its data) is reported again afterwards.  With no
    issue it prints one line and asks nothing; when the operator declines,
    the document and the files are left as they were. *)
Theorem fixConfiguration_only_credentials (w : world) :
  truthy (prop (VObj (this_state w)) "state") = true →
  let w' := snd (fixConfiguration w) in
  (∀ k, k ∉ credential_keys → this_state w' !! k = this_state w !! k) ∧
  (∀ issue,
     issue ∈ validateConfiguration_of (this_state w) →
     includes "Pinata" issue = false →
     includes "Google OAuth" issue = false →
     issue ∈ validateConfiguration_of (this_state w')) ∧
  (validateConfiguration_of (this_state w) = [] →
   fixConfiguration w =
     (Returned tt, set_console (console w ++ ["✅ Configuration looks good!"]) w)) ∧
  (∀ a rest,
     validateConfiguration_of (this_state w) ≠ [] →
     answers w = a :: rest →
     truthy (prop (VObj a) "shouldFix") = false →
     fst (fixConfiguration w) = Returned tt ∧
     this_state w' = this_state w ∧ files w' = files w ∧ answers w' = rest).
Proof.
  intros _ w'. subst w'. split; [|split; [|split]].
  - intros k Hk. now apply only_credentials_fixConfiguration.
  - intros issue Hin Hpinata Hgoogle.
    apply (issue_persists (this_state w)); try assumption.
    intros k Hk. now apply only_credentials_fixConfiguration.
  - intros Hnone. unfold fixConfiguration, validateConfiguration.
    cbv [mbind M_bind mret M_ret gets modify console_log]. now rewrite Hnone.
  - intros a rest Hsome Hanswers Hdecline.
    unfold fixConfiguration, validateConfiguration.
    cbv [mbind M_bind mret M_ret gets modify console_log log_lines prompt].
    destruct (validateConfiguration_of (this_state w)) as [|issue issues];
      [congruence|].
    cbn [length Nat.eqb set_console answers this_state files console].
    rewrite Hanswers, Hdecline. cbn. auto.
Qed.

(** X9: On a manager whose [errors] is an object, [clearError(step)] does
    nothing at all where [errors[step]] is falsy, that is, for a step that
    has no truthy entry of its own and whose name [Object.prototype] does not
    have: the document is not saved again and the backup is not replaced.
    For every name that is not one of [Object.prototype], clearing twice is
    clearing once.  For a name of [Object.prototype] that has no entry of its
    own, the test succeeds on the inherited property, so every call saves the
    unchanged document again and replaces the backup. *)
Theorem clearError_idempotent (w : world) (step : string) (errs : gmap string value) :
  this_state w !! "errors" = Some (VObj errs) →
  (member_truthy errs step = false → clearError step w = (Returned tt, w)) ∧
  (step ∉ object_prototype_names →
   clearError step (snd (clearError step w))
     = (Returned tt, snd (clearError step w))) ∧
  (step ∈ object_prototype_names → errs !! step = None →
   clearError step w = (Returned tt, saved (this_state w) w) ∧
   ∀ content, files w !! deploymentPath = Some content →
     files (snd (clearError step w)) !! backupPath = Some content).
Proof.
  intros Herrs. split; [|split].
  - intros Habsent. now rewrite (clearError_run _ _ _ Herrs), Habsent.
  - intros Hplain. rewrite (clearError_run step _ w Herrs).
    destruct (member_truthy errs step) eqn:Hthere; cbn [snd].
    + assert (Herrs' : this_state (saved (without_error step (this_state w)) w)
                         !! "errors" = Some (VObj (delete step errs))).
      { rewrite saved_this. unfold without_error. rewrite lookup_insert_eq.
        now rewrite (prop_errors _ _ Herrs). }
      rewrite (clearError_run _ _ _ Herrs'). unfold member_truthy.
      rewrite lookup_delete_eq. now rewrite bool_decide_eq_false_2.
    + now rewrite (clearError_run _ _ _ Herrs), Hthere.
  - intros Hproto Hnone.
    assert (Hrun : clearError step w = (Returned tt, saved (this_state w) w)).
    { rewrite (clearError_run _ _ _ Herrs). unfold member_truthy. rewrite Hnone.
      rewrite bool_decide_eq_true_2 by exact Hproto.
      unfold without_error. rewrite (prop_errors _ _ Herrs). cbn [entries].
      rewrite delete_id by exact Hnone. now rewrite insert_id. }
    split; [exact Hrun|]. intros content Hfile. rewrite Hrun. cbn [snd].
    now apply saved_backup.
Qed.

(** X10: On a manager whose [errors] is an object, recovery suggestions exist
    for the five steps of the deployment order
    and for no other: the list is empty exactly when none of the five has an
    error recorded, an error recorded for any other step changes nothing,
    and one recorded for one of the five always yields a suggestion (an
    error, that is, not [null] or [undefined], for which [recordError]
    throws and records nothing).  With
    an empty list [showRecoveryMenu()] prints its two lines and resolves to
    [undefined] without asking the operator. *)
Theorem recovery_suggestions_known_steps (w : world) :
  (∃ errs, this_state w !! "errors" = Some (VObj errs)) →
  (fst (getRecoverySuggestions w) = Returned [] ↔
     ∀ step, step ∈ steps_in_order →
       truthy (prop (prop (VObj (this_state w)) "errors") step) = false) ∧
  (∀ step err, nullish err = false → step ∉ steps_in_order →
     fst (getRecoverySuggestions (snd (recordError step err w)))
       = fst (getRecoverySuggestions w)) ∧
  (∀ step err, nullish err = false → step ∈ steps_in_order →
     ∃ suggestion suggestions,
       fst (getRecoverySuggestions (snd (recordError step err w)))
         = Returned (suggestion :: suggestions)) ∧
  (∀ step err, nullish err = true → snd (recordError step err w) = w) ∧
  (fst (getRecoverySuggestions w) = Returned [] →
   showRecoveryMenu w =
     (Returned VUndefined,
      set_console
        (console w ++ ["ℹ️  No critical errors detected in completed steps.";
                       "Note: This only checks for errors, not incomplete steps."])
        w)).
Proof.
  intros [errs Herrs].
  assert (Hempty : ∀ this, getRecoverySuggestions_of this = [] ↔
            ∀ step, step ∈ steps_in_order →
              truthy (prop (prop (VObj this) "errors") step) = false).
  { intros this. unfold getRecoverySuggestions_of, steps_in_order. split.
    - intros Hnil step Hin.
      destruct (truthy (prop _ "contractsDeployed")) eqn:E1; [discriminate Hnil|].
      destruct (truthy (prop _ "dataDAORegistered")) eqn:E2; [discriminate Hnil|].
      destruct (truthy (prop _ "proofConfigured")) eqn:E3; [discriminate Hnil|].
      destruct (truthy (prop _ "refinerConfigured")) eqn:E4; [discriminate Hnil|].
      destruct (truthy (prop _ "uiConfigured")) eqn:E5; [discriminate Hnil|].
      rewrite !elem_of_cons in Hin.
      destruct Hin as [->|[->|[->|[->|[->|Hin]]]]]; try assumption.
      now apply elem_of_nil in Hin.
    - intros Hall.
      rewrite !Hall by (rewrite !elem_of_cons; tauto). reflexivity. }
  assert (Hread : nullish (prop (VObj (this_state w)) "errors") = false)
    by now rewrite (prop_errors _ _ Herrs).
  assert (Hrecorded : ∀ step err, nullish err = false →
            ∃ s, recordError step err w = (Returned tt, saved s w) ∧
                 nullish (prop (VObj s) "errors") = false ∧
                 ∀ k, k ∈ steps_in_order →
                   prop (prop (VObj s) "errors") k
                     = if decide (k = step) then error_entry (clock w) err
                       else prop (prop (VObj (this_state w)) "errors") k).
  { intros step err Herr.
    destruct (decide (step = "__proto__" ∧ errs !! step = None)) as [[-> Hnone]|Hown].
    - exists (this_state w). split; [now apply (recordError_proto _ errs)|].
      split; [exact Hread|]. intros k Hk.
      destruct (decide (k = "__proto__")) as [->|Hne]; [|reflexivity].
      unfold steps_in_order in Hk. rewrite !elem_of_cons in Hk.
      destruct Hk as [Hk|[Hk|[Hk|[Hk|[Hk|Hk]]]]]; try discriminate.
      now apply elem_of_nil in Hk.
    - eexists. split.
      + apply (recordError_run _ _ errs); [exact Herr | exact Herrs|].
        destruct (decide (step = "__proto__")) as [->|Hne]; [|now left].
        right. destruct (errs !! "__proto__") eqn:Hentry; [now eexists|].
        destruct Hown. now split.
      + rewrite (prop_errors_with_error _ _ _ _ Herrs).
        split; [reflexivity|]. intros k Hk. rewrite (prop_errors _ _ Herrs).
        unfold prop. destruct (decide (k = step)) as [->|Hne].
        * now rewrite lookup_insert_eq.
        * now rewrite lookup_insert_ne by congruence. }
  split; [|split; [|split; [|split]]].
  - rewrite (getRecoverySuggestions_run _ Hread). cbn [fst]. split.
    + intros Hnil. apply Returned_inj in Hnil. now apply Hempty.
    + intros Hall. f_equal. now apply Hempty.
  - intros step err Herr Hout.
    destruct (Hrecorded step err Herr) as (s & -> & Hread' & Hprop). cbn [snd].
    rewrite (getRecoverySuggestions_run w Hread).
    rewrite getRecoverySuggestions_run by (now rewrite saved_this).
    cbn [fst]. f_equal. rewrite saved_this. unfold getRecoverySuggestions_of.
    unfold steps_in_order in Hout, Hprop. rewrite !not_elem_of_cons in Hout.
    rewrite !Hprop by (rewrite !elem_of_cons; tauto).
    repeat match goal with
           | |- context [decide (?k = step)] =>
               destruct (decide (k = step)); [exfalso; intuition congruence|]
           end.
    reflexivity.
  - intros step err Herr Hin.
    destruct (Hrecorded step err Herr) as (s & -> & Hread' & Hprop). cbn [snd].
    rewrite getRecoverySuggestions_run by (now rewrite saved_this).
    cbn [fst]. rewrite saved_this.
    destruct (getRecoverySuggestions_of s) as [|suggestion suggestions] eqn:Hlist;
      [|now eexists _, _].
    apply (proj1 (Hempty _)) with (step := step) in Hlist; [|exact Hin].
    rewrite (Hprop step Hin) in Hlist. now destruct (decide (step = step)).
  - intros step err Herr.
    destruct (recordError_throws step err w (or_introl Herr)) as (e & -> & _).
    reflexivity.
  - intros Hnil. rewrite (getRecoverySuggestions_run _ Hread) in Hnil. cbn [fst] in Hnil.
    apply Returned_inj in Hnil. unfold showRecoveryMenu, mbind, M_bind.
    rewrite (getRecoverySuggestions_run _ Hread), Hnil.
    cbv [mbind M_bind mret M_ret gets modify log_lines]. cbn. reflexivity.
Qed.

Lemma string_app_assoc (a b c : string) : (a +:+ b) +:+ c = a +:+ (b +:+ c).
Proof.
  induction a as [|x a IH]; [reflexivity|].
  change (String x ((a +:+ b) +:+ c) = String x (a +:+ (b +:+ c))).
  now rewrite IH.
Qed.

Lemma string_app_nil_r (a : string) : a +:+ EmptyString = a.
Proof.
  induction a as [|x a IH]; [reflexivity|].
  change (String x (a +:+ EmptyString) = String x a). now rewrite IH.
Qed.

Lemma split_dot_acc_cons cur s : ∃ part parts, split_dot_acc cur s = part :: parts.
Proof.
  revert cur. induction s as [|c s IH]; intros cur; simpl; [now eexists _, _|].
  destruct (Ascii.eqb c "."); [now eexists _, _ | apply IH].
Qed.

Lemma join_split_dot_acc cur s : join "." (split_dot_acc cur s) = cur +:+ s.
Proof.
  revert cur. induction s as [|c s IH]; intros cur; simpl.
  - now rewrite string_app_nil_r.
  - destruct (Ascii.eqb c ".") eqn:Hc.
    + apply Ascii.eqb_eq in Hc as ->.
      destruct (split_dot_acc_cons EmptyString s) as (part & parts & Hparts).
      assert (Hrest := IH EmptyString). rewrite Hparts in Hrest |- *.
      change (cur +:+ "." +:+ join "." (part :: parts) = cur +:+ String "." s).
      now rewrite Hrest.
    + rewrite IH. now rewrite string_app_assoc.
Qed.

Lemma includes_dot_cons c s :
  includes "." (String c s) = Ascii.eqb c "." || includes "." s.
Proof.
  change (includes "." (String c s))
    with ((if ascii_dec "." c then String.prefix EmptyString s else false)
          || includes "." s).
  destruct (ascii_dec "." c) as [<-|Hne].
  - now destruct s.
  - assert (Ascii.eqb c "." = false) as -> by (apply Ascii.eqb_neq; congruence).
    reflexivity.
Qed.

Lemma includes_dot_app a b :
  includes "." a = false → includes "." b = false → includes "." (a +:+ b) = false.
Proof.
  intros Ha Hb. induction a as [|x a IH]; [exact Hb|].
  change (String x a +:+ b) with (String x (a +:+ b)).
  rewrite includes_dot_cons in Ha |- *.
  apply orb_false_iff in Ha as [-> Ha]. now apply IH.
Qed.

Lemma split_dot_acc_no_dot cur s :
  includes "." s = false → split_dot_acc cur s = [cur +:+ s].
Proof.
  revert cur. induction s as [|c s IH]; intros cur Hs.
  - simpl. now rewrite string_app_nil_r.
  - rewrite includes_dot_cons in Hs. apply orb_false_iff in Hs as [Hc Hs].
    cbn [split_dot_acc]. rewrite Hc, (IH _ Hs). now rewrite string_app_assoc.
Qed.

Lemma split_dot_acc_parts cur s part :
  includes "." cur = false →
  part ∈ split_dot_acc cur s → includes "." part = false.
Proof.
  revert cur. induction s as [|c s IH]; intros cur Hcur; cbn [split_dot_acc].
  - intros Hin. now apply list_elem_of_singleton in Hin as ->.
  - destruct (Ascii.eqb c ".") eqn:Hc.
    + intros Hin. apply elem_of_cons in Hin as [->|Hin]; [exact Hcur|].
      now apply (IH EmptyString).
    + apply IH. apply includes_dot_app; [exact Hcur|].
      rewrite includes_dot_cons, Hc. reflexivity.
Qed.

(** X11: [field.split('.')] as [validateRequiredFields] uses it: joining the
    parts with a dot gives the field back, no part holds a dot, there is
    always at least one part, and a field without a dot is its own only
    part. *)
Theorem split_dot_round_trip (field : string) :
  join "." (split_dot field) = field ∧
  (∀ part, part ∈ split_dot field → includes "." part = false) ∧
  split_dot field ≠ [] ∧
  (includes "." field = false → split_dot field = [field]).
Proof.
  unfold split_dot. split; [|split; [|split]].
  - apply join_split_dot_acc.
  - intros part. now apply split_dot_acc_parts.
  - now destruct (split_dot_acc_cons EmptyString field) as (? & ? & ->).
  - apply split_dot_acc_no_dot.
Qed.


(** X13: After [updateDeployment(updates)], [validateRequiredFields] accepts every
    top-level field to which the updates gave a truthy value. *)
Theorem validateRequiredFields_after_updateDeployment (w : world)
    (updates : gmap string value) (fields : list string) :
  (∀ field, field ∈ fields →
     includes "." field = false ∧
     ∃ v, updates !! field = Some v ∧ truthy v = true) →
  let w' := snd (updateDeployment updates w) in
  validateRequiredFields fields w' = (Returned tt, w').
Proof.
  intros Hfields w'. subst w'. rewrite updateDeployment_run. cbn [snd].
  unfold validateRequiredFields. cbv [mbind M_bind mret M_ret gets throw].
  rewrite saved_this.
  assert (Hnone : List.filter
            (λ field, path_missing (VObj (updates ∪ this_state w)) (split_dot field))
            fields = []).
  { induction fields as [|field fields IH]; [reflexivity|]. simpl.
    destruct (Hfields field) as (Hdot & v & Hv & Htruthy); [apply list_elem_of_here|].
    unfold split_dot. rewrite (split_dot_acc_no_dot _ _ Hdot).
    change (EmptyString +:+ field) with field. cbn [path_missing truthy negb orb].
    assert (Hprop : prop (VObj (updates ∪ this_state w)) field = v).
    { unfold prop. now rewrite (lookup_union_l' _ _ _ (mk_is_Some _ _ Hv)), Hv. }
    rewrite Hprop, Htruthy. cbn [negb]. apply IH.
    intros f Hf. apply Hfields. now right. }
  now rewrite Hnone.
Qed.

End Manager.

(** A concrete manager: the file exists and holds the text [{}]. *)
Definition demo_stringify (v : value) : string :=
  match v with
  | VObj o => "{" +:+ join "," (fst <$> map_to_list o) +:+ "}"
  | _ => "null"
  end.

Definition demo_world : world :=
  World ∅ {[ "deployment.json" := "{}" ]} 0 [] [].

(** An engine for the concrete runs: none of the keys asked for is a member
    of a primitive. *)
Definition demo_member (p : value) (k : string) : member := Missing.

Definition demo_toISOString (t : Z) : string := "1970-01-01T00:00:00.000Z".

(** An error as a script hands it to [recordError]. *)
Definition demo_error : value :=
  VObj (<["message" := VStr "insufficient funds"]>
       (<["stack" := VStr "Error: insufficient funds"]> ∅)).

(** A manager whose [errors] is in place, on a disk that holds the text
    [{}]. *)
Definition tracked_world : world :=
  World {[ "errors" := VObj ∅ ]} {[ "deployment.json" := "{}" ]} 0 [] [].

Lemma C8_witness :
  files tracked_world !! "deployment.json" = Some "{}" ∧
  fst (recordError demo_stringify demo_toISOString "deployment.json" "uiConfigured"
         demo_error tracked_world) = Returned tt ∧
  files (snd (recordError demo_stringify demo_toISOString "deployment.json"
                "uiConfigured" demo_error tracked_world))
    !! backupPath "deployment.json" = Some "{}" ∧
  ∃ e, recordError demo_stringify demo_toISOString "deployment.json" "uiConfigured"
         VNull tracked_world = (Thrown e, tracked_world) ∧ name e = "TypeError".
Proof.
  assert (H : files tracked_world !! "deployment.json" = Some "{}") by reflexivity.
  split; [exact H|].
  destruct (C8_backup_holds_previous_snapshot demo_stringify demo_toISOString
              "deployment.json" demo_member tracked_world "{}" H)
    as (_ & _ & _ & Hrecord & Hthrows & _).
  destruct (Hrecord "uiConfigured" demo_error ∅ eq_refl eq_refl)
    as (Hreturned & Hbackup & _).
  split; [exact Hreturned|]. split; [exact Hbackup|].
  exact (Hthrows "uiConfigured" VNull (or_introl eq_refl)).
Defined.

(** A manager whose state is marked as registered and has no dlpId. *)
Definition broken_world : world :=
  World (<["state" := VObj {[ "dataDAORegistered" := VBool true ]}]>
           {[ "errors" := VObj ∅ ]})
        {[ "deployment.json" := "{}" ]} 0 [] [].

Lemma C2_witness :
  registered_without_dlpId (this_state broken_world) ∧
  (∃ issues,
     validateConfiguration broken_world = (Returned issues, broken_world) ∧
     "Marked as registered but missing dlpId" ∈ issues) ∧
  registered_without_dlpId
    (this_state (snd (recordError demo_stringify demo_toISOString "deployment.json"
                        "dataDAORegistered" demo_error broken_world))).
Proof.
  assert (H : registered_without_dlpId (this_state broken_world))
    by (split; reflexivity).
  split; [exact H|].
  destruct (C2_invariant_reported_not_enforced demo_stringify (λ _, None)
              demo_toISOString "deployment.json" demo_member
              broken_world H) as (Hreported & _ & _ & _ & Hrecord & _).
  split; [exact Hreported|].
  assert (Hobject : errors_object broken_world) by (exists ∅; reflexivity).
  destruct (Hrecord "dataDAORegistered" demo_error eq_refl broken_world H Hobject)
    as (Hstill & _).
  exact Hstill.
Defined.








(** A parser for the concrete runs: every text is the empty object. *)
Definition demo_parse (text : string) : option value := Some (VObj ∅).

Lemma loadState_initialises_flags_witness :
  ∃ s w',
    loadState demo_stringify demo_parse "deployment.json" demo_world
      = (Returned s, w') ∧
    flag s "contractsDeployed" = VBool false ∧
    files w' !! backupPath "deployment.json" = Some "{}".
Proof.
  assert (H1 : files demo_world !! "deployment.json" = Some "{}") by reflexivity.
  assert (H2 : demo_parse "{}" = Some (VObj ∅)) by reflexivity.
  assert (H3 : truthy (prop (VObj ∅) "state") = false) by reflexivity.
  destruct (loadState_initialises_flags demo_stringify demo_parse "deployment.json"
              demo_world "{}" ∅ H1 H2 H3)
    as (s & w' & Hrun & _ & Hflag & _ & _ & _ & _ & _ & Hbackup & _).
  exists s, w'. split; [exact Hrun|]. split; [exact Hflag | exact Hbackup].
Defined.

(** A manager after its constructor ran on the empty document. *)
Definition constructed_world : world :=
  snd (constructor demo_stringify demo_parse "deployment.json" demo_world).

Lemma constructor_establishes_state_and_errors_witness :
  truthy (prop (VObj (this_state constructed_world)) "state") = true ∧
  truthy (prop (VObj (this_state constructed_world)) "errors") = true.
Proof.
  assert (H : constructor demo_stringify demo_parse "deployment.json" demo_world
              = (Returned tt, constructed_world)) by (vm_compute; reflexivity).
  exact (constructor_establishes_state_and_errors demo_stringify demo_parse
           "deployment.json" demo_world constructed_world H).
Defined.



Lemma getNextIncompleteStep_first_incomplete_witness :
  snd (getNextIncompleteStep constructed_world) = constructed_world.
Proof.
  assert (H0 : truthy (prop (VObj (this_state constructed_world)) "state") = true)
    by (vm_compute; reflexivity).
  destruct (getNextIncompleteStep_first_incomplete constructed_world H0) as (Hsame & _).
  exact Hsame.
Defined.



Lemma fixConfiguration_only_credentials_witness :
  this_state (snd (fixConfiguration demo_stringify "deployment.json" constructed_world))
    !! "state"
  = this_state constructed_world !! "state".
Proof.
  assert (H0 : truthy (prop (VObj (this_state constructed_world)) "state") = true)
    by (vm_compute; reflexivity).
  destruct (fixConfiguration_only_credentials demo_stringify demo_parse "deployment.json"
              constructed_world H0) as (Hframe & _).
  apply Hframe. unfold credential_keys. rewrite !not_elem_of_cons.
  repeat split; try discriminate. apply not_elem_of_nil.
Defined.

Lemma clearError_idempotent_witness :
  clearError demo_stringify "deployment.json" demo_member "uiConfigured" constructed_world
  = (Returned tt, constructed_world).
Proof.
  assert (H0 : this_state constructed_world !! "errors" = Some (VObj ∅))
    by (vm_compute; reflexivity).
  destruct (clearError_idempotent demo_stringify "deployment.json" demo_member
              constructed_world "uiConfigured" ∅ H0) as (Hnothing & _).
  apply Hnothing. vm_compute. reflexivity.
Defined.

Lemma recovery_suggestions_known_steps_witness :
  fst (getRecoverySuggestions
         (snd (recordError demo_stringify demo_toISOString
                 "deployment.json" "proofPublished" demo_error constructed_world)))
  = fst (getRecoverySuggestions constructed_world).
Proof.
  assert (H0 : ∃ errs, this_state constructed_world !! "errors" = Some (VObj errs))
    by (exists ∅; vm_compute; reflexivity).
  destruct (recovery_suggestions_known_steps demo_stringify demo_parse
              demo_toISOString "deployment.json" demo_member template
              constructed_world H0) as (_ & Hother & _).
  apply Hother; [reflexivity|]. unfold steps_in_order. rewrite !not_elem_of_cons.
  repeat split; try discriminate. apply not_elem_of_nil.
Defined.

Lemma validateRequiredFields_after_updateDeployment_witness :
  let w' := snd (updateDeployment demo_stringify "deployment.json"
                   {[ "dlpId" := VNum 7 ]} demo_world) in
  validateRequiredFields ["dlpId"] w' = (Returned tt, w').
Proof.
  assert (H : ∀ field, field ∈ ["dlpId"] →
            includes "." field = false ∧
            ∃ v, ({[ "dlpId" := VNum 7 ]} : gmap string value) !! field = Some v
                 ∧ truthy v = true).
  { intros field Hin. apply list_elem_of_singleton in Hin as ->.
    split; [reflexivity|]. exists (VNum 7). split; reflexivity. }
  exact (validateRequiredFields_after_updateDeployment demo_stringify
           "deployment.json" demo_world {[ "dlpId" := VNum 7 ]} ["dlpId"] H).
Defined.

End StateManager.

(** ** Text helpers: the string methods and regular expressions the scripts use

    Strings are sequences of code units below 256. *)

Module Text.

Definition code (c : ascii) : nat := nat_of_ascii c.

(** [\s] of a regular expression, and what [trim] strips. *)
Definition is_space (c : ascii) : bool :=
  let n := code c in
  (((9 <=? n) && (n <=? 13)) || (n =? 32) || (n =? 160))%nat.

(** [[a-fA-F0-9]] *)
Definition is_hex (c : ascii) : bool :=
  let n := code c in
  (((48 <=? n) && (n <=? 57)) || ((65 <=? n) && (n <=? 70))
   || ((97 <=? n) && (n <=? 102)))%nat.

(** A line terminator, which [.] does not match. *)
Definition is_newline (c : ascii) : bool :=
  let n := code c in ((n =? 10) || (n =? 13))%nat.

(** [toLowerCase] on one code unit. *)
Definition lower_char (c : ascii) : ascii :=
  let n := code c in
  if (((65 <=? n) && (n <=? 90))
      || ((192 <=? n) && (n <=? 222) && negb (n =? 215)))%nat
  then ascii_of_nat (n + 32) else c.

(** [s.toLowerCase()] *)
Fixpoint toLowerCase (s : string) : string :=
  match s with
  | EmptyString => EmptyString
  | String c s' => String (lower_char c) (toLowerCase s')
  end.

(** Drop the longest prefix of characters satisfying [p] (a greedy [p*]). *)
Fixpoint drop_while (p : ascii → bool) (s : string) : string :=
  match s with
  | EmptyString => EmptyString
  | String c s' => if p c then drop_while p s' else s
  end.

(** The longest prefix of characters satisfying [p]. *)
Fixpoint take_while (p : ascii → bool) (s : string) : string :=
  match s with
  | EmptyString => EmptyString
  | String c s' => if p c then String c (take_while p s') else EmptyString
  end.

Fixpoint all_chars (p : ascii → bool) (s : string) : bool :=
  match s with
  | EmptyString => true
  | String c s' => p c && all_chars p s'
  end.

Fixpoint rev_string (s : string) : string :=
  match s with
  | EmptyString => EmptyString
  | String c s' => rev_string s' +:+ String c EmptyString
  end.

(** [s.trim()] *)
Definition trim (s : string) : string :=
  rev_string (drop_while is_space (rev_string (drop_while is_space s))).

(** Match the literal [p] at the start of [s]; the rest of [s]. *)
Fixpoint lit (p s : string) : option string :=
  match p, s with
  | EmptyString, _ => Some s
  | String a p', String b s' => if Ascii.eqb a b then lit p' s' else None
  | String _ _, EmptyString => None
  end.

(** [\s+] then the rest. *)
Definition spaces1 (s : string) : option string :=
  match s with
  | String c s' => if is_space c then Some (drop_while is_space s') else None
  | EmptyString => None
  end.

(** Exactly [n] hexadecimal digits at the start of [s]: the digits. *)
Fixpoint hex_digits (n : nat) (s : string) : option string :=
  match n, s with
  | O, _ => Some EmptyString
  | S n', String c s' =>
      if is_hex c
      then match hex_digits n' s' with
           | Some d => Some (String c d)
           | None => None
           end
      else None
  | S _, EmptyString => None
  end.

(** [0x[a-fA-F0-9]{n}] at the start of [s]: the matched text. *)
Definition hex_literal (n : nat) (s : string) : option string :=
  match lit "0x" s with
  | Some r =>
      match hex_digits n r with
      | Some d => Some ("0x" +:+ d)
      | None => None
      end
  | None => None
  end.

(** [s.match(re)] for a pattern without the [g] flag: the leftmost position
    where the pattern [at_start] matches. *)
Fixpoint search {A} (at_start : string → option A) (s : string) : option A :=
  match at_start s with
  | Some a => Some a
  | None =>
      match s with
      | EmptyString => None
      | String _ s' => search at_start s'
      end
  end.

(** *** Facts about the matchers *)

Lemma append_assoc (a b c : string) : (a +:+ b) +:+ c = a +:+ (b +:+ c).
Proof.
  induction a as [|x a IH]; [reflexivity|].
  change (String x ((a +:+ b) +:+ c) = String x (a +:+ (b +:+ c))).
  now rewrite IH.
Qed.

Lemma append_nil_r (a : string) : a +:+ EmptyString = a.
Proof.
  induction a as [|x a IH]; [reflexivity|].
  change (String x (a +:+ EmptyString) = String x a). now rewrite IH.
Qed.

Lemma length_of_append (a b : string) :
  String.length (a +:+ b) = (String.length a + String.length b)%nat.
Proof.
  induction a as [|x a IH]; [reflexivity|].
  change (S (String.length (a +:+ b)) = S (String.length a + String.length b)).
  now rewrite IH.
Qed.

Lemma lit_sound p s r : lit p s = Some r → s = p +:+ r.
Proof.
  revert s. induction p as [|a p IH]; intros s; simpl.
  - now intros [= ->].
  - destruct s as [|b s]; [discriminate|].
    destruct (Ascii.eqb a b) eqn:E; [|discriminate].
    apply Ascii.eqb_eq in E as ->. intros H. now rewrite (IH _ H).
Qed.

Lemma lit_append p r : lit p (p +:+ r) = Some r.
Proof.
  induction p as [|a p IH]; simpl; [reflexivity|].
  now rewrite Ascii.eqb_refl.
Qed.

Lemma take_drop_while p s : take_while p s +:+ drop_while p s = s.
Proof.
  induction s as [|c s IH]; [reflexivity|]. cbn [take_while drop_while].
  destruct (p c); [|reflexivity].
  change (String c (take_while p s +:+ drop_while p s) = String c s). now rewrite IH.
Qed.

Lemma all_chars_take_while p s : all_chars p (take_while p s) = true.
Proof.
  induction s as [|c s IH]; simpl; [reflexivity|].
  destruct (p c) eqn:E; simpl; [now rewrite E | reflexivity].
Qed.

Lemma drop_while_append p ws r :
  all_chars p ws = true → drop_while p (ws +:+ r) = drop_while p r.
Proof.
  induction ws as [|c ws IH]; simpl; [reflexivity|].
  intros H. apply andb_true_iff in H as [Hc Hws]. rewrite Hc. now apply IH.
Qed.

Lemma all_chars_append p a b :
  all_chars p (a +:+ b) = all_chars p a && all_chars p b.
Proof.
  induction a as [|c a IH]; simpl; [reflexivity|].
  now rewrite IH, andb_assoc.
Qed.

Lemma hex_digits_sound n s d :
  hex_digits n s = Some d →
  ∃ rest, s = d +:+ rest ∧ String.length d = n ∧ all_chars is_hex d = true.
Proof.
  revert s d. induction n as [|n IH]; intros s d; simpl.
  - intros [= <-]. now exists s.
  - destruct s as [|c s]; [discriminate|].
    destruct (is_hex c) eqn:Hc; [|discriminate].
    destruct (hex_digits n s) as [d'|] eqn:Hd; [|discriminate].
    intros [= <-]. destruct (IH _ _ Hd) as (rest & -> & Hlen & Hall).
    exists rest. simpl. rewrite Hc, Hall, Hlen. auto.
Qed.

Lemma hex_digits_append d rest :
  all_chars is_hex d = true → hex_digits (String.length d) (d +:+ rest) = Some d.
Proof.
  induction d as [|c d IH]; simpl; [reflexivity|].
  intros H. apply andb_true_iff in H as [Hc Hd]. now rewrite Hc, IH.
Qed.

(** The text [0x] followed by exactly [n] hexadecimal digits. *)
Definition is_hex_literal (n : nat) (t : string) : Prop :=
  ∃ d, t = "0x" +:+ d ∧ String.length d = n ∧ all_chars is_hex d = true.

Lemma hex_literal_sound n s t :
  hex_literal n s = Some t → is_hex_literal n t ∧ ∃ rest, s = t +:+ rest.
Proof.
  unfold hex_literal. destruct (lit "0x" s) as [r|] eqn:Hl; [|discriminate].
  destruct (hex_digits n r) as [d|] eqn:Hd; [|discriminate].
  intros [= <-]. apply lit_sound in Hl as ->.
  destruct (hex_digits_sound _ _ _ Hd) as (rest & -> & Hlen & Hall).
  split; [now exists d | now exists rest].
Qed.

Lemma hex_literal_append n t rest :
  is_hex_literal n t → hex_literal n (t +:+ rest) = Some t.
Proof.
  intros (d & -> & <- & Hall). unfold hex_literal.
  change (("0x" +:+ d) +:+ rest) with ("0x" +:+ (d +:+ rest)).
  rewrite lit_append. now rewrite hex_digits_append.
Qed.

(** A hexadecimal literal does not begin with white space, so a greedy
    [\s*] before it gives nothing back. *)
Lemma drop_spaces_before_literal n ws t rest :
  all_chars is_space ws = true → is_hex_literal n t →
  drop_while is_space (ws +:+ (t +:+ rest)) = t +:+ rest.
Proof.
  intros Hws (d & -> & _). rewrite drop_while_append by exact Hws. reflexivity.
Qed.

Lemma search_sound {A} (at_start : string → option A) s a :
  search at_start s = Some a →
  ∃ before from_here, s = before +:+ from_here ∧ at_start from_here = Some a.
Proof.
  induction s as [|c s IH]; simpl.
  - destruct (at_start EmptyString) eqn:E; [|discriminate].
    intros [= <-]. now exists EmptyString, EmptyString.
  - destruct (at_start (String c s)) eqn:E.
    + intros [= <-]. now exists EmptyString, (String c s).
    + intros H. destruct (IH H) as (before & from_here & -> & Hat).
      now exists (String c before), from_here.
Qed.

Lemma search_complete {A} (at_start : string → option A) before from_here a :
  at_start from_here = Some a →
  ∃ a', search at_start (before +:+ from_here) = Some a'.
Proof.
  intros Hat. induction before as [|c before IH]; simpl.
  - destruct from_here; simpl; rewrite Hat; now eexists.
  - destruct (at_start (String c (before +:+ from_here))); [now eexists | exact IH].
Qed.

Lemma search_none {A} (at_start : string → option A) before from_here :
  search at_start (before +:+ from_here) = None → at_start from_here = None.
Proof.
  intros H. destruct (at_start from_here) as [a|] eqn:E; [|reflexivity].
  destruct (search_complete at_start before from_here a E) as [a' Ha]. congruence.
Qed.

End Text.

(** ** Polling for the encryption key ([scripts/deploy-refiner.js]) *)

Module DeployRefiner.

(** What one [client.readContract] call of the poll gives. *)
Inductive read_result :=
| ReadThrows (message : string)
| ReadReturns (encryptionKey : string).

Inductive event :=
| ReadContract (functionName : string) (dlpId : Z)
| Sleep (ms : Z)
| Log (line : string).

Section Poll.

(** The outcome of the read made in attempt [i]. *)
Variable chain : nat → read_result.

Definition pause (i maxAttempts : Z) : list event :=
  if (i <? maxAttempts - 1)%Z then [Sleep 30000] else [].

(** The [for] loop of [pollEncryptionKey], [remaining] iterations from
    counter [i] on: the value returned ([None] for [null]) and the effects. *)
Fixpoint poll_from (dlpId maxAttempts : Z) (remaining : nat) (i : Z)
    : option string * list event :=
  match remaining with
  | O => (None, [])
  | S remaining' =>
      match chain (Z.to_nat i) with
      | ReadReturns encryptionKey =>
          if negb (String.eqb encryptionKey EmptyString)
          then (Some encryptionKey,
                [ReadContract "dlpPubKeys" dlpId;
                 Log "✅ Encryption key retrieved successfully!"])
          else
            let '(r, t) := poll_from dlpId maxAttempts remaining' (i + 1)%Z in
            (r, [ReadContract "dlpPubKeys" dlpId;
                 Log ("⏳ Waiting for encryption key... ("
                      +:+ pretty (maxAttempts - i - 1)%Z +:+ " attempts remaining)")]
                ++ pause i maxAttempts ++ t)
      | ReadThrows message =>
          let '(r, t) := poll_from dlpId maxAttempts remaining' (i + 1)%Z in
          (r, [ReadContract "dlpPubKeys" dlpId;
               Log ("⚠️  Error polling encryption key: " +:+ message)]
              ++ pause i maxAttempts ++ t)
      end
  end.

(** [pollEncryptionKey(dlpId, maxAttempts = 60)] *)
Definition pollEncryptionKey (dlpId maxAttempts : Z) : option string * list event :=
  let '(r, t) := poll_from dlpId maxAttempts (Z.to_nat maxAttempts) 0 in
  (r, [Log ("🔑 Polling for encryption key (dlpId: " +:+ pretty dlpId +:+ ")...");
       Log "This usually takes a few minutes after DataDAO registration."] ++ t).

Definition default_maxAttempts : Z := 60.

End Poll.

(** The reads and sleeps of a trace, console output left out. *)
Definition effects (t : list event) : list event :=
  List.filter (λ e, match e with Log _ => false | _ => true end) t.

Definition reads (t : list event) : nat :=
  length (List.filter (λ e, match e with ReadContract _ _ => true | _ => false end) t).

(** [n] reads with one sleep of [ms] between two consecutive reads and none
    after the last. *)
Fixpoint schedule (read : event) (ms : Z) (n : nat) : list event :=
  match n with
  | O => []
  | S O => [read]
  | S n' => read :: Sleep ms :: schedule read ms n'
  end.

(** An attempt that does not end the poll: the read throws or returns the
    empty string. *)
Definition fruitless (r : read_result) : Prop :=
  match r with
  | ReadThrows _ => True
  | ReadReturns key => key = EmptyString
  end.

Section PollFacts.

Variable chain : nat → read_result.

Lemma effects_app t1 t2 : effects (t1 ++ t2) = effects t1 ++ effects t2.
Proof. unfold effects. apply List.filter_app. Qed.

Lemma reads_app t1 t2 : reads (t1 ++ t2) = (reads t1 + reads t2)%nat.
Proof. unfold reads. now rewrite List.filter_app, length_app. Qed.

Lemma poll_from_reads_positive dlpId maxAttempts remaining i :
  (0 < remaining)%nat →
  (0 < reads (snd (poll_from chain dlpId maxAttempts remaining i)))%nat.
Proof.
  destruct remaining as [|remaining]; [lia|]. intros _. simpl.
  destruct (chain (Z.to_nat i)) as [message|key].
  - destruct (poll_from chain dlpId maxAttempts remaining (i + 1)) as [r t].
    simpl. unfold reads. simpl. lia.
  - destruct (negb (String.eqb key EmptyString)).
    + simpl. unfold reads. simpl. lia.
    + destruct (poll_from chain dlpId maxAttempts remaining (i + 1)) as [r t].
      simpl. unfold reads. simpl. lia.
Qed.

Lemma schedule_step read ms n :
  (0 < n)%nat → schedule read ms (S n) = read :: Sleep ms :: schedule read ms n.
Proof. destruct n; [lia | reflexivity]. Qed.

(** The reads of the poll are separated by single sleeps of 30 seconds, and
    nothing is slept after the last one. *)
Lemma poll_from_schedule dlpId maxAttempts remaining i :
  (i + Z.of_nat remaining = maxAttempts)%Z →
  effects (snd (poll_from chain dlpId maxAttempts remaining i)) =
    schedule (ReadContract "dlpPubKeys" dlpId) 30000
      (reads (snd (poll_from chain dlpId maxAttempts remaining i))).
Proof.
  revert i. induction remaining as [|remaining IH]; intros i Hi; [reflexivity|].
  assert (Hrec : ∀ r t,
    poll_from chain dlpId maxAttempts remaining (i + 1) = (r, t) →
    ∀ line,
    effects ([ReadContract "dlpPubKeys" dlpId; Log line] ++ pause i maxAttempts ++ t) =
      schedule (ReadContract "dlpPubKeys" dlpId) 30000
        (reads ([ReadContract "dlpPubKeys" dlpId; Log line] ++ pause i maxAttempts ++ t))).
  { intros r t Ht line.
    assert (IH' := IH (i + 1)%Z ltac:(lia)). rewrite Ht in IH'. simpl in IH'.
    unfold pause. destruct remaining as [|remaining'].
    - simpl in Ht. injection Ht as _ <-.
      replace (i <? maxAttempts - 1)%Z with false by (symmetry; apply Z.ltb_ge; lia).
      reflexivity.
    - replace (i <? maxAttempts - 1)%Z with true by (symmetry; apply Z.ltb_lt; lia).
      assert (Hpos := poll_from_reads_positive dlpId maxAttempts (S remaining') (i + 1)%Z
                        ltac:(lia)).
      rewrite Ht in Hpos. simpl in Hpos.
      change (effects ([ReadContract "dlpPubKeys" dlpId; Log line] ++ [Sleep 30000] ++ t))
        with (ReadContract "dlpPubKeys" dlpId :: Sleep 30000 :: effects t).
      change (reads ([ReadContract "dlpPubKeys" dlpId; Log line] ++ [Sleep 30000] ++ t))
        with (S (reads t)).
      rewrite schedule_step by exact Hpos. now rewrite IH'. }
  simpl. destruct (chain (Z.to_nat i)) as [message|key].
  - destruct (poll_from chain dlpId maxAttempts remaining (i + 1)) as [r t] eqn:Ht.
    exact (Hrec r t eq_refl _).
  - destruct (negb (String.eqb key EmptyString)); [reflexivity|].
    destruct (poll_from chain dlpId maxAttempts remaining (i + 1)) as [r t] eqn:Ht.
    exact (Hrec r t eq_refl _).
Qed.

Lemma reads_pause_cons dlpId line i maxAttempts t :
  reads ([ReadContract "dlpPubKeys" dlpId; Log line] ++ pause i maxAttempts ++ t)
    = S (reads t).
Proof. unfold pause. now destruct (i <? maxAttempts - 1)%Z. Qed.

(** What the poll returns, and how many reads it made. *)
Lemma poll_from_result dlpId maxAttempts remaining i :
  (0 ≤ i)%Z →
  match fst (poll_from chain dlpId maxAttempts remaining i) with
  | Some key =>
      ∃ j, (j < remaining)%nat ∧
        chain (Z.to_nat i + j) = ReadReturns key ∧ key ≠ EmptyString ∧
        (∀ k, (k < j)%nat → fruitless (chain (Z.to_nat i + k))) ∧
        reads (snd (poll_from chain dlpId maxAttempts remaining i)) = S j
  | None =>
      (∀ k, (k < remaining)%nat → fruitless (chain (Z.to_nat i + k))) ∧
      reads (snd (poll_from chain dlpId maxAttempts remaining i)) = remaining
  end.
Proof.
  revert i. induction remaining as [|remaining IH]; intros i Hi.
  - simpl. split; [intros k Hk; lia | reflexivity].
  - assert (Hnext : Z.to_nat (i + 1) = S (Z.to_nat i)) by lia.
    assert (IH' := IH (i + 1)%Z ltac:(lia)). rewrite Hnext in IH'.
    assert (Hstep : ∀ line,
      fruitless (chain (Z.to_nat i)) →
      match fst (poll_from chain dlpId maxAttempts remaining (i + 1)) with
      | Some key =>
          ∃ j, (j < S remaining)%nat ∧
            chain (Z.to_nat i + j) = ReadReturns key ∧ key ≠ EmptyString ∧
            (∀ k, (k < j)%nat → fruitless (chain (Z.to_nat i + k))) ∧
            reads ([ReadContract "dlpPubKeys" dlpId; Log line] ++ pause i maxAttempts
                   ++ snd (poll_from chain dlpId maxAttempts remaining (i + 1))) = S j
      | None =>
          (∀ k, (k < S remaining)%nat → fruitless (chain (Z.to_nat i + k))) ∧
          reads ([ReadContract "dlpPubKeys" dlpId; Log line] ++ pause i maxAttempts
                 ++ snd (poll_from chain dlpId maxAttempts remaining (i + 1)))
            = S remaining
      end).
    { intros line Hfruitless. rewrite reads_pause_cons.
      destruct (fst (poll_from chain dlpId maxAttempts remaining (i + 1))) as [key|].
      - destruct IH' as (j & Hj & Hkey & Hne & Hbefore & Hreads).
        exists (S j). repeat split; try lia.
        + now rewrite Nat.add_succ_r.
        + exact Hne.
        + intros [|k] Hk; [now rewrite Nat.add_0_r|].
          rewrite Nat.add_succ_r. apply Hbefore. lia.
      - destruct IH' as [Hall Hreads]. split; [|lia].
        intros [|k] Hk; [now rewrite Nat.add_0_r|].
        rewrite Nat.add_succ_r. apply Hall. lia. }
    simpl. destruct (chain (Z.to_nat i)) as [message|key] eqn:Hchain.
    + specialize (Hstep ("⚠️  Error polling encryption key: " +:+ message) I).
      destruct (poll_from chain dlpId maxAttempts remaining (i + 1)) as [r t].
      exact Hstep.
    + destruct (String.eqb key EmptyString) eqn:Hkey; simpl.
      * apply String.eqb_eq in Hkey.
        specialize (Hstep ("⏳ Waiting for encryption key... ("
                      +:+ pretty (maxAttempts - i - 1)%Z +:+ " attempts remaining)") Hkey).
        destruct (poll_from chain dlpId maxAttempts remaining (i + 1)) as [r t].
        exact Hstep.
      * apply String.eqb_neq in Hkey. exists 0%nat. repeat split.
        -- lia.
        -- now rewrite Nat.add_0_r.
        -- exact Hkey.
        -- intros k Hk. lia.
Qed.

End PollFacts.

(** *** The refiner id in the environment of the UI ([updateRefinerId]) *)

(** The disk as [updateRefinerId] sees it. *)
Record disk := Disk {
  files : gmap string string;
  write_fails : bool
}.

Definition nl : string := String (ascii_of_nat 10) EmptyString.

(** [path.join(process.cwd(), '..', 'ui', '.env')], relative to the
    working directory *)
Definition uiEnvPath : string := "../ui/.env".

Definition not_newline (c : ascii) : bool := negb (Text.is_newline c).

(** [uiEnv.replace(/REFINER_ID=.*/, replacement)]: the leftmost
    [REFINER_ID=] and what follows it on its line are replaced. *)
Fixpoint replace_refiner_line (replacement s : string) : string :=
  match Text.lit "REFINER_ID=" s with
  | Some rest => replacement +:+ Text.drop_while not_newline rest
  | None =>
      match s with
      | EmptyString => EmptyString
      | String c s' => String c (replace_refiner_line replacement s')
      end
  end.

(** [updateRefinerId(refinerId)], for the integer the callers pass: the disk
    afterwards and the lines printed. *)
Definition updateRefinerId (refinerId : Z) (d : disk) : disk * list string :=
  match files d !! uiEnvPath with
  | Some uiEnv =>
      let uiEnv' :=
        if JS.includes "REFINER_ID=" uiEnv
        then replace_refiner_line ("REFINER_ID=" +:+ pretty refinerId) uiEnv
        else uiEnv +:+ nl +:+ "REFINER_ID=" +:+ pretty refinerId +:+ nl in
      if write_fails d
      then (d, ["⚠️  Could not update UI .env: EACCES: permission denied"])
      else (Disk (<[uiEnvPath := uiEnv']> (files d)) (write_fails d),
            ["✅ UI configuration updated with refinerId"])
  | None => (d, [])
  end.

Section RefinerId.

Lemma prefix_lit p s :
  String.prefix p s = match Text.lit p s with Some _ => true | None => false end.
Proof.
  revert s. induction p as [|a p IH]; intros s; [now destruct s|].
  destruct s as [|b s]; [reflexivity|]. cbn [String.prefix Text.lit].
  destruct (ascii_dec a b) as [->|Hne].
  - now rewrite Ascii.eqb_refl.
  - apply Ascii.eqb_neq in Hne. now rewrite Hne.
Qed.

Lemma lit_cons a q c s :
  Text.lit (String a q) (String c s) = if Ascii.eqb a c then Text.lit q s else None.
Proof. reflexivity. Qed.

Lemma includes_cons p c s :
  JS.includes p (String c s) = String.prefix p (String c s) || JS.includes p s.
Proof. reflexivity. Qed.

Lemma replace_match r s rest :
  Text.lit "REFINER_ID=" s = Some rest →
  replace_refiner_line r s = r +:+ Text.drop_while not_newline rest.
Proof. intros H. destruct s; cbn [replace_refiner_line]; now rewrite H. Qed.

Lemma replace_skip r c s :
  Text.lit "REFINER_ID=" (String c s) = None →
  replace_refiner_line r (String c s) = String c (replace_refiner_line r s).
Proof. intros H. cbn [replace_refiner_line]. now rewrite H. Qed.

Lemma drop_while_head p s :
  Text.drop_while p s = EmptyString ∨
  ∃ c rest, Text.drop_while p s = String c rest ∧ p c = false.
Proof.
  induction s as [|c s IH]; [now left|]. cbn [Text.drop_while].
  destruct (p c) eqn:Hc; [exact IH|]. right. now exists c, s.
Qed.

Lemma drop_while_idem p s :
  Text.drop_while p (Text.drop_while p s) = Text.drop_while p s.
Proof.
  destruct (drop_while_head p s) as [-> | (c & rest & -> & Hc)]; [reflexivity|].
  cbn [Text.drop_while]. now rewrite Hc.
Qed.

(** A literal no longer than [k] matches at the start of [k +:+ x] or not,
    whatever [x] is. *)
Lemma lit_short q k x y :
  (String.length q ≤ String.length k)%nat →
  Text.lit q (k +:+ x) = None → Text.lit q (k +:+ y) = None.
Proof.
  revert k. induction q as [|a q IH]; intros k Hlen; [discriminate|].
  destruct k as [|b k]; [simpl in Hlen; lia|].
  change (String b k +:+ x) with (String b (k +:+ x)).
  change (String b k +:+ y) with (String b (k +:+ y)).
  cbn [Text.lit]. destruct (Ascii.eqb a b); [|reflexivity].
  apply IH. simpl in Hlen. lia.
Qed.

Lemma lit_replace r q s :
  (String.length q ≤ 11)%nat →
  Text.lit q s = None →
  Text.lit q (replace_refiner_line ("REFINER_ID=" +:+ r) s) = None.
Proof.
  revert q. induction s as [|c s IH]; intros q Hlen Hq.
  - exact Hq.
  - destruct (Text.lit "REFINER_ID=" (String c s)) as [rest|] eqn:Hmatch.
    + rewrite (replace_match _ _ _ Hmatch).
      apply Text.lit_sound in Hmatch. rewrite Hmatch in Hq.
      rewrite Text.append_assoc.
      exact (lit_short q "REFINER_ID=" rest _ Hlen Hq).
    + rewrite (replace_skip _ _ _ Hmatch).
      destruct q as [|a q]; [discriminate|]. cbn [Text.lit] in Hq |- *.
      destruct (Ascii.eqb a c); [|reflexivity].
      apply IH; [simpl in Hlen; lia | exact Hq].
Qed.

Lemma replace_idempotent r s :
  Text.all_chars not_newline r = true →
  replace_refiner_line ("REFINER_ID=" +:+ r)
    (replace_refiner_line ("REFINER_ID=" +:+ r) s)
  = replace_refiner_line ("REFINER_ID=" +:+ r) s.
Proof.
  intros Hr. induction s as [|c s IH]; [reflexivity|].
  destruct (Text.lit "REFINER_ID=" (String c s)) as [rest|] eqn:Hmatch.
  - rewrite (replace_match _ _ _ Hmatch). rewrite Text.append_assoc.
    rewrite (replace_match _ _ (r +:+ Text.drop_while not_newline rest))
      by apply Text.lit_append.
    rewrite Text.drop_while_append by exact Hr.
    now rewrite drop_while_idem, Text.append_assoc.
  - rewrite (replace_skip _ _ _ Hmatch).
    rewrite replace_skip; [now rewrite IH|].
    rewrite lit_cons in Hmatch |- *.
    destruct (Ascii.eqb "R" c); [|reflexivity].
    apply lit_replace; [simpl; lia | exact Hmatch].
Qed.

(** A literal without line break does not match across a line break. *)
Lemma lit_before_newline q u x :
  Text.all_chars not_newline q = true →
  String.prefix q u = false →
  Text.lit q (u +:+ String (ascii_of_nat 10) x) = None.
Proof.
  revert u. induction q as [|a q IH]; intros u Hq Hprefix; [now destruct u|].
  simpl in Hq. apply andb_true_iff in Hq as [Ha Hq].
  destruct u as [|b u].
  - change (EmptyString +:+ ?s) with s. cbn [Text.lit].
    destruct (Ascii.eqb a (ascii_of_nat 10)) eqn:E; [|reflexivity].
    apply Ascii.eqb_eq in E. subst a. discriminate.
  - change (String b u +:+ ?s) with (String b (u +:+ s)). cbn [Text.lit].
    cbn [String.prefix] in Hprefix.
    destruct (ascii_dec a b) as [->|Hne].
    + rewrite Ascii.eqb_refl. now apply IH.
    + apply Ascii.eqb_neq in Hne. now rewrite Hne.
Qed.

Lemma replace_appended r u :
  Text.all_chars not_newline r = true →
  JS.includes "REFINER_ID=" u = false →
  replace_refiner_line ("REFINER_ID=" +:+ r) (u +:+ nl +:+ "REFINER_ID=" +:+ r +:+ nl)
  = u +:+ nl +:+ "REFINER_ID=" +:+ r +:+ nl.
Proof.
  intros Hr. induction u as [|c u IH]; intros Hnone.
  - change (EmptyString +:+ ?s) with s. unfold nl at 1 3.
    change (String (ascii_of_nat 10) EmptyString +:+ ?s)
      with (String (ascii_of_nat 10) s).
    rewrite replace_skip by reflexivity. f_equal.
    rewrite (replace_match _ _ (r +:+ nl)) by apply Text.lit_append.
    rewrite Text.drop_while_append by exact Hr.
    now rewrite Text.append_assoc.
  - rewrite includes_cons in Hnone. apply orb_false_iff in Hnone as [Hprefix Hnone].
    change (String c u +:+ ?s) with (String c (u +:+ s)).
    rewrite replace_skip; [now rewrite IH|].
    change (String c (u +:+ nl +:+ ?s)) with (String c u +:+ String (ascii_of_nat 10) s).
    now apply lit_before_newline.
Qed.

Lemma includes_here p x : JS.includes p (p +:+ x) = true.
Proof.
  assert (H : String.prefix p (p +:+ x) = true)
    by (rewrite prefix_lit; now rewrite Text.lit_append).
  destruct (p +:+ x); simpl in *; now rewrite H.
Qed.

Lemma includes_after p a x : JS.includes p x = true → JS.includes p (a +:+ x) = true.
Proof.
  intros Hx. induction a as [|c a IH]; [exact Hx|].
  change (String c a +:+ x) with (String c (a +:+ x)).
  rewrite includes_cons, IH. apply orb_true_r.
Qed.

Lemma includes_replaced r s :
  JS.includes "REFINER_ID=" s = true →
  JS.includes "REFINER_ID=" (replace_refiner_line ("REFINER_ID=" +:+ r) s) = true.
Proof.
  induction s as [|c s IH]; [discriminate|]. intros Hs.
  destruct (Text.lit "REFINER_ID=" (String c s)) as [rest|] eqn:Hmatch.
  - rewrite (replace_match _ _ _ Hmatch), Text.append_assoc. apply includes_here.
  - rewrite (replace_skip _ _ _ Hmatch), includes_cons.
    rewrite includes_cons, prefix_lit, Hmatch in Hs. simpl in Hs.
    rewrite IH by exact Hs. apply orb_true_r.
Qed.

(** The digits stdpp prints for a number hold no line break. *)
Lemma pretty_N_go_chars x s :
  Text.all_chars not_newline s = true →
  Text.all_chars not_newline (pretty_N_go x s) = true.
Proof.
  revert s. induction (N.lt_wf_0 x) as [x _ IH]. intros s Hs.
  destruct (decide (0 < x)%N) as [Hpos|Hzero].
  - rewrite pretty_N_go_step by exact Hpos.
    apply IH; [now apply N.div_lt|].
    simpl. rewrite Hs, andb_true_r.
    assert (Hmod : (x `mod` 10 < 10)%N) by (apply N.mod_lt; lia).
    destruct (x `mod` 10)%N as [|m]; [reflexivity|].
    do 4 (destruct m as [m|m|]; try reflexivity; try lia).
  - assert (x = 0%N) as -> by lia. now rewrite pretty_N_go_0.
Qed.

Lemma pretty_Z_chars (n : Z) : Text.all_chars not_newline (pretty n) = true.
Proof.
  assert (HN : ∀ x : N, Text.all_chars not_newline (pretty x) = true).
  { intros x. unfold pretty, pretty_N. destruct (decide (x = 0%N)); [reflexivity|].
    now apply pretty_N_go_chars. }
  destruct n as [|p|p]; [reflexivity | apply HN |].
  change (pretty (Z.neg p)) with ("-" +:+ pretty (N.pos p)).
  rewrite Text.all_chars_append, HN. reflexivity.
Qed.

(** X14: [updateRefinerId] keeps one [REFINER_ID] line up to date.  It creates no
    file: without [../ui/.env] it does and prints nothing.  With the file,
    on a disk that accepts writes, it touches no other file, and afterwards
    the file holds [REFINER_ID=] followed by the id: where the text had a
    [REFINER_ID=] the rest of the line of the leftmost one (the text starts
    with [REFINER_ID=] at no earlier position) is replaced and everything
    before it and from the end of that line on is kept; otherwise a line is
    appended.  When the write fails the disk is as before and one
    warning is printed. *)
Theorem updateRefinerId_sets_line (refinerId : Z) (d : disk) :
  (files d !! uiEnvPath = None → updateRefinerId refinerId d = (d, [])) ∧
  (∀ uiEnv,
     files d !! uiEnvPath = Some uiEnv → write_fails d = true →
     fst (updateRefinerId refinerId d) = d ∧
     length (snd (updateRefinerId refinerId d)) = 1%nat) ∧
  (∀ uiEnv,
     files d !! uiEnvPath = Some uiEnv → write_fails d = false →
     ∃ uiEnv',
       files (fst (updateRefinerId refinerId d)) = <[uiEnvPath := uiEnv']> (files d) ∧
       JS.includes ("REFINER_ID=" +:+ pretty refinerId) uiEnv' = true ∧
       (JS.includes "REFINER_ID=" uiEnv = false →
        uiEnv' = uiEnv +:+ nl +:+ "REFINER_ID=" +:+ pretty refinerId +:+ nl) ∧
       (JS.includes "REFINER_ID=" uiEnv = true →
        ∃ before old after,
          uiEnv = before +:+ "REFINER_ID=" +:+ old +:+ after ∧
          (∀ skipped later,
             before = skipped +:+ later → later ≠ EmptyString →
             Text.lit "REFINER_ID=" (later +:+ "REFINER_ID=" +:+ old +:+ after) = None) ∧
          Text.all_chars not_newline old = true ∧
          (after = EmptyString ∨
           ∃ c rest, after = String c rest ∧ Text.is_newline c = true) ∧
          uiEnv' = before +:+ "REFINER_ID=" +:+ pretty refinerId +:+ after)).
Proof.
  split; [|split].
  - intros Hfile. unfold updateRefinerId. now rewrite Hfile.
  - intros uiEnv Hfile Hdisk. unfold updateRefinerId. now rewrite Hfile, Hdisk.
  - intros uiEnv Hfile Hdisk. unfold updateRefinerId. rewrite Hfile, Hdisk.
    cbn [fst files].
    assert (Hshape : ∀ s, JS.includes "REFINER_ID=" s = true →
              ∃ before old after,
                s = before +:+ "REFINER_ID=" +:+ old +:+ after ∧
                (∀ skipped later,
                   before = skipped +:+ later → later ≠ EmptyString →
                   Text.lit "REFINER_ID=" (later +:+ "REFINER_ID=" +:+ old +:+ after)
                     = None) ∧
                Text.all_chars not_newline old = true ∧
                (after = EmptyString ∨
                 ∃ c rest, after = String c rest ∧ Text.is_newline c = true) ∧
                replace_refiner_line ("REFINER_ID=" +:+ pretty refinerId) s
                  = before +:+ "REFINER_ID=" +:+ pretty refinerId +:+ after).
    { induction s as [|c s IH]; [discriminate|]. intros Hs.
      destruct (Text.lit "REFINER_ID=" (String c s)) as [rest|] eqn:Hmatch.
      - exists EmptyString, (Text.take_while not_newline rest),
               (Text.drop_while not_newline rest).
        split.
        { change (EmptyString +:+ ?x) with x. rewrite Text.take_drop_while.
          now apply Text.lit_sound. }
        split.
        { intros skipped later Hsplit Hlater. destruct skipped; [|discriminate].
          change (EmptyString +:+ later) with later in Hsplit. congruence. }
        split; [apply Text.all_chars_take_while|]. split.
        { destruct (drop_while_head not_newline rest) as [-> | (x & r & -> & Hx)];
            [now left|]. right. exists x, r. split; [reflexivity|].
          unfold not_newline in Hx. now apply negb_false_iff in Hx. }
        rewrite (replace_match _ _ _ Hmatch).
        change (EmptyString +:+ ?x) with x. now rewrite Text.append_assoc.
      - rewrite includes_cons, prefix_lit, Hmatch in Hs. simpl in Hs.
        destruct (IH Hs)
          as (before & old & after & -> & Hleft & Hold & Hafter & Hreplaced).
        exists (String c before), old, after. split; [reflexivity|].
        split.
        { intros skipped later Hsplit Hlater. destruct skipped as [|x skipped].
          - change (EmptyString +:+ later) with later in Hsplit. subst later.
            exact Hmatch.
          - change (String x skipped +:+ later) with (String x (skipped +:+ later))
              in Hsplit.
            injection Hsplit as _ Hsplit. now apply (Hleft skipped later). }
        split; [exact Hold|]. split; [exact Hafter|].
        rewrite (replace_skip _ _ _ Hmatch), Hreplaced. reflexivity. }
    eexists. split; [reflexivity|].
    destruct (JS.includes "REFINER_ID=" uiEnv) eqn:Hincl.
    + split; [|split; [discriminate | intros _; now apply Hshape]].
      destruct (Hshape uiEnv Hincl) as (before & old & after & _ & _ & _ & _ & ->).
      apply includes_after.
      rewrite <- (Text.append_assoc "REFINER_ID=" (pretty refinerId) after).
      apply includes_here.
    + split; [|split; [reflexivity | discriminate]].
      rewrite <- (Text.append_assoc "REFINER_ID=" (pretty refinerId) nl).
      rewrite <- (Text.append_assoc uiEnv nl _).
      apply includes_after, includes_here.
Qed.

(** X15: Running [updateRefinerId] again with the same id changes nothing: the
    line is neither duplicated nor appended a second time. *)
Theorem updateRefinerId_idempotent (refinerId : Z) (d : disk) :
  fst (updateRefinerId refinerId (fst (updateRefinerId refinerId d)))
    = fst (updateRefinerId refinerId d).
Proof.
  unfold updateRefinerId.
  destruct (files d !! uiEnvPath) as [uiEnv|] eqn:Hfile;
    [|cbn [fst]; now rewrite Hfile].
  destruct (write_fails d) eqn:Hdisk; cbn [fst]; [now rewrite Hfile, Hdisk|].
  cbn [files write_fails]. rewrite lookup_insert_eq. cbn [fst]. f_equal.
  rewrite insert_insert_eq. f_equal.
  assert (Hid := pretty_Z_chars refinerId).
  destruct (JS.includes "REFINER_ID=" uiEnv) eqn:Hincl.
  - rewrite includes_replaced by exact Hincl. now apply replace_idempotent.
  - assert (Hnow : JS.includes "REFINER_ID="
                     (uiEnv +:+ nl +:+ "REFINER_ID=" +:+ pretty refinerId +:+ nl) = true).
    { rewrite <- (Text.append_assoc uiEnv nl _). apply includes_after, includes_here. }
    rewrite Hnow. now apply replace_appended.
Qed.

End RefinerId.

End DeployRefiner.

(** ** Registration of the DataDAO (the [register:datadao] script) *)

Module Register.
Import JS Text.

(** The effects of a run that matter to the registration: calls to the
    chain, file writes, sleeps, the signature lookup, and what the error
    handler of the automated registration prints.  Informational console
    output outside that handler is not recorded. *)
Inductive event :=
| ReadContract (functionName : string) (arg : value)
| GetBalance (address : value)
| WriteContract (functionName : string) (args : value) (wei : Z)
| WaitForReceipt (hash : value)
| WriteFile (path content : string)
| Sleep (ms : Z)
| Fetch (url : string)
| ConsoleError (line : string).

(** What the network answers to one call. *)
Inductive reply :=
| Replies (v : value)
| Fails (message : string).

Record world := World {
  files : gmap string string;
  write_fails : bool;        (* the disk refuses writes *)
  quick_env : bool;          (* process.env.QUICK_MODE === 'true' *)
  replies : list reply;      (* the answers of the network, call after call *)
  answers : list value;      (* the answers of the operator, prompt after prompt *)
  trace : list event
}.

Definition set_files (f : gmap string string) (w : world) : world :=
  World f (write_fails w) (quick_env w) (replies w) (answers w) (trace w).
Definition set_replies (r : list reply) (w : world) : world :=
  World (files w) (write_fails w) (quick_env w) r (answers w) (trace w).
Definition set_answers (a : list value) (w : world) : world :=
  World (files w) (write_fails w) (quick_env w) (replies w) a (trace w).
Definition set_trace (t : list event) (w : world) : world :=
  World (files w) (write_fails w) (quick_env w) (replies w) (answers w) t.

Definition nl : string := String (ascii_of_nat 10) EmptyString.
Definition dq : string := String (ascii_of_nat 34) EmptyString.

Definition DLP_REGISTRY_ADDRESS : string := "0x4D59880a924526d1dD33260552Ff4328b1E18a43".

(** [parseEther('1')] *)
Definition one_vana : Z := 10 ^ 18.

Definition prompt_closed : error := Error "Error" "prompt closed".

Definition emit (e : event) : M world unit :=
  modify (λ w, set_trace (trace w ++ [e]) w).

(** One call to the network: it is recorded, and the next reply decides
    whether it returns or throws; a network that has nothing more to say is
    unreachable. *)
Definition next_reply : M world value := λ w,
  match replies w with
  | Replies v :: rest => (Returned v, set_replies rest w)
  | Fails m :: rest => (Thrown (Error "Error" m), set_replies rest w)
  | [] => (Thrown (Error "Error" "fetch failed"), w)
  end.

Definition call (e : event) : M world value := emit e;; next_reply.

(** [inquirer.prompt]: the value the operator chose or typed. *)
Definition prompt : M world value := λ w,
  match answers w with
  | a :: rest => (Returned a, set_answers rest w)
  | [] => (Thrown prompt_closed, w)
  end.

Definition console_error (line : string) : M world unit := emit (ConsoleError line).

Definition existsSync (p : string) : M world bool :=
  gets (λ w, bool_decide (is_Some (files w !! p))).

Definition readFileSync (p : string) : M world string := λ w,
  match files w !! p with
  | Some c => (Returned c, w)
  | None => (Thrown (Error "Error" "ENOENT: no such file or directory"), w)
  end.

Definition writeFileSync (p content : string) : M world unit := λ w,
  if write_fails w
  then (Thrown (Error "Error" "EACCES: permission denied"), w)
  else (Returned tt,
        set_trace (trace w ++ [WriteFile p content])
          (set_files (<[p := content]> (files w)) w)).

(** [Number(x)] of a reply that is an integer. *)
Definition to_number (v : value) : Z :=
  match v with
  | VNum n => n
  | _ => 0
  end.

(** [o[k] = x] outside strict mode: ignored when [o] is a primitive. *)
Definition assign (o : value) (k : string) (x : value) : value :=
  match o with
  | VObj m => VObj (<[k := x]> m)
  | _ => o
  end.

(** [deployment.proxyAddress || (deployment.contracts &&
    deployment.contracts.proxyAddress) || deployment.dlpAddress] *)
Definition proxy_address (deployment : value) : value :=
  js_or (js_or (prop deployment "proxyAddress")
               (js_and (prop deployment "contracts")
                       (prop (prop deployment "contracts") "proxyAddress")))
        (prop deployment "dlpAddress").

(** [deployment.dlpId = dlpId; deployment.state = deployment.state || {};
    deployment.state.dataDAORegistered = true] *)
Definition registered (deployment : value) (dlpId : Z) : value :=
  let d := assign deployment "dlpId" (VNum dlpId) in
  let st := js_or (prop d "state") (VObj ∅) in
  assign d "state" (assign st "dataDAORegistered" (VBool true)).

(** [parseInt(s)]: leading white space, a sign, then decimal digits, or
    hexadecimal ones after [0x]; [None] is [NaN]. *)
Definition digit_value (c : ascii) : option Z :=
  let n := code c in
  if ((48 <=? n) && (n <=? 57))%nat then Some (Z.of_nat n - 48)%Z
  else if ((97 <=? n) && (n <=? 102))%nat then Some (Z.of_nat n - 87)%Z
  else if ((65 <=? n) && (n <=? 70))%nat then Some (Z.of_nat n - 55)%Z
  else None.

Fixpoint parse_digits (radix : Z) (acc : option Z) (s : string) : option Z :=
  match s with
  | EmptyString => acc
  | String c s' =>
      match digit_value c with
      | Some d =>
          if (d <? radix)%Z
          then parse_digits radix (Some (default 0%Z acc * radix + d)%Z) s'
          else acc
      | None => acc
      end
  end.

Definition parse_unsigned (s : string) : option Z :=
  match s with
  | String "0" (String "x" r) | String "0" (String "X" r) => parse_digits 16 None r
  | _ => parse_digits 10 None s
  end.

Definition parseInt (s : string) : option Z :=
  match drop_while is_space s with
  | String "-" r => Z.opp <$> parse_unsigned r
  | String "+" r => parse_unsigned r
  | r => parse_unsigned r
  end.

(** [envContent.match(/DEPLOYER_PRIVATE_KEY=(.+)/)]: the captured group. *)
Definition private_key_at (s : string) : option string :=
  match lit "DEPLOYER_PRIVATE_KEY=" s with
  | Some r =>
      match take_while (λ c, negb (is_newline c)) r with
      | EmptyString => None
      | key => Some key
      end
  | None => None
  end.

Definition match_private_key (envContent : string) : option string :=
  search private_key_at envContent.

(** [v === s] for a string literal [s]. *)
Definition is_str (v : value) (s : string) : bool :=
  match v with
  | VStr t => String.eqb t s
  | _ => false
  end.

Section Script.

(** The platform and the libraries: [JSON.stringify(_, null, 2)],
    [JSON.parse], the floating-point test [Number(balance) / 1e18 < 1.1],
    and viem's [privateKeyToAccount] (the address of the account, or the
    message of the error it throws). *)
Variable stringify : value → string.
Variable parse : string → option value.
Variable balance_below_minimum : Z → bool.
Variable privateKeyToAccount : string → value + string.

Definition template : value → string := StateManager.template.

(** [decodeErrorSignature(signature)]; a reply [VStr name] stands for an
    answer of the signature database whose first function is [name]. *)
Definition decodeErrorSignature (signature : string) : M world string :=
  try_catch
    (data ← call (Fetch ("https://api.openchain.xyz/signature-database/v1/lookup?function="
                         +:+ signature +:+ "&filter=true"));
     match data with
     | VStr decoded => mret decoded
     | _ => mret ("Unknown error signature: " +:+ signature)
     end)
    (λ _, mret ("Unknown error signature: " +:+ signature)).

(** [checkDlpNameAvailability(dlpName)]: [available] and [existingId]. *)
Definition checkDlpNameAvailability (dlpName : value) : M world (bool * option Z) :=
  try_catch
    (dlpId ← call (ReadContract "dlpNameToId" dlpName);
     let nameExists := (0 <? to_number dlpId)%Z in
     mret (negb nameExists, if nameExists then Some (to_number dlpId) else None))
    (λ _, mret (true, None)).

(** [getDlpId(dlpAddress)] *)
Definition getDlpId (dlpAddress : value) : M world Z :=
  try_catch
    (dlpId ← call (ReadContract "dlpIds" dlpAddress);
     mret (to_number dlpId))
    (λ _, mret 0%Z).

(** [checkWalletBalance(address)] *)
Definition checkWalletBalance (address : value) : M world bool :=
  try_catch
    (balance ← call (GetBalance address);
     if balance_below_minimum (to_number balance) then mret false else mret true)
    (λ _, mret true).

(** [try { fs.writeFileSync(deploymentPath, JSON.stringify(deployment, null, 2)) }
    catch (saveError) { ... }] *)
Definition save_deployment (deployment : value) : M world unit :=
  try_catch (writeFileSync "deployment.json" (stringify deployment)) (λ _, mret tt).

(** The [try] block of [performAutomatedRegistration]. *)
Definition automated_try (deployment : value) (quickMode : bool) (privateKey : string)
    : M world bool :=
  match privateKeyToAccount privateKey with
  | inr message => throw (Error "Error" message)
  | inl address =>
      hasBalance ← checkWalletBalance address;
      if negb hasBalance
      then throw (new_Error "Insufficient wallet balance for registration")
      else
        let dlpProxyAddress := proxy_address deployment in
        if negb (truthy dlpProxyAddress)
        then throw (new_Error "DLP proxy address not found in deployment.json")
        else
          let registrationParams : gmap string value :=
            <["dlpAddress" := dlpProxyAddress]>
            (<["ownerAddress" := prop deployment "address"]>
            (<["treasuryAddress" := prop deployment "address"]>
            (<["name" := prop deployment "dlpName"]>
            (<["iconUrl" := VStr EmptyString]>
            (<["website" := VStr EmptyString]>
            (<["metadata" := VStr EmptyString]> ∅)))))) in
          (if negb quickMode
           then
             confirm ← prompt;
             if negb (truthy confirm)
             then throw (new_Error "Registration cancelled by user")
             else mret tt
           else mret tt);;
          hash ← call (WriteContract "registerDlp" (VObj registrationParams) one_vana);
          receipt ← call (WaitForReceipt hash);
          if is_str (prop receipt "status") "success"
          then
            dlpId ← getDlpId dlpProxyAddress;
            if (0 <? dlpId)%Z
            then save_deployment (registered deployment dlpId);; mret true
            else throw (new_Error
                   "Registration transaction succeeded but could not retrieve dlpId")
          else
            throw (new_Error ("Registration transaction failed. Hash: " +:+ template hash))
  end.

(** The analysis of the [catch] block: what it prints for the kind of
    failure, the recovery steps and [canRetry].  The [const dlpProxyAddress]
    of the [try] block is not in scope here, so the branch that mentions it
    throws a [ReferenceError]. *)
Definition analyse (deployment : value) (errorLower : string)
    : M world (list string * bool) :=
  if includes "insufficient funds" errorLower || includes "insufficient_funds" errorLower
  then
    console_error (nl +:+ "💡 Insufficient funds detected");;
    console_error "Registration requires 1 VANA + gas fees (~1.1 VANA total)";;
    mret (["Check balance: https://moksha.vanascan.io/address/"
             +:+ template (prop deployment "address");
           "Get testnet VANA: https://faucet.vana.org";
           "Wait 1-2 minutes for funds to arrive";
           "Retry registration: npm run register:datadao"], false)
  else if includes "user rejected" errorLower || includes "user denied" errorLower
  then
    console_error (nl +:+ "💡 Transaction cancelled by user");;
    mret (["No action needed - you cancelled the transaction";
           "Retry when ready: npm run register:datadao"], true)
  else if includes "already registered" errorLower || includes "dlp exists" errorLower
          || includes "invalidname" errorLower
          || (includes "name" errorLower && includes "taken" errorLower)
  then
    console_error (nl +:+ "💡 DataDAO name conflict detected");;
    throw (Error "ReferenceError" "dlpProxyAddress is not defined")
  else if includes "reverted" errorLower || includes "execution failed" errorLower
  then
    console_error (nl +:+ "💡 Transaction was reverted by the network");;
    mret (["Verify contract deployment succeeded: npm run status";
           "Check DLP proxy address is correct in deployment.json";
           "Ensure you're using the proxy address, not implementation";
           "Try manual registration via Vanascan"], false)
  else if includes "nonce" errorLower || includes "already known" errorLower
  then
    console_error (nl +:+ "💡 Transaction nonce conflict detected");;
    mret (["Wait 30 seconds for pending transactions";
           "Check recent transactions: https://moksha.vanascan.io/address/"
             +:+ template (prop deployment "address");
           "Retry registration: npm run register:datadao"], true)
  else if includes "timeout" errorLower || includes "network" errorLower
  then
    console_error (nl +:+ "💡 Network connectivity issue");;
    mret (["Check your internet connection";
           "Wait 2-3 minutes for network congestion";
           "Retry registration: npm run register:datadao"], true)
  else
    console_error (nl +:+ "💡 Unexpected error occurred");;
    mret (["Check the full error message above";
           "Verify deployment.json has correct addresses";
           "Try manual registration via Vanascan";
           "Contact support if issue persists"], false).

(** [recoverySteps.forEach((step, index) => console.error(`${index + 1}. ${step}`))] *)
Fixpoint print_steps (index : nat) (steps : list string) : M world unit :=
  match steps with
  | [] => mret tt
  | step :: rest =>
      console_error (pretty (S index) +:+ ". " +:+ step);;
      print_steps (S index) rest
  end.

(** The [catch] block of [performAutomatedRegistration]. *)
Definition automated_catch (deployment : value) (e : error) : M world bool :=
  console_error ("Registration failed: " +:+ message e);;
  (match search (hex_literal 8) (message e) with
   | Some signature =>
       decoded ← decodeErrorSignature signature;
       console_error (nl +:+ "💡 Decoded error: " +:+ decoded)
   | None => mret tt
   end);;
  '(recoverySteps, canRetry) ← analyse deployment (toLowerCase (message e));
  console_error (nl +:+ "📋 Recovery Steps:");;
  print_steps 0 recoverySteps;;
  (if (canRetry : bool)
   then console_error (nl +:+ "🔄 This error is likely temporary and can be retried.")
   else mret tt);;
  console_error (nl +:+ "🌐 Alternative: Manual Registration");;
  console_error "You can also register manually via Vanascan:";;
  console_error ("https://moksha.vanascan.io/address/" +:+ DLP_REGISTRY_ADDRESS
                 +:+ "?tab=write_proxy");;
  throw e.

(** [performAutomatedRegistration(deployment, quickMode = false)] *)
Definition performAutomatedRegistration (deployment : value) (quickMode : bool)
    : M world bool :=
  there ← existsSync "contracts/.env";
  if negb there
  then throw (new_Error "No contracts/.env file found. Cannot access private key.")
  else
    envContent ← readFileSync "contracts/.env";
    match match_private_key envContent with
    | None => throw (new_Error "No DEPLOYER_PRIVATE_KEY found in contracts/.env")
    | Some key =>
        try_catch (automated_try deployment quickMode (trim key))
                  (automated_catch deployment)
    end.

(** The polling loop of the manual registration:
    [for (let i = 0; i < attempts; i++) { dlpId = await getDlpId(...);
    if (dlpId > 0) break; ...; await sleep(3000) }], started with the
    current value of [dlpId]. *)
Fixpoint detect (attempts : nat) (dlpProxyAddress : value) (dlpId : Z) : M world Z :=
  match attempts with
  | O => mret dlpId
  | S attempts' =>
      dlpId ← getDlpId dlpProxyAddress;
      if (0 <? dlpId)%Z then mret dlpId
      else emit (Sleep 3000);; detect attempts' dlpProxyAddress dlpId
  end.

(** The prompt 'Enter your dlpId (number):', asked again until [validate]
    accepts the input; the loops over prompts recurse on the answers that
    are still to come. *)
Fixpoint ask_dlpId (pending : list value) : M world Z :=
  match pending with
  | [] => throw prompt_closed
  | input :: rest =>
      modify (set_answers rest);;
      match parseInt (template input) with
      | Some num => if (0 <? num)%Z then mret num else ask_dlpId rest
      | None => ask_dlpId rest
      end
  end.

(** The first [while (true)] of [performManualRegistration]: [None] when it
    breaks to the detection, [Some b] when it returns [b]. *)
Fixpoint manual_menu (pending : list value) (deployment : value) : M world (option bool) :=
  match pending with
  | [] => throw prompt_closed
  | manualAction :: rest =>
      modify (set_answers rest);;
      if is_str manualAction "completed" then mret None
      else if is_str manualAction "instructions" then manual_menu rest deployment
      else if is_str manualAction "help" then manual_menu rest deployment
      else if is_str manualAction "auto"
      then b ← performAutomatedRegistration deployment false; mret (Some b)
      else if is_str manualAction "skip"
      then throw (new_Error "Registration skipped by user")
      else manual_menu rest deployment
  end.

(** The second [while (true)]: [inl dlpId] when it breaks, [inr b] when it
    returns [b]. *)
Fixpoint retry_menu (pending : list value) (deployment dlpProxyAddress : value)
    (dlpId : Z) : M world (Z + bool) :=
  match pending with
  | [] => throw prompt_closed
  | retryAction :: rest =>
      modify (set_answers rest);;
      if is_str retryAction "retry"
      then
        dlpId ← detect 5 dlpProxyAddress dlpId;
        if (0 <? dlpId)%Z then mret (inl dlpId)
        else retry_menu rest deployment dlpProxyAddress dlpId
      else if is_str retryAction "check"
      then retry_menu rest deployment dlpProxyAddress dlpId
      else if is_str retryAction "manual"
      then num ← ask_dlpId rest; mret (inl num)
      else if is_str retryAction "auto"
      then b ← performAutomatedRegistration deployment false; mret (inr b)
      else if is_str retryAction "skip"
      then throw (new_Error "Registration incomplete - skipped by user")
      else retry_menu rest deployment dlpProxyAddress dlpId
  end.

(** [performManualRegistration(deployment)] *)
Definition performManualRegistration (deployment : value) : M world bool :=
  let dlpProxyAddress := proxy_address deployment in
  completed ← prompt;
  left ← (if negb (truthy completed)
          then pending ← gets answers; manual_menu pending deployment
          else mret None);
  match left with
  | Some b => mret b
  | None =>
      dlpId ← detect 10 dlpProxyAddress 0;
      found ← (if (dlpId =? 0)%Z
               then pending ← gets answers;
                    retry_menu pending deployment dlpProxyAddress dlpId
               else mret (inl dlpId));
      match found with
      | inr b => mret b
      | inl _ => mret true
      end
  end.

(** The [while (true)] after 'Skip for now': the method chosen in the end. *)
Fixpoint skip_menu (pending : list value) : M world value :=
  match pending with
  | [] => throw prompt_closed
  | skipAction :: rest =>
      modify (set_answers rest);;
      if is_str skipAction "register" then prompt
      else if is_str skipAction "explain" then skip_menu rest
      else throw (new_Error "Registration skipped by user")
  end.

(** What [registerDataDAO] does once the chain said that the DataDAO is not
    registered yet. *)
Definition register_new (deployment : value) (quickMode : bool) : M world unit :=
  '(available, existingId) ← checkDlpNameAvailability (prop deployment "dlpName");
  if negb (available : bool)
  then throw (new_Error ("DLP name " +:+ dq +:+ template (prop deployment "dlpName")
                         +:+ dq +:+ " is already taken (dlpId: "
                         +:+ match existingId with
                             | Some n => pretty n
                             | None => "null"
                             end +:+ ")"))
  else
    registrationMethod ←
      (if negb quickMode
       then
         method ← prompt;
         if is_str method "skip"
         then pending ← gets answers; skip_menu pending
         else mret method
       else mret (VStr "auto"));
    registrationSuccessful ←
      (if is_str registrationMethod "auto"
       then performAutomatedRegistration deployment quickMode
       else if is_str registrationMethod "manual"
       then performManualRegistration deployment
       else mret false);
    if (registrationSuccessful : bool) then mret tt
    else throw (new_Error ((if is_str registrationMethod "auto" then "Automated" else "Manual")
                           +:+ " registration failed")).

(** [registerDataDAO()] *)
Definition registerDataDAO : M world unit :=
  there ← existsSync "deployment.json";
  if negb there
  then throw (new_Error "No deployment.json found. Please deploy contracts first.")
  else
    content ← readFileSync "deployment.json";
    match parse content with
    | None => throw (Error "SyntaxError" "Unexpected token in JSON")
    | Some VNull => throw (Error "TypeError" "Cannot read properties of null")
    | Some deployment =>
        env ← gets quick_env;
        let quickMode :=
          env || match prop deployment "quickMode" with
                 | VBool true => true
                 | _ => false
                 end in
        let dlpProxyAddress := proxy_address deployment in
        if negb (truthy dlpProxyAddress)
        then throw (new_Error "No DLP proxy address found. Please deploy contracts first.")
        else
          existingDlpId ← getDlpId dlpProxyAddress;
          if (0 <? existingDlpId)%Z
          then save_deployment (registered deployment existingDlpId)
          else register_new deployment quickMode
    end.

(** The script: [registerDataDAO().catch(error => { ...; process.exit(1) })]. *)
Definition main : M world unit :=
  try_catch registerDataDAO (λ _, exit 1).

End Script.

(** *** Facts about the runs *)

Ltac run :=
  cbv [mbind M_bind mret M_ret gets modify throw exit try_catch emit call
       next_reply console_error existsSync readFileSync]; simpl.

Lemma getDlpId_run dlpAddress w :
  getDlpId dlpAddress w =
    let w1 := set_trace (trace w ++ [ReadContract "dlpIds" dlpAddress]) w in
    match replies w with
    | Replies v :: rest => (Returned (to_number v), set_replies rest w1)
    | Fails _ :: rest => (Returned 0%Z, set_replies rest w1)
    | [] => (Returned 0%Z, w1)
    end.
Proof.
  unfold getDlpId. run. destruct (replies w) as [|[v|m] rest]; reflexivity.
Qed.

(** [k] fruitless rounds of the detection loop: a read, then 3 seconds. *)
Fixpoint rounds (dlpAddress : value) (k : nat) : list event :=
  match k with
  | O => []
  | S k' => ReadContract "dlpIds" dlpAddress :: Sleep 3000 :: rounds dlpAddress k'
  end.

Lemma detect_run attempts dlpAddress dlpId w :
  (dlpId ≤ 0)%Z →
  ∃ k found w',
    detect attempts dlpAddress dlpId w = (Returned found, w') ∧
    trace w' = trace w ++ rounds dlpAddress k
                 ++ (if (0 <? found)%Z then [ReadContract "dlpIds" dlpAddress] else []) ∧
    (k + (if (0 <? found)%Z then 1 else 0) ≤ attempts)%nat ∧
    ((found ≤ 0)%Z → k = attempts) ∧
    files w' = files w ∧ answers w' = answers w ∧ write_fails w' = write_fails w.
Proof.
  revert dlpId w. induction attempts as [|attempts IH]; intros dlpId w Hd.
  - exists 0%nat, dlpId, w. simpl.
    replace (0 <? dlpId)%Z with false by (symmetry; apply Z.ltb_ge; lia).
    rewrite app_nil_r. repeat split; auto.
  - simpl. unfold mbind at 1, M_bind at 1. rewrite getDlpId_run. cbv zeta.
    set (w1 := set_trace (trace w ++ [ReadContract "dlpIds" dlpAddress]) w).
    assert (Hstep : ∀ id w2,
      trace w2 = trace w ++ [ReadContract "dlpIds" dlpAddress] →
      files w2 = files w → answers w2 = answers w → write_fails w2 = write_fails w →
      ∃ k found w',
        (if (0 <? id)%Z then mret id
         else emit (Sleep 3000);; detect attempts dlpAddress id) w2 = (Returned found, w') ∧
        trace w' = trace w ++ rounds dlpAddress k
                     ++ (if (0 <? found)%Z then [ReadContract "dlpIds" dlpAddress] else []) ∧
        (k + (if (0 <? found)%Z then 1 else 0) ≤ S attempts)%nat ∧
        ((found ≤ 0)%Z → k = S attempts) ∧
        files w' = files w ∧ answers w' = answers w ∧ write_fails w' = write_fails w).
    { intros id w2 Ht Hf Ha Hwf. destruct (0 <? id)%Z eqn:Hid.
      - exists 0%nat, id, w2. rewrite Hid. simpl. apply Z.ltb_lt in Hid.
        repeat split; auto; lia.
      - apply Z.ltb_ge in Hid.
        destruct (IH id (set_trace (trace w2 ++ [Sleep 3000]) w2) Hid)
          as (k & found & w' & Hrun & Htrace & Hk & Hall & Hf' & Ha' & Hwf').
        exists (S k), found, w'. repeat split.
        + run. exact Hrun.
        + rewrite Htrace. simpl. rewrite Ht. now rewrite <- !app_assoc.
        + lia.
        + intros Hfound. f_equal. auto.
        + now rewrite Hf'.
        + now rewrite Ha'.
        + now rewrite Hwf'. }
    destruct (replies w) as [|[v|m] rest]; apply Hstep; reflexivity.
Qed.

(** *** When the file is written and when a transaction is sent *)

(** An event that neither writes a file nor submits a transaction. *)
Definition calm (e : event) : Prop :=
  match e with
  | WriteFile _ _ | WriteContract _ _ _ => False
  | _ => True
  end.

Section Quiet.

Variable stringify : value → string.
Variable parse : string → option value.
Variable balance_below_minimum : Z → bool.
Variable privateKeyToAccount : string → value + string.
Variable deployment : value.

(** A piece of script that neither writes a file nor submits a
    transaction. *)
Definition quiet {A} (m : M world A) : Prop :=
  ∀ w, ∃ evs, trace (snd (m w)) = trace w ++ evs ∧ Forall calm evs.


Lemma quiet_ret {A} (a : A) : quiet (mret a).
Proof. intros w. exists []. simpl. now rewrite app_nil_r. Qed.

Lemma quiet_throw {A} e : quiet (throw e : M world A).
Proof. intros w. exists []. simpl. now rewrite app_nil_r. Qed.

Lemma quiet_gets {A} (f : world → A) : quiet (gets f).
Proof. intros w. exists []. simpl. now rewrite app_nil_r. Qed.

Lemma quiet_set_answers a : quiet (modify (set_answers a)).
Proof. intros w. exists []. simpl. now rewrite app_nil_r. Qed.

Lemma quiet_prompt : quiet prompt.
Proof.
  intros w. exists []. unfold prompt. rewrite app_nil_r.
  now destruct (answers w).
Qed.

Lemma quiet_emit e : calm e → quiet (emit e).
Proof. intros He w. exists [e]. split; [reflexivity|]. now constructor. Qed.

Lemma quiet_call e : calm e → quiet (call e).
Proof.
  intros He w. exists [e]. split; [|now constructor].
  unfold call. run. now destruct (replies w) as [|[v|m] rest].
Qed.

Lemma quiet_existsSync p : quiet (existsSync p).
Proof. apply quiet_gets. Qed.

Lemma quiet_readFileSync p : quiet (readFileSync p).
Proof.
  intros w. exists []. unfold readFileSync. rewrite app_nil_r.
  now destruct (files w !! p).
Qed.

Lemma bind_trace {A B} (P Q R : list event → Prop) (m : M world A) (f : A → M world B) :
  (∀ a b, P a → Q b → R (a ++ b)) → (∀ a, P a → R a) →
  (∀ w, ∃ evs, trace (snd (m w)) = trace w ++ evs ∧ P evs) →
  (∀ a w, ∃ evs, trace (snd (f a w)) = trace w ++ evs ∧ Q evs) →
  ∀ w, ∃ evs, trace (snd ((m ≫= f) w)) = trace w ++ evs ∧ R evs.
Proof.
  intros Hcomp Hstop Hm Hf w. destruct (Hm w) as (evs1 & Ht1 & H1).
  unfold mbind, M_bind. destruct (m w) as [[a|e|c] w1]; simpl in *.
  - destruct (Hf a w1) as (evs2 & Ht2 & H2). exists (evs1 ++ evs2).
    split; [|now apply Hcomp]. rewrite Ht2, Ht1. now rewrite app_assoc.
  - exists evs1. split; [exact Ht1 | now apply Hstop].
  - exists evs1. split; [exact Ht1 | now apply Hstop].
Qed.

Lemma quiet_bind {A B} (m : M world A) (f : A → M world B) :
  quiet m → (∀ a, quiet (f a)) → quiet (m ≫= f).
Proof.
  intros Hm Hf. unfold quiet in *. apply (bind_trace (Forall calm) (Forall calm) (Forall calm)); auto.
  intros a b Ha Hb. apply Forall_app. now split.
Qed.

Lemma catch_trace {A} (P Q R : list event → Prop) (m : M world A) (h : error → M world A) :
  (∀ a b, P a → Q b → R (a ++ b)) → (∀ a, P a → R a) →
  (∀ w, ∃ evs, trace (snd (m w)) = trace w ++ evs ∧ P evs) →
  (∀ e w, ∃ evs, trace (snd (h e w)) = trace w ++ evs ∧ Q evs) →
  ∀ w, ∃ evs, trace (snd (try_catch m h w)) = trace w ++ evs ∧ R evs.
Proof.
  intros Hcomp Hstop Hm Hh w. destruct (Hm w) as (evs1 & Ht1 & H1).
  unfold try_catch. destruct (m w) as [[a|e|c] w1]; simpl in *.
  - exists evs1. split; [exact Ht1 | now apply Hstop].
  - destruct (Hh e w1) as (evs2 & Ht2 & H2). exists (evs1 ++ evs2).
    split; [|now apply Hcomp]. rewrite Ht2, Ht1. now rewrite app_assoc.
  - exists evs1. split; [exact Ht1 | now apply Hstop].
Qed.

Lemma quiet_try_catch {A} (m : M world A) (h : error → M world A) :
  quiet m → (∀ e, quiet (h e)) → quiet (try_catch m h).
Proof.
  intros Hm Hh. unfold quiet in *. apply (catch_trace (Forall calm) (Forall calm) (Forall calm)); auto.
  intros a b Ha Hb. apply Forall_app. now split.
Qed.

Lemma quiet_getDlpId a : quiet (getDlpId a).
Proof.
  apply quiet_try_catch; [|intros e; apply quiet_ret].
  apply quiet_bind; [now apply quiet_call | intros v; apply quiet_ret].
Qed.

Lemma quiet_checkDlpNameAvailability n : quiet (checkDlpNameAvailability n).
Proof.
  apply quiet_try_catch; [|intros e; apply quiet_ret].
  apply quiet_bind; [now apply quiet_call | intros v; apply quiet_ret].
Qed.

Lemma quiet_checkWalletBalance a :
  quiet (checkWalletBalance balance_below_minimum a).
Proof.
  apply quiet_try_catch; [|intros e; apply quiet_ret].
  apply quiet_bind; [now apply quiet_call|].
  intros v. destruct (balance_below_minimum _); apply quiet_ret.
Qed.

Lemma quiet_decodeErrorSignature s : quiet (decodeErrorSignature s).
Proof.
  apply quiet_try_catch; [|intros e; apply quiet_ret].
  apply quiet_bind; [now apply quiet_call|].
  intros v. destruct v; apply quiet_ret.
Qed.

Lemma quiet_console_error line : quiet (console_error line).
Proof. now apply quiet_emit. Qed.

Lemma quiet_print_steps index steps : quiet (print_steps index steps).
Proof.
  revert index. induction steps as [|step steps IH]; intros index; simpl.
  - apply quiet_ret.
  - apply quiet_bind; [apply quiet_console_error | intros _; apply IH].
Qed.

Ltac quiet_step :=
  first [ apply quiet_ret | apply quiet_throw | apply quiet_console_error
        | apply quiet_prompt | apply quiet_set_answers | apply quiet_gets
        | apply quiet_getDlpId | apply quiet_print_steps
        | apply quiet_decodeErrorSignature | apply quiet_checkDlpNameAvailability
        | apply quiet_checkWalletBalance | apply quiet_existsSync
        | apply quiet_readFileSync
        | (apply quiet_bind; [|intros ?]) ].

Lemma quiet_analyse errorLower : quiet (analyse deployment errorLower).
Proof.
  unfold analyse.
  repeat (match goal with |- quiet (if ?b then _ else _) => destruct b end);
    repeat quiet_step.
Qed.

Lemma quiet_automated_catch e : quiet (automated_catch deployment e).
Proof.
  unfold automated_catch. apply quiet_bind; [apply quiet_console_error|]. intros _.
  apply quiet_bind.
  { destruct (search _ _); repeat quiet_step. }
  intros _. apply quiet_bind; [apply quiet_analyse|]. intros [steps canRetry].
  apply quiet_bind; [apply quiet_console_error|]. intros _.
  apply quiet_bind; [apply quiet_print_steps|]. intros _.
  apply quiet_bind; [destruct canRetry; repeat quiet_step|]. intros _.
  repeat quiet_step.
Qed.

Lemma quiet_detect attempts a dlpId : quiet (detect attempts a dlpId).
Proof.
  revert dlpId. induction attempts as [|attempts IH]; intros dlpId; simpl.
  - apply quiet_ret.
  - apply quiet_bind; [apply quiet_getDlpId|]. intros id.
    destruct (0 <? id)%Z; [apply quiet_ret|].
    apply quiet_bind; [now apply quiet_emit | intros _; apply IH].
Qed.

Lemma quiet_ask_dlpId pending : quiet (ask_dlpId pending).
Proof.
  induction pending as [|input rest IH]; simpl; [apply quiet_throw|].
  apply quiet_bind; [apply quiet_set_answers|]. intros _.
  destruct (parseInt _) as [num|]; [|exact IH].
  destruct (0 <? num)%Z; [apply quiet_ret | exact IH].
Qed.

Lemma quiet_skip_menu pending : quiet (skip_menu pending).
Proof.
  induction pending as [|skipAction rest IH]; simpl; [apply quiet_throw|].
  apply quiet_bind; [apply quiet_set_answers|]. intros _.
  destruct (is_str skipAction "register"); [apply quiet_prompt|].
  destruct (is_str skipAction "explain"); [exact IH | apply quiet_throw].
Qed.

End Quiet.

(** *** The transaction, its receipt and the id that is recorded *)

(** An event that asks the network something and takes its next reply. *)
Definition is_call (e : event) : bool :=
  match e with
  | ReadContract _ _ | GetBalance _ | WriteContract _ _ _ | WaitForReceipt _
  | Fetch _ => true
  | _ => false
  end.

(** How many replies a piece of trace took. *)
Definition calls (evs : list event) : nat := length (List.filter is_call evs).


Section Tied.

Variable stringify : value → string.
Variable parse : string → option value.
Variable balance_below_minimum : Z → bool.
Variable privateKeyToAccount : string → value + string.
Variable deployment : value.









































Abbreviation automated_try' :=
  (automated_try stringify balance_below_minimum privateKeyToAccount deployment).
Abbreviation automated' :=
  (performAutomatedRegistration stringify balance_below_minimum privateKeyToAccount
     deployment).
Abbreviation manual' :=
  (performManualRegistration stringify balance_below_minimum privateKeyToAccount
     deployment).
Abbreviation register_new' :=
  (register_new stringify balance_below_minimum privateKeyToAccount deployment).







End Tied.

(** *** The run of the script *)

Section Run.

Variable stringify : value → string.
Variable parse : string → option value.
Variable balance_below_minimum : Z → bool.
Variable privateKeyToAccount : string → value + string.












End Run.

(** *** How the helpers and the handlers end *)

Section Outcomes.

Variable stringify : value → string.
Variable parse : string → option value.
Variable balance_below_minimum : Z → bool.
Variable privateKeyToAccount : string → value + string.

(** [m] returns nothing but values that satisfy [P]. *)
Definition returns_only {A} (P : A → Prop) (m : M world A) : Prop :=
  ∀ w a w', m w = (Returned a, w') → P a.

Lemma returns_only_ret {A} (P : A → Prop) (a : A) : P a → returns_only P (mret a).
Proof. intros Ha w b w' [= <- _]. exact Ha. Qed.

Lemma returns_only_throw {A} (P : A → Prop) e : returns_only P (throw e : M world A).
Proof. intros w a w'. discriminate. Qed.

Lemma returns_only_bind {A B} (P : B → Prop) (m : M world A) (f : A → M world B) :
  (∀ a, returns_only P (f a)) → returns_only P (m ≫= f).
Proof.
  intros Hf w b w'. unfold mbind, M_bind.
  destruct (m w) as [[a|e|c] w1]; try discriminate. apply Hf.
Qed.

Lemma returns_only_try_catch {A} (P : A → Prop) (m : M world A) (h : error → M world A) :
  returns_only P m → (∀ e, returns_only P (h e)) → returns_only P (try_catch m h).
Proof.
  intros Hm Hh w a w'. unfold try_catch.
  destruct (m w) as [[b|e|c] w1] eqn:Hrun; try discriminate.
  - intros [= <- _]. exact (Hm w b w1 Hrun).
  - apply Hh.
Qed.

Lemma returns_only_automated_catch (P : bool → Prop) deployment e :
  returns_only P (automated_catch deployment e).
Proof.
  unfold automated_catch.
  apply returns_only_bind. intros _.
  apply returns_only_bind. intros _.
  apply returns_only_bind. intros [recoverySteps canRetry].
  apply returns_only_bind. intros _.
  apply returns_only_bind. intros _.
  apply returns_only_bind. intros _.
  apply returns_only_bind. intros _.
  apply returns_only_bind. intros _.
  apply returns_only_bind. intros _.
  apply returns_only_throw.
Qed.

Lemma returns_only_automated_try deployment quickMode key :
  returns_only (λ b, b = true)
    (automated_try stringify balance_below_minimum privateKeyToAccount
       deployment quickMode key).
Proof.
  unfold automated_try.
  destruct (privateKeyToAccount key) as [address|message];
    [|apply returns_only_throw].
  apply returns_only_bind. intros hasBalance.
  destruct (negb hasBalance); [apply returns_only_throw|].
  destruct (negb (truthy (proxy_address deployment))); [apply returns_only_throw|].
  apply returns_only_bind. intros _.
  apply returns_only_bind. intros hash.
  apply returns_only_bind. intros receipt.
  destruct (is_str (prop receipt "status") "success"); [|apply returns_only_throw].
  apply returns_only_bind. intros dlpId.
  destruct (0 <? dlpId)%Z; [|apply returns_only_throw].
  apply returns_only_bind. intros _. now apply returns_only_ret.
Qed.

Lemma returns_only_automated deployment quickMode :
  returns_only (λ b, b = true)
    (performAutomatedRegistration stringify balance_below_minimum
       privateKeyToAccount deployment quickMode).
Proof.
  unfold performAutomatedRegistration.
  apply returns_only_bind. intros there.
  destruct (negb there); [apply returns_only_throw|].
  apply returns_only_bind. intros envContent.
  destruct (match_private_key envContent) as [key|]; [|apply returns_only_throw].
  apply returns_only_try_catch.
  - apply returns_only_automated_try.
  - intros e. apply returns_only_automated_catch.
Qed.

Lemma returns_only_manual_menu pending deployment :
  returns_only (λ r, r = None ∨ r = Some true)
    (manual_menu stringify balance_below_minimum privateKeyToAccount pending deployment).
Proof.
  induction pending as [|manualAction rest IH]; simpl; [apply returns_only_throw|].
  apply returns_only_bind. intros _.
  destruct (is_str manualAction "completed"); [apply returns_only_ret; now left|].
  destruct (is_str manualAction "instructions"); [exact IH|].
  destruct (is_str manualAction "help"); [exact IH|].
  destruct (is_str manualAction "auto").
  { intros w r w'. unfold mbind, M_bind.
    destruct (performAutomatedRegistration _ _ _ _ _ w) as [[b|e|c] w1] eqn:Hrun;
      try discriminate.
    intros [= <- _]. right. f_equal. exact (returns_only_automated _ _ _ _ _ Hrun). }
  destruct (is_str manualAction "skip"); [apply returns_only_throw | exact IH].
Qed.

Lemma returns_only_retry_menu pending deployment dlpProxyAddress dlpId :
  returns_only (λ r, match r with inl _ => True | inr b => b = true end)
    (retry_menu stringify balance_below_minimum privateKeyToAccount pending
       deployment dlpProxyAddress dlpId).
Proof.
  revert dlpId. induction pending as [|retryAction rest IH]; intros dlpId; simpl;
    [apply returns_only_throw|].
  apply returns_only_bind. intros _.
  destruct (is_str retryAction "retry").
  { apply returns_only_bind. intros found.
    destruct (0 <? found)%Z; [now apply returns_only_ret | apply IH]. }
  destruct (is_str retryAction "check"); [apply IH|].
  destruct (is_str retryAction "manual").
  { apply returns_only_bind. intros num. now apply returns_only_ret. }
  destruct (is_str retryAction "auto").
  { intros w r w'. unfold mbind, M_bind.
    destruct (performAutomatedRegistration _ _ _ _ _ w) as [[b|e|c] w1] eqn:Hrun;
      try discriminate.
    intros [= <- _]. exact (returns_only_automated _ _ _ _ _ Hrun). }
  destruct (is_str retryAction "skip"); [apply returns_only_throw | apply IH].
Qed.

Lemma bind_returned {A B} (m : M world A) (f : A → M world B) w b w' :
  (m ≫= f) w = (Returned b, w') →
  ∃ a w1, m w = (Returned a, w1) ∧ f a w1 = (Returned b, w').
Proof.
  unfold mbind, M_bind. destruct (m w) as [[a|e|c] w1]; try discriminate.
  intros Hf. now exists a, w1.
Qed.

Lemma returns_only_manual deployment :
  returns_only (λ b, b = true)
    (performManualRegistration stringify balance_below_minimum
       privateKeyToAccount deployment).
Proof.
  intros w r w' Hrun. unfold performManualRegistration in Hrun.
  apply bind_returned in Hrun as (completed & w1 & _ & Hrun).
  apply bind_returned in Hrun as (left & w2 & Hmenu & Hrun).
  assert (Hleft : left = None ∨ left = Some true).
  { destruct (negb (truthy completed)).
    - apply bind_returned in Hmenu as (pending & w3 & _ & Hmenu).
      now apply returns_only_manual_menu in Hmenu.
    - injection Hmenu as <- _. now left. }
  destruct Hleft as [-> | ->]; [|now injection Hrun as <- _].
  apply bind_returned in Hrun as (dlpId & w3 & _ & Hrun).
  apply bind_returned in Hrun as (found & w4 & Hretry & Hrun).
  destruct found as [n|b]; [now injection Hrun as <- _|].
  injection Hrun as <- _.
  destruct (dlpId =? 0)%Z; [|discriminate].
  apply bind_returned in Hretry as (pending & w5 & _ & Hretry).
  now apply returns_only_retry_menu in Hretry.
Qed.

(** X16: Neither registration ever returns [false]: the automated one returns
    [true] or throws, because its handler always ends in a [throw], and so
    does the manual one, with or without a switch to the automated one. *)
Theorem registration_never_returns_false (deployment : value) (quickMode : bool)
    (w w' : world) :
  (∀ b, performAutomatedRegistration stringify balance_below_minimum
          privateKeyToAccount deployment quickMode w = (Returned b, w') → b = true) ∧
  (∀ b, performManualRegistration stringify balance_below_minimum
          privateKeyToAccount deployment w = (Returned b, w') → b = true) ∧
  (∀ e b, automated_catch deployment e w ≠ (Returned b, w')).
Proof.
  split; [|split].
  - intros b. apply returns_only_automated.
  - intros b. apply returns_only_manual.
  - intros e b Hrun.
    exact (returns_only_automated_catch (λ _, False) deployment e w b w' Hrun).
Qed.

(** [m] returns, whatever the network does, and leaves the files and the
    pending answers of the operator alone. *)
Definition prints {A} (m : M world A) : Prop :=
  ∀ w, ∃ a w', m w = (Returned a, w') ∧ files w' = files w ∧ answers w' = answers w.












(** X18: The three read helpers never throw and fail open.  Each makes one call
    and returns whatever the network does; only a definite answer of the
    chain gives the outcome that stops a registration (an id above zero, a
    name that exists, a balance below the minimum).  A failed call counts as
    'not registered', 'name available' and 'balance sufficient'. *)
Theorem read_helpers_fail_open (w : world) (a : value) :
  (∃ id w',
     getDlpId a w = (Returned id, w') ∧
     trace w' = trace w ++ [ReadContract "dlpIds" a] ∧
     (id ≠ 0%Z → ∃ v rest, replies w = Replies v :: rest ∧ id = to_number v)) ∧
  (∃ available existingId w',
     checkDlpNameAvailability a w = (Returned (available, existingId), w') ∧
     trace w' = trace w ++ [ReadContract "dlpNameToId" a] ∧
     (available = false →
      ∃ v rest, replies w = Replies v :: rest ∧ (0 < to_number v)%Z ∧
                existingId = Some (to_number v)) ∧
     (available = true → existingId = None)) ∧
  (∃ hasBalance w',
     checkWalletBalance balance_below_minimum a w = (Returned hasBalance, w') ∧
     trace w' = trace w ++ [GetBalance a] ∧
     (hasBalance = false →
      ∃ v rest, replies w = Replies v :: rest ∧
                balance_below_minimum (to_number v) = true)).
Proof.
  split; [|split].
  - rewrite getDlpId_run. cbv zeta.
    destruct (replies w) as [|[v|m] rest]; eexists _, _;
      (split; [reflexivity|]); (split; [reflexivity|]); intros Hid;
      try congruence.
    now exists v, rest.
  - unfold checkDlpNameAvailability. run.
    destruct (replies w) as [|[v|m] rest]; simpl.
    + eexists _, _, _. repeat split; try reflexivity. discriminate.
    + destruct (0 <? to_number v)%Z eqn:Hpos; simpl; eexists _, _, _;
        (split; [reflexivity|]); (split; [reflexivity|]); split; try discriminate;
        try reflexivity.
      intros _. exists v, rest. apply Z.ltb_lt in Hpos. auto.
    + eexists _, _, _. repeat split; try reflexivity. discriminate.
  - unfold checkWalletBalance. run.
    destruct (replies w) as [|[v|m] rest]; simpl.
    + eexists _, _. repeat split; try reflexivity. discriminate.
    + destruct (balance_below_minimum (to_number v)) eqn:Hlow; simpl; eexists _, _;
        (split; [reflexivity|]); (split; [reflexivity|]); try discriminate.
      intros _. now exists v, rest.
    + eexists _, _. repeat split; try reflexivity. discriminate.
Qed.

(** X19: What the automated registration checks before its [try] block is not
    handled by its handler: without [contracts/.env], or without a
    [DEPLOYER_PRIVATE_KEY=] line with something after the sign in it, the
    error is thrown at once; nothing is printed by the handler, the network
    is not called and the operator is not asked. *)
Theorem automated_prechecks (deployment : value) (quickMode : bool) (w : world) :
  (files w !! "contracts/.env" = None →
   performAutomatedRegistration stringify balance_below_minimum privateKeyToAccount
     deployment quickMode w
   = (Thrown (new_Error "No contracts/.env file found. Cannot access private key."),
      w)) ∧
  (∀ envContent,
     files w !! "contracts/.env" = Some envContent →
     match_private_key envContent = None →
     performAutomatedRegistration stringify balance_below_minimum privateKeyToAccount
       deployment quickMode w
     = (Thrown (new_Error "No DEPLOYER_PRIVATE_KEY found in contracts/.env"), w)) ∧
  (∀ envContent key,
     files w !! "contracts/.env" = Some envContent →
     match_private_key envContent = Some key →
     performAutomatedRegistration stringify balance_below_minimum privateKeyToAccount
       deployment quickMode w
     = try_catch
         (automated_try stringify balance_below_minimum privateKeyToAccount
            deployment quickMode (trim key))
         (automated_catch deployment) w).
Proof.
  unfold performAutomatedRegistration.
  cbv [mbind M_bind mret M_ret gets throw existsSync readFileSync].
  split; [|split].
  - intros Hfile. now rewrite Hfile.
  - intros envContent Hfile Hkey. rewrite Hfile. cbn -[match_private_key].
    now rewrite Hfile, Hkey.
  - intros envContent key Hfile Hkey. rewrite Hfile. cbn -[match_private_key trim].
    now rewrite Hfile, Hkey.
Qed.

(** X20: The script gives up before any call to the network, without touching
    the files or asking the operator, when [deployment.json] is missing, is
    not JSON, holds [null], or names no proxy address in any of the three
    places where one is looked for: the process exits with code 1. *)
Theorem main_prechecks (w : world) :
  let r := main stringify parse balance_below_minimum privateKeyToAccount w in
  (files w !! "deployment.json" = None → r = (Exited 1, w)) ∧
  (∀ content,
     files w !! "deployment.json" = Some content →
     parse content = None ∨ parse content = Some VNull ∨
     (∃ deployment, parse content = Some deployment ∧
                    truthy (proxy_address deployment) = false) →
     r = (Exited 1, w)).
Proof.
  intros r. subst r. unfold main, registerDataDAO.
  cbv [try_catch mbind M_bind mret M_ret gets throw exit existsSync readFileSync].
  split.
  - intros Hfile. now rewrite Hfile.
  - intros content Hfile Hcases. rewrite Hfile.
    cbn -[proxy_address getDlpId register_new save_deployment registered].
    rewrite Hfile.
    destruct Hcases as [-> | [-> | (deployment & -> & Hproxy)]]; try reflexivity.
    destruct deployment; try reflexivity;
      cbn -[proxy_address getDlpId register_new save_deployment registered];
      now rewrite Hproxy.
Qed.

(** X21: The prompt for the dlpId is asked again until the input parses to a
    positive integer: it returns the number [parseInt] makes of the first
    such input, every input before it was refused, and the answers after it
    are still pending; when no input is acceptable it never returns. *)
Theorem ask_dlpId_accepts_first_positive (pending : list value) (w : world) :
  let accepted input :=
    match parseInt (template input) with
    | Some num => (0 <? num)%Z
    | None => false
    end in
  match List.find accepted pending with
  | Some input =>
      ∃ before after num w',
        pending = before ++ input :: after ∧
        (∀ refused, refused ∈ before → accepted refused = false) ∧
        parseInt (template input) = Some num ∧ (0 < num)%Z ∧
        ask_dlpId pending w = (Returned num, w') ∧
        answers w' = after ∧ trace w' = trace w ∧ files w' = files w
  | None => fst (ask_dlpId pending w) = Thrown prompt_closed
  end.
Proof.
  intros accepted. revert w. induction pending as [|input rest IH]; intros w.
  - reflexivity.
  - cbn [List.find]. destruct (accepted input) eqn:Hinput.
    + unfold accepted in Hinput.
      destruct (parseInt (template input)) as [num|] eqn:Hparse; [|discriminate].
      exists [], rest, num. eexists. split; [reflexivity|].
      split; [intros refused Hin; now apply elem_of_nil in Hin|].
      split; [reflexivity|]. split; [now apply Z.ltb_lt|].
      cbn [ask_dlpId]. cbv [mbind M_bind modify]. rewrite Hparse, Hinput.
      repeat split.
    + assert (Hstep : ask_dlpId (input :: rest) w = ask_dlpId rest (set_answers rest w)).
      { cbn [ask_dlpId]. cbv [mbind M_bind modify]. unfold accepted in Hinput.
        destruct (parseInt (template input)) as [num|]; [now rewrite Hinput | reflexivity]. }
      rewrite Hstep. specialize (IH (set_answers rest w)).
      destruct (List.find accepted rest) as [found|]; [|exact IH].
      destruct IH as (before & after & num & w' & -> & Hbefore & Hparse & Hpos
                      & Hrun & Hanswers & Htrace & Hfiles).
      exists (input :: before), after, num, w'. split; [reflexivity|].
      split.
      { intros refused Hin. apply elem_of_cons in Hin as [->|Hin]; auto. }
      repeat split; assumption.
Qed.

End Outcomes.

(** *** The environment files of the setup script ([generateEnvFiles]) *)

Section Setup.

(** [JSON.stringify(_, null, 2)], [Date.now()] and
    [Math.random().toString(36).substring(2, 8)] *)
Variable stringify : value → string.
Variable now : Z.
Variable random_suffix : string.

Definition contractsEnv (config : value) : string :=
  "DEPLOYER_PRIVATE_KEY=" +:+ StateManager.template (prop config "privateKey") +:+ nl +:+
  "OWNER_ADDRESS=" +:+ StateManager.template (prop config "address") +:+ nl +:+
  "DLP_NAME=" +:+ StateManager.template (prop config "dlpName") +:+ nl +:+
  "DLP_PUBLIC_KEY=" +:+ StateManager.template (prop config "publicKey") +:+ nl +:+
  "DLP_TOKEN_NAME=" +:+ StateManager.template (prop config "tokenName") +:+ nl +:+
  "DLP_TOKEN_SYMBOL=" +:+ StateManager.template (prop config "tokenSymbol") +:+ nl +:+
  "DLP_TOKEN_SALT=" +:+ StateManager.template (prop config "tokenSymbol") +:+ "-"
    +:+ pretty now +:+ "-" +:+ random_suffix +:+ nl.

Definition refinerEnv (config : value) : string :=
  "# Will be populated with refinement encryption key after DataDAO registration" +:+ nl +:+
  "PINATA_API_KEY=" +:+ StateManager.template (prop config "pinataApiKey") +:+ nl +:+
  "PINATA_API_SECRET=" +:+ StateManager.template (prop config "pinataApiSecret") +:+ nl.

Definition uiEnv (config : value) : string :=
  "# Will be populated with additional values after deployment" +:+ nl +:+
  "GOOGLE_CLIENT_ID=" +:+ StateManager.template (prop config "googleClientId") +:+ nl +:+
  "GOOGLE_CLIENT_SECRET=" +:+ StateManager.template (prop config "googleClientSecret") +:+ nl +:+
  "PINATA_API_KEY=" +:+ StateManager.template (prop config "pinataApiKey") +:+ nl +:+
  "PINATA_API_SECRET=" +:+ StateManager.template (prop config "pinataApiSecret") +:+ nl +:+
  "REFINEMENT_ENDPOINT=https://a7df0ae43df690b889c1201546d7058ceb04d21b-8000.dstack-prod5.phala.network"
    +:+ nl.

(** The object written to [deployment.json]. *)
Definition initial_deployment (config : value) : value :=
  VObj (<["dlpName" := prop config "dlpName"]>
       (<["tokenName" := prop config "tokenName"]>
       (<["tokenSymbol" := prop config "tokenSymbol"]>
       (<["address" := prop config "address"]>
       (<["publicKey" := prop config "publicKey"]> ∅))))).

Definition copyFileSync (src dst : string) : M world unit :=
  content ← readFileSync src;
  writeFileSync dst content.

(** [if (fs.existsSync(example)) { fs.copyFileSync(example, backup) }] *)
Definition backup_example (example backup : string) : M world unit :=
  there ← existsSync example;
  if (there : bool) then copyFileSync example backup else mret tt.

(** [generateEnvFiles(config)] *)
Definition generateEnvFiles (config : value) : M world unit :=
  writeFileSync "contracts/.env" (contractsEnv config);;
  writeFileSync "refiner/.env" (refinerEnv config);;
  writeFileSync "ui/.env" (uiEnv config);;
  backup_example "contracts/.env.example" "contracts/.env.example.backup";;
  backup_example "ui/.env.example" "ui/.env.example.backup";;
  writeFileSync "deployment.json" (stringify (initial_deployment config)).

Lemma search_here {A} (at_start : string → option A) s a :
  at_start s = Some a → search at_start s = Some a.
Proof. intros H. destruct s; simpl; now rewrite H. Qed.

Lemma take_while_stop p key c rest :
  all_chars p key = true → p c = false →
  take_while p (key +:+ String c rest) = key.
Proof.
  intros Hkey Hc. induction key as [|x key IH].
  - simpl. now rewrite Hc.
  - simpl in Hkey. apply andb_true_iff in Hkey as [Hx Hkey].
    change (String x key +:+ String c rest) with (String x (key +:+ String c rest)).
    cbn [take_while]. rewrite Hx. now rewrite IH.
Qed.

Lemma contractsEnv_key config key :
  prop config "privateKey" = VStr key →
  key ≠ EmptyString →
  all_chars (λ c, negb (is_newline c)) key = true →
  match_private_key (contractsEnv config) = Some key.
Proof.
  intros Hprop Hne Hline. unfold match_private_key. apply search_here.
  unfold private_key_at, contractsEnv. rewrite lit_append, Hprop.
  change (StateManager.template (VStr key)) with key.
  unfold nl at 1.
  change (String (ascii_of_nat 10) EmptyString +:+ ?rest)
    with (String (ascii_of_nat 10) rest).
  rewrite take_while_stop by (assumption || reflexivity).
  destruct key; [contradiction | reflexivity].
Qed.

Lemma writeFileSync_run p content w :
  write_fails w = false →
  writeFileSync p content w =
    (Returned tt,
     set_trace (trace w ++ [WriteFile p content])
       (set_files (<[p := content]> (files w)) w)).
Proof. intros H. unfold writeFileSync. now rewrite H. Qed.

(** X22: The private key that the setup script writes to [contracts/.env] is the
    one the registration reads back from it: for a key that is not empty and
    holds no line break, [generateEnvFiles] returns (on a disk that accepts
    writes), the file it leaves matches [/DEPLOYER_PRIVATE_KEY=(.+)/] with
    exactly the key captured, and [deployment.json] holds the five public
    fields of the configuration, so neither the private key nor a [state]. *)
Theorem generated_key_is_read_back (config : value) (key : string) (w : world) :
  prop config "privateKey" = VStr key →
  key ≠ EmptyString →
  all_chars (λ c, negb (is_newline c)) key = true →
  write_fails w = false →
  ∃ w',
    generateEnvFiles config w = (Returned tt, w') ∧
    files w' !! "contracts/.env" = Some (contractsEnv config) ∧
    match_private_key (contractsEnv config) = Some key ∧
    files w' !! "deployment.json" = Some (stringify (initial_deployment config)) ∧
    prop (initial_deployment config) "privateKey" = VUndefined ∧
    prop (initial_deployment config) "state" = VUndefined ∧
    replies w' = replies w ∧ answers w' = answers w.
Proof.
  intros Hprop Hne Hline Hdisk.
  assert (Hkey := contractsEnv_key config key Hprop Hne Hline).
  unfold generateEnvFiles.
  assert (Hcopy : ∀ src dst w0, write_fails w0 = false →
            ∃ w1, backup_example src dst w0 = (Returned tt, w1) ∧
                  write_fails w1 = false ∧ replies w1 = replies w0 ∧
                  answers w1 = answers w0 ∧
                  ∀ p, p ≠ dst → files w1 !! p = files w0 !! p).
  { intros src dst w0 Hw0. unfold backup_example, copyFileSync.
    cbv [mbind M_bind mret M_ret gets existsSync readFileSync].
    destruct (files w0 !! src) as [content|] eqn:Hsrc; cbn.
    - rewrite Hsrc. rewrite writeFileSync_run by exact Hw0.
      eexists. split; [reflexivity|]. repeat split; try assumption.
      intros p Hp. simpl. now rewrite lookup_insert_ne.
    - exists w0. repeat split; assumption. }
  unfold mbind at 1, M_bind at 1. rewrite writeFileSync_run by exact Hdisk.
  set (w1 := set_trace _ _).
  unfold mbind at 1, M_bind at 1. rewrite writeFileSync_run by exact Hdisk.
  set (w2 := set_trace _ _).
  unfold mbind at 1, M_bind at 1. rewrite writeFileSync_run by exact Hdisk.
  set (w3 := set_trace _ _).
  assert (H3 : write_fails w3 = false) by exact Hdisk.
  destruct (Hcopy "contracts/.env.example" "contracts/.env.example.backup" w3 H3)
    as (w4 & Hrun4 & H4 & Hr4 & Ha4 & Hf4).
  destruct (Hcopy "ui/.env.example" "ui/.env.example.backup" w4 H4)
    as (w5 & Hrun5 & H5 & Hr5 & Ha5 & Hf5).
  unfold mbind at 1, M_bind at 1. rewrite Hrun4.
  unfold mbind at 1, M_bind at 1. rewrite Hrun5.
  rewrite writeFileSync_run by exact H5.
  eexists. split; [reflexivity|]. cbn [files set_trace set_files replies answers].
  split.
  { rewrite lookup_insert_ne by discriminate.
    rewrite Hf5, Hf4 by discriminate. unfold w3, w2, w1.
    cbn [files set_trace set_files].
    rewrite !lookup_insert_ne by discriminate. apply lookup_insert_eq. }
  split; [exact Hkey|]. split; [apply lookup_insert_eq|].
  split; [reflexivity|]. split; [reflexivity|].
  split; [now rewrite Hr5, Hr4 | now rewrite Ha5, Ha4].
Qed.

End Setup.

(** A configuration as the setup prompts collect it, and an empty project. *)
Definition demo_config : value :=
  VObj (<["privateKey" := VStr "0xabc"]> (<["dlpName" := VStr "Streamint"]> ∅)).

Definition empty_project : world := World ∅ false false [] [] [].


Lemma generated_key_is_read_back_witness :
  ∃ w',
    generateEnvFiles StateManager.demo_stringify 0 "k3x9qz" demo_config empty_project
      = (Returned tt, w') ∧
    match_private_key (contractsEnv 0 "k3x9qz" demo_config) = Some "0xabc".
Proof.
  assert (H1 : prop demo_config "privateKey" = VStr "0xabc") by reflexivity.
  assert (H2 : "0xabc" ≠ EmptyString) by discriminate.
  assert (H3 : all_chars (λ c, negb (is_newline c)) "0xabc" = true) by reflexivity.
  assert (H4 : write_fails empty_project = false) by reflexivity.
  destruct (generated_key_is_read_back StateManager.demo_stringify 0 "k3x9qz"
              demo_config "0xabc" empty_project H1 H2 H3 H4)
    as (w' & Hrun & _ & Hkey & _).
  exists w'. split; [exact Hrun | exact Hkey].
Defined.

(** C5: the retry loops are bounded polls with a fixed pause.
    [pollEncryptionKey] makes at most [maxAttempts] (60 by default) reads of
    the contract, with one sleep of 30 seconds between two consecutive reads;
    it returns the first non-empty key read, or [null] when every attempt
    threw or gave the empty string; as a function it has a result for every
    behaviour of the chain.  The detection loop of the manual registration
    makes at most 10 reads, each fruitless one followed by a sleep of 3
    seconds, and returns. *)
Theorem C5_bounded_polling :
  (∀ chain dlpId maxAttempts,
     let r := DeployRefiner.pollEncryptionKey chain dlpId maxAttempts in
     (DeployRefiner.reads (snd r) ≤ Z.to_nat maxAttempts)%nat ∧
     DeployRefiner.effects (snd r) =
       DeployRefiner.schedule (DeployRefiner.ReadContract "dlpPubKeys" dlpId) 30000
         (DeployRefiner.reads (snd r)) ∧
     match fst r with
     | Some key =>
         ∃ j, (j < Z.to_nat maxAttempts)%nat ∧
           chain j = DeployRefiner.ReadReturns key ∧ key ≠ EmptyString ∧
           (∀ k, (k < j)%nat → DeployRefiner.fruitless (chain k)) ∧
           DeployRefiner.reads (snd r) = S j
     | None =>
         (∀ k, (k < Z.to_nat maxAttempts)%nat → DeployRefiner.fruitless (chain k)) ∧
         DeployRefiner.reads (snd r) = Z.to_nat maxAttempts
     end) ∧
  Z.to_nat DeployRefiner.default_maxAttempts = 60%nat ∧
  (∀ dlpProxyAddress w,
     ∃ k found w',
       detect 10 dlpProxyAddress 0 w = (Returned found, w') ∧
       trace w' = trace w ++ rounds dlpProxyAddress k
                    ++ (if (0 <? found)%Z
                        then [ReadContract "dlpIds" dlpProxyAddress] else []) ∧
       (k + (if (0 <? found)%Z then 1 else 0) ≤ 10)%nat ∧
       ((found ≤ 0)%Z → k = 10%nat)).
Proof.
  split; [|split; [reflexivity|]].
  - intros chain dlpId maxAttempts. unfold DeployRefiner.pollEncryptionKey.
    assert (Hres := DeployRefiner.poll_from_result chain dlpId maxAttempts
                      (Z.to_nat maxAttempts) 0 ltac:(lia)).
    assert (Hsched : DeployRefiner.effects
                       (snd (DeployRefiner.poll_from chain dlpId maxAttempts
                               (Z.to_nat maxAttempts) 0)) =
                     DeployRefiner.schedule (DeployRefiner.ReadContract "dlpPubKeys" dlpId)
                       30000
                       (DeployRefiner.reads
                          (snd (DeployRefiner.poll_from chain dlpId maxAttempts
                                  (Z.to_nat maxAttempts) 0)))).
    { destruct (Z_le_gt_dec 0 maxAttempts) as [Hpos|Hneg].
      - apply DeployRefiner.poll_from_schedule. lia.
      - replace (Z.to_nat maxAttempts) with 0%nat by lia. reflexivity. }
    destruct (DeployRefiner.poll_from chain dlpId maxAttempts (Z.to_nat maxAttempts) 0)
      as [r t]. simpl in *.
    change (DeployRefiner.reads
              (DeployRefiner.Log ("🔑 Polling for encryption key (dlpId: "
                                  +:+ pretty dlpId +:+ ")...")
               :: DeployRefiner.Log
                    "This usually takes a few minutes after DataDAO registration." :: t))
      with (DeployRefiner.reads t).
    change (DeployRefiner.effects
              (DeployRefiner.Log ("🔑 Polling for encryption key (dlpId: "
                                  +:+ pretty dlpId +:+ ")...")
               :: DeployRefiner.Log
                    "This usually takes a few minutes after DataDAO registration." :: t))
      with (DeployRefiner.effects t).
    split; [|split; [exact Hsched | exact Hres]].
    destruct r as [key|].
    + destruct Hres as (j & Hj & _ & _ & _ & Hreads). lia.
    + destruct Hres as [_ Hreads]. lia.
  - intros dlpProxyAddress w.
    destruct (detect_run 10 dlpProxyAddress 0 w ltac:(lia))
      as (k & found & w' & Hrun & Htrace & Hk & Hall & _).
    exists k, found, w'. auto.
Qed.

(** *** Concrete runs *)

Definition demo_deployment : value :=
  VObj (<["proxyAddress" := VStr "0x1111111111111111111111111111111111111111"]>
       (<["address" := VStr "0x2222222222222222222222222222222222222222"]>
       (<["dlpName" := VStr "Streamint"]> ∅))).

Definition demo_parse (content : string) : option value := Some demo_deployment.

Definition demo_balance_below_minimum (balance : Z) : bool :=
  (balance <? 1100000000000000000)%Z.

Definition demo_privateKeyToAccount (key : string) : value + string :=
  inl (VStr "0x2222222222222222222222222222222222222222").


(** Quick mode, a funded wallet, and a [registerDlp] call that reverts with
    the error [InvalidName()]. *)
Definition name_conflict_world : world :=
  World {[ "contracts/.env" := "DEPLOYER_PRIVATE_KEY=0xabc" ]} false true
        [Replies (VNum 2000000000000000000);
         Fails "execution reverted: InvalidName()"] [] [].




(** C6, where the code departs from it: a registration that fails with a
    name conflict reaches the branch of the handler that mentions
    [dlpProxyAddress], a constant of the [try] block; the handler throws a
    [ReferenceError] there, after the headline of the category, and neither
    prints recovery steps nor re-throws the error of the registration. *)
Theorem C6_name_conflict_handler_throws :
  performAutomatedRegistration StateManager.demo_stringify demo_balance_below_minimum
    demo_privateKeyToAccount demo_deployment true name_conflict_world
  = (Thrown (Error "ReferenceError" "dlpProxyAddress is not defined"),
     World {[ "contracts/.env" := "DEPLOYER_PRIVATE_KEY=0xabc" ]} false true [] []
       [GetBalance (VStr "0x2222222222222222222222222222222222222222");
        WriteContract "registerDlp"
          (VObj (<["dlpAddress" := VStr "0x1111111111111111111111111111111111111111"]>
                (<["ownerAddress" := VStr "0x2222222222222222222222222222222222222222"]>
                (<["treasuryAddress" := VStr "0x2222222222222222222222222222222222222222"]>
                (<["name" := VStr "Streamint"]>
                (<["iconUrl" := VStr EmptyString]>
                (<["website" := VStr EmptyString]>
                (<["metadata" := VStr EmptyString]> ∅))))))))
          one_vana;
        ConsoleError "Registration failed: execution reverted: InvalidName()";
        ConsoleError (nl +:+ "💡 DataDAO name conflict detected")]).
Proof. vm_compute. reflexivity. Qed.

End Register.

(** ** The contribution flow of the web application
       ([useContributionFlow], [useAddFile], [useRewardClaim],
       [useDataUpload], [extractFileIdFromReceipt]) *)

Module Contribution.
Import JS.

Record UploadResponse := {
  downloadUrl : string;
  vanaFileId : string
}.

(** A transaction receipt: its hash and block number, the number of its
    logs, and the file ids of the [FileAdded] events that viem's
    [parseEventLogs] finds among them. *)
Record TransactionReceipt := {
  transactionHash : string;
  blockNumber : option Z;
  logs : nat;
  fileAddedEvents : list Z
}.

Record ProofResult := {
  proof_fileId : Z;
  jobId : Z;
  proofData : value;
  txHash : string
}.

(** What an awaited call of a library or a remote service does: it resolves
    or it rejects.  A rejection with a value that is not an [Error] carries
    the empty [name]. *)
Inductive reply (A : Type) :=
| Gives (a : A)
| Rejects (e : error).

Arguments Gives {A} a.
Arguments Rejects {A} e.

Definition instanceof_Error (e : error) : bool :=
  negb (String.eqb (name e) EmptyString).

(** The surroundings of one run of the flow. *)
Record services := {
  signMessageAsync : reply string;
  accessToken : option string;                       (* session?.accessToken *)
  uploadUserData : reply (option UploadResponse);
  getDlpPublicKey : reply string;
  encryptWithWalletPublicKey : reply string;
  walletAddress : option string;                     (* useAccount().address *)
  addFile_write : reply string;                      (* writeContractAsync *)
  addFile_wait : reply TransactionReceipt;           (* waitForTransactionReceipt *)
  contractError : option string;                     (* as the closure captured it *)
  requestContributionProof : reply ProofResult;
  refine : reply value;
  reward_write : reply string;
  reward_wait : reply TransactionReceipt
}.

(** The state of the hook. *)
Record flow := {
  isSuccess : bool;
  error : option string;
  currentStep : nat;
  completedSteps : list nat;
  contributionData : option (gmap string value);
  shareUrl : string
}.

(** The state and the services called so far, by name. *)
Record world := World {
  state : flow;
  calls : list string
}.

Definition initial : flow :=
  {| isSuccess := false; error := None; currentStep := 0; completedSteps := [];
     contributionData := None; shareUrl := EmptyString |}.

Definition STEPS_UPLOAD_DATA : nat := 1.
Definition STEPS_BLOCKCHAIN_REGISTRATION : nat := 2.
Definition STEPS_REQUEST_TEE_PROOF : nat := 3.
Definition STEPS_PROCESS_PROOF : nat := 4.
Definition STEPS_CLAIM_REWARD : nat := 5.

Definition update (f : flow → flow) : M world unit :=
  modify (λ w, World (f (state w)) (calls w)).

Definition setIsSuccess (b : bool) : M world unit :=
  update (λ s, {| isSuccess := b; error := error s; currentStep := currentStep s;
                  completedSteps := completedSteps s;
                  contributionData := contributionData s; shareUrl := shareUrl s |}).

Definition setError (e : option string) : M world unit :=
  update (λ s, {| isSuccess := isSuccess s; error := e; currentStep := currentStep s;
                  completedSteps := completedSteps s;
                  contributionData := contributionData s; shareUrl := shareUrl s |}).

Definition setCurrentStep (n : nat) : M world unit :=
  update (λ s, {| isSuccess := isSuccess s; error := error s; currentStep := n;
                  completedSteps := completedSteps s;
                  contributionData := contributionData s; shareUrl := shareUrl s |}).

Definition setShareUrl (u : string) : M world unit :=
  update (λ s, {| isSuccess := isSuccess s; error := error s; currentStep := currentStep s;
                  completedSteps := completedSteps s;
                  contributionData := contributionData s; shareUrl := u |}).

(** [markStepComplete(step)]: [setCompletedSteps((prev) => [...prev, step])] *)
Definition markStepComplete (step : nat) : M world unit :=
  update (λ s, {| isSuccess := isSuccess s; error := error s; currentStep := currentStep s;
                  completedSteps := completedSteps s ++ [step];
                  contributionData := contributionData s; shareUrl := shareUrl s |}).

(** [updateContributionData(newData)] *)
Definition updateContributionData (newData : gmap string value) : M world unit :=
  update (λ s, {| isSuccess := isSuccess s; error := error s; currentStep := currentStep s;
                  completedSteps := completedSteps s;
                  contributionData :=
                    Some (match contributionData s with
                          | None => newData
                          | Some prev => newData ∪ prev
                          end);
                  shareUrl := shareUrl s |}).

(** [resetFlow()] *)
Definition resetFlow : M world unit := update (λ _, initial).

(** An awaited call: it is noted, then resolves or rejects. *)
Definition await {A} (service : string) (r : reply A) : M world A :=
  modify (λ w, World (state w) (calls w ++ [service]));;
  match r with
  | Gives a => mret a
  | Rejects e => throw e
  end.

(** The [finally] blocks of the hooks only reset their loading flags, which
    are not part of the model. *)

Section Flow.

Variable sv : services.

(** [uploadData] of [useDataUpload] *)
Definition uploadData : M world (option UploadResponse) :=
  match accessToken sv with
  | None | Some EmptyString => throw (new_Error "No access token available")
  | Some _ => await "uploadUserData" (uploadUserData sv)
  end.

(** [addFile] of [useAddFile]: [null] whenever anything throws. *)
Definition addFile : M world (option TransactionReceipt) :=
  try_catch
    (hash ← await "addFileWithPermissions" (addFile_write sv);
     txReceipt ← await "waitForTransactionReceipt" (addFile_wait sv);
     mret (Some txReceipt))
    (λ _, mret None).

(** [requestReward] of [useRewardClaim]: [null] whenever anything throws. *)
Definition requestReward : M world (option TransactionReceipt) :=
  try_catch
    (match walletAddress sv with
     | None | Some EmptyString => throw (new_Error "Wallet not connected")
     | Some _ =>
         hash ← await "requestReward" (reward_write sv);
         txReceipt ← await "waitForTransactionReceipt" (reward_wait sv);
         mret (Some txReceipt)
     end)
    (λ _, mret None).

(** [extractFileIdFromReceipt(receipt)] *)
Definition extractFileIdFromReceipt (receipt : TransactionReceipt) : M world Z :=
  try_catch
    (if (logs receipt =? 0)%nat
     then throw (new_Error "Transaction receipt has no logs")
     else
       match fileAddedEvents receipt with
       | [] => throw (new_Error "No FileAdded event found in transaction receipt")
       | fileId :: _ => mret fileId
       end)
    (λ _, throw (new_Error "Failed to extract file ID from transaction receipt")).

(** Step 0 *)
Definition executeSignMessageStep : M world (option string) :=
  try_catch
    (signature ← await "signMessageAsync" (signMessageAsync sv);
     mret (Some signature))
    (λ _, setError (Some "Failed to sign the message. Please try again.");;
          mret None).

(** Step 1 *)
Definition executeUploadDataStep : M world (option UploadResponse) :=
  setCurrentStep STEPS_UPLOAD_DATA;;
  uploadResult ← uploadData;
  match uploadResult with
  | None =>
      setError (Some "Failed to upload data to Google Drive");;
      mret None
  | Some result =>
      setShareUrl (downloadUrl result);;
      markStepComplete STEPS_UPLOAD_DATA;;
      mret (Some result)
  end.

(** Step 2: [None] stands for [{ fileId: null }]. *)
Definition executeBlockchainRegistrationStep
    : M world (option (Z * TransactionReceipt * string)) :=
  setCurrentStep STEPS_BLOCKCHAIN_REGISTRATION;;
  publicKey ← await "getDlpPublicKey" (getDlpPublicKey sv);
  encryptedKey ← await "encryptWithWalletPublicKey" (encryptWithWalletPublicKey sv);
  txReceipt ← addFile;
  match txReceipt with
  | None =>
      match contractError sv with
      | Some ce =>
          if negb (String.eqb ce EmptyString)
          then setError (Some ("Contract error: " +:+ ce))
          else setError (Some "Failed to add file to blockchain")
      | None => setError (Some "Failed to add file to blockchain")
      end;;
      mret None
  | Some receipt =>
      fileId ← extractFileIdFromReceipt receipt;
      markStepComplete STEPS_BLOCKCHAIN_REGISTRATION;;
      mret (Some (fileId, receipt, encryptedKey))
  end.

(** Step 3 *)
Definition executeTeeProofStep : M world ProofResult :=
  setCurrentStep STEPS_REQUEST_TEE_PROOF;;
  proofResult ← await "requestContributionProof" (requestContributionProof sv);
  updateContributionData {[ "teeJobId" := VNum (jobId proofResult) ]};;
  markStepComplete STEPS_REQUEST_TEE_PROOF;;
  mret proofResult.

(** Step 4 *)
Definition executeProcessProofStep (proofResult : ProofResult) : M world value :=
  setCurrentStep STEPS_PROCESS_PROOF;;
  updateContributionData {[ "teeProofData" := proofData proofResult ]};;
  try_catch
    (refinementResult ← await "refine" (refine sv);
     markStepComplete STEPS_PROCESS_PROOF;;
     mret refinementResult)
    (λ refineError, throw refineError).

(** Step 5 *)
Definition executeClaimRewardStep : M world (option TransactionReceipt) :=
  setCurrentStep STEPS_CLAIM_REWARD;;
  rewardResult ← requestReward;
  updateContributionData
    {[ "rewardTxHash" := match rewardResult with
                         | Some receipt => VStr (transactionHash receipt)
                         | None => VUndefined
                         end ]};;
  markStepComplete STEPS_CLAIM_REWARD;;
  mret rewardResult.

(** Steps 3 to 5 *)
Definition executeProofAndRewardSteps : M world unit :=
  try_catch
    (proofResult ← executeTeeProofStep;
     executeProcessProofStep proofResult;;
     executeClaimRewardStep;;
     mret tt)
    (λ proofErr,
       setError (Some (if instanceof_Error proofErr then message proofErr
                       else "Failed to process TEE proof or claim reward"))).

(** [handleContributeData(userInfo, driveInfo, isConnected)] *)
Definition handleContributeData (userInfo : bool) (isConnected : bool) : M world unit :=
  if negb userInfo
  then setError (Some "Unable to access user information. Please try again.")
  else
    try_catch
      (setError None;;
       signature ← executeSignMessageStep;
       match signature with
       | None | Some EmptyString => mret tt
       | Some _ =>
           uploadResult ← executeUploadDataStep;
           match uploadResult with
           | None => mret tt
           | Some uploadResult =>
               if negb isConnected
               then setError (Some "Wallet connection required to register on blockchain")
               else
                 registration ← executeBlockchainRegistrationStep;
                 match registration with
                 | None => mret tt
                 | Some (fileId, txReceipt, encryptedKey) =>
                     if (fileId =? 0)%Z then mret tt
                     else
                       updateContributionData
                         (<["contributionId" := VStr (vanaFileId uploadResult)]>
                          (<["encryptedUrl" := VStr (downloadUrl uploadResult)]>
                          (<["transactionReceipt" :=
                               VObj (<["hash" := VStr (transactionHash txReceipt)]>
                                    (<["blockNumber" :=
                                         match blockNumber txReceipt with
                                         | Some n => if (n =? 0)%Z then VUndefined else VNum n
                                         | None => VUndefined
                                         end]> ∅))]>
                          (<["fileId" := VNum fileId]> ∅))));;
                       executeProofAndRewardSteps;;
                       setIsSuccess true
                 end
           end
       end)
      (λ e,
         setError (Some (if instanceof_Error e then message e
                         else "Failed to process your contribution. Please try again."))).

End Flow.

(** *** A run whose reward claim fails *)

Definition demo_receipt : TransactionReceipt :=
  {| transactionHash := "0xfeed"; blockNumber := Some 12%Z; logs := 1;
     fileAddedEvents := [42%Z] |}.

(** Every service answers, except that the wallet rejects the
    [requestReward] transaction. *)
Definition reward_rejected : services :=
  {| signMessageAsync := Gives "0xsigned";
     accessToken := Some "token";
     uploadUserData :=
       Gives (Some {| downloadUrl := "https://drive.example/file";
                      vanaFileId := "vana_submission_1_file" |});
     getDlpPublicKey := Gives "0x04ab";
     encryptWithWalletPublicKey := Gives "0102";
     walletAddress := Some "0x2222222222222222222222222222222222222222";
     addFile_write := Gives "0xhash";
     addFile_wait := Gives demo_receipt;
     contractError := None;
     requestContributionProof :=
       Gives {| proof_fileId := 42%Z; jobId := 7%Z; proofData := VNull; txHash := "0xproof" |};
     refine := Gives VNull;
     reward_write := Rejects (Error "Error" "User rejected the request.");
     reward_wait := Gives demo_receipt |}.

(** C4, where the code departs from it: when the reward claim fails,
    [requestReward] swallows the error and returns [null], and step 5 is
    marked complete all the same: the flow ends with every step in
    [completedSteps], no error and [isSuccess] set, although the reward
    transaction was rejected and never awaited. *)
Theorem C4_failed_reward_marked_complete :
  let start := World initial [] in
  let final := snd (handleContributeData reward_rejected true true start) in
  fst (requestReward reward_rejected start) = Returned None ∧
  calls final =
    ["signMessageAsync"; "uploadUserData"; "getDlpPublicKey";
     "encryptWithWalletPublicKey"; "addFileWithPermissions";
     "waitForTransactionReceipt"; "requestContributionProof"; "refine";
     "requestReward"] ∧
  completedSteps (state final) = [1; 2; 3; 4; 5]%nat ∧
  error (state final) = None ∧
  isSuccess (state final) = true.
Proof. vm_compute. repeat split. Qed.

(** *** The order of the steps *)






Section Order.

Variable sv : services.


Ltac run_stage :=
  cbv [mbind M_bind mret M_ret throw try_catch await update modify
       setCurrentStep setError setShareUrl setIsSuccess markStepComplete
       updateContributionData uploadData addFile requestReward
       extractFileIdFromReceipt].













(** X24: A file id of zero is taken for a missing one.  When everything up to the
    registration succeeds and the first [FileAdded] event of the receipt
    carries the id 0, the run stops after step 2: no proof is requested, no
    error is set and [isSuccess] is not set either. *)
Theorem zero_file_id_stops_silently (w0 : world) (c1 c2 : ascii)
    (signature token publicKey encryptedKey hash : string)
    (uploadResult : UploadResponse) (receipt : TransactionReceipt) (rest : list Z) :
  signMessageAsync sv = Gives (String c1 signature) →
  accessToken sv = Some (String c2 token) →
  uploadUserData sv = Gives (Some uploadResult) →
  getDlpPublicKey sv = Gives publicKey →
  encryptWithWalletPublicKey sv = Gives encryptedKey →
  addFile_write sv = Gives hash →
  addFile_wait sv = Gives receipt →
  logs receipt ≠ 0%nat →
  fileAddedEvents receipt = 0%Z :: rest →
  let final := snd (handleContributeData sv true true w0) in
  fst (handleContributeData sv true true w0) = Returned tt ∧
  completedSteps (state final) = completedSteps (state w0) ++ [1; 2]%nat ∧
  calls final = calls w0 ++ ["signMessageAsync"; "uploadUserData"; "getDlpPublicKey";
                             "encryptWithWalletPublicKey"; "addFileWithPermissions";
                             "waitForTransactionReceipt"] ∧
  error (state final) = None ∧
  isSuccess (state final) = isSuccess (state w0).
Proof.
  intros Hsign Htoken Hupload Hkey Hencrypt Hwrite Hwait Hlogs Hevents final.
  subst final.
  unfold handleContributeData, executeSignMessageStep, executeUploadDataStep,
    executeBlockchainRegistrationStep.
  run_stage.
  rewrite Hsign, Htoken, Hupload, Hkey, Hencrypt, Hwrite, Hwait, Hevents.
  apply Nat.eqb_neq in Hlogs. rewrite Hlogs.
  cbn. rewrite <- !app_assoc. repeat split.
Qed.

(** X25: The hooks under the flow swallow their failures.  [addFile] and
    [requestReward] never throw: they return a receipt only when the
    transaction was sent and confirmed, [null] in every other case, and a
    transaction that was not sent is not waited for; neither touches the
    state of the flow.  [extractFileIdFromReceipt] returns the id of the
    first [FileAdded] event of a receipt that has logs, and in every other
    case throws one and the same error, whatever went wrong. *)
Theorem hooks_swallow_failures (w : world) (receipt : TransactionReceipt) :
  (∃ result awaited,
     addFile sv w = (Returned result, World (state w) (calls w ++ awaited)) ∧
     awaited `prefix_of` ["addFileWithPermissions"; "waitForTransactionReceipt"] ∧
     (∀ confirmed, result = Some confirmed →
        (∃ hash, addFile_write sv = Gives hash) ∧ addFile_wait sv = Gives confirmed) ∧
     ((∃ e, addFile_write sv = Rejects e) → awaited = ["addFileWithPermissions"])) ∧
  (∃ result awaited,
     requestReward sv w = (Returned result, World (state w) (calls w ++ awaited)) ∧
     awaited `prefix_of` ["requestReward"; "waitForTransactionReceipt"] ∧
     (∀ confirmed, result = Some confirmed →
        (∃ c address, walletAddress sv = Some (String c address)) ∧
        (∃ hash, reward_write sv = Gives hash) ∧ reward_wait sv = Gives confirmed) ∧
     ((∃ e, reward_write sv = Rejects e) → awaited `prefix_of` ["requestReward"])) ∧
  (extractFileIdFromReceipt receipt w =
     match (logs receipt =? 0)%nat, fileAddedEvents receipt with
     | false, fileId :: _ => (Returned fileId, w)
     | _, _ =>
         (Thrown (new_Error "Failed to extract file ID from transaction receipt"), w)
     end).
Proof.
  split; [|split].
  - unfold addFile. run_stage.
    destruct (addFile_write sv) as [hash|e]; [destruct (addFile_wait sv) as [r|e]|].
    + exists (Some r), ["addFileWithPermissions"; "waitForTransactionReceipt"].
      cbn. rewrite <- app_assoc. split; [reflexivity|]. split; [now eexists|]. split.
      * intros confirmed [= <-]. split; [now eexists | reflexivity].
      * intros [e' He']. discriminate.
    + exists None, ["addFileWithPermissions"; "waitForTransactionReceipt"].
      cbn. rewrite <- app_assoc. split; [reflexivity|]. split; [now eexists|]. split.
      * intros confirmed. discriminate.
      * intros [e' He']. discriminate.
    + exists None, ["addFileWithPermissions"].
      cbn. split; [reflexivity|]. split; [now eexists|]. split.
      * intros confirmed. discriminate.
      * reflexivity.
  - unfold requestReward. run_stage.
    destruct (walletAddress sv) as [[|c address]|].
    + exists None, []. cbn. rewrite app_nil_r. split; [now destruct w|].
      split; [now eexists|]. split; [intros confirmed; discriminate|].
      intros _. now eexists.
    + destruct (reward_write sv) as [hash|e]; [destruct (reward_wait sv) as [r|e]|].
      * exists (Some r), ["requestReward"; "waitForTransactionReceipt"].
        cbn. rewrite <- app_assoc. split; [reflexivity|]. split; [now eexists|].
        split; [|intros [e' He']; discriminate].
        intros confirmed [= <-]. repeat split; now eauto.
      * exists None, ["requestReward"; "waitForTransactionReceipt"].
        cbn. rewrite <- app_assoc. split; [reflexivity|]. split; [now eexists|].
        split; [intros confirmed; discriminate | intros [e' He']; discriminate].
      * exists None, ["requestReward"].
        cbn. split; [reflexivity|]. split; [now eexists|].
        split; [intros confirmed; discriminate | intros _; now eexists].
    + exists None, []. cbn. rewrite app_nil_r. split; [now destruct w|].
      split; [now eexists|]. split; [intros confirmed; discriminate|].
      intros _. now eexists.
  - unfold extractFileIdFromReceipt. run_stage.
    destruct (logs receipt =? 0)%nat; [reflexivity|].
    now destruct (fileAddedEvents receipt).
Qed.

End Order.

(** Services that all answer; the receipt of the registration carries the
    file id 0. *)
Definition zero_id_receipt : TransactionReceipt :=
  {| transactionHash := "0xfeed"; blockNumber := Some 12%Z; logs := 1;
     fileAddedEvents := [0%Z] |}.

Definition zero_id_services : services :=
  {| signMessageAsync := Gives "0xsigned";
     accessToken := Some "token";
     uploadUserData :=
       Gives (Some {| downloadUrl := "https://drive.example/file";
                      vanaFileId := "vana_submission_1_file" |});
     getDlpPublicKey := Gives "0x04ab";
     encryptWithWalletPublicKey := Gives "0102";
     walletAddress := Some "0x2222222222222222222222222222222222222222";
     addFile_write := Gives "0xhash";
     addFile_wait := Gives zero_id_receipt;
     contractError := None;
     requestContributionProof :=
       Gives {| proof_fileId := 0%Z; jobId := 7%Z; proofData := VNull; txHash := "0xproof" |};
     refine := Gives VNull;
     reward_write := Gives "0xreward";
     reward_wait := Gives zero_id_receipt |}.

Lemma zero_file_id_stops_silently_witness :
  let final := snd (handleContributeData zero_id_services true true (World initial [])) in
  completedSteps (state final) = [1; 2]%nat ∧
  error (state final) = None ∧
  isSuccess (state final) = false.
Proof.
  assert (H1 : signMessageAsync zero_id_services = Gives "0xsigned") by reflexivity.
  assert (H2 : accessToken zero_id_services = Some "token") by reflexivity.
  assert (H3 : uploadUserData zero_id_services
               = Gives (Some {| downloadUrl := "https://drive.example/file";
                                vanaFileId := "vana_submission_1_file" |}))
    by reflexivity.
  assert (H4 : getDlpPublicKey zero_id_services = Gives "0x04ab") by reflexivity.
  assert (H5 : encryptWithWalletPublicKey zero_id_services = Gives "0102") by reflexivity.
  assert (H6 : addFile_write zero_id_services = Gives "0xhash") by reflexivity.
  assert (H7 : addFile_wait zero_id_services = Gives zero_id_receipt) by reflexivity.
  assert (H8 : logs zero_id_receipt ≠ 0%nat) by discriminate.
  assert (H9 : fileAddedEvents zero_id_receipt = [0%Z]) by reflexivity.
  destruct (zero_file_id_stops_silently zero_id_services (World initial [])
              _ _ _ _ _ _ _ _ _ _ H1 H2 H3 H4 H5 H6 H7 H8 H9)
    as (_ & Hsteps & _ & Herror & Hsuccess).
  split; [exact Hsteps|]. split; [exact Herror | exact Hsuccess].
Defined.


End Contribution.

(** ** The encryption helper of the web application ([ui/lib/crypto/utils.ts]) *)

Module Crypto.
Import Text.

(** Bytes are integers from 0 to 255. *)
Definition hex_char (n : Z) : ascii :=
  match n with
  | 0 => "0" | 1 => "1" | 2 => "2" | 3 => "3" | 4 => "4" | 5 => "5" | 6 => "6"
  | 7 => "7" | 8 => "8" | 9 => "9" | 10 => "a" | 11 => "b" | 12 => "c"
  | 13 => "d" | 14 => "e" | _ => "f"
  end%Z%char.

(** [Buffer.from(bytes).toString("hex")] *)
Fixpoint to_hex (bs : list Z) : string :=
  match bs with
  | [] => EmptyString
  | b :: rest => String (hex_char (b / 16)) (String (hex_char (b mod 16)) (to_hex rest))
  end.

Definition hex_value (c : ascii) : option Z :=
  let n := code c in
  if ((48 <=? n) && (n <=? 57))%nat then Some (Z.of_nat n - 48)%Z
  else if ((97 <=? n) && (n <=? 102))%nat then Some (Z.of_nat n - 87)%Z
  else if ((65 <=? n) && (n <=? 70))%nat then Some (Z.of_nat n - 55)%Z
  else None.

(** [Buffer.from(s, "hex")]: pairs of digits, up to the first pair that is
    not hexadecimal; a last digit without partner is dropped. *)
Fixpoint from_hex (s : string) : list Z :=
  match s with
  | String a (String b rest) =>
      match hex_value a, hex_value b with
      | Some x, Some y => (16 * x + y)%Z :: from_hex rest
      | _, _ => []
      end
  | _ => []
  end.

(** [Buffer.from(s)]: the UTF-8 encoding of a string of code units below
    256. *)
Fixpoint utf8 (s : string) : list Z :=
  match s with
  | EmptyString => []
  | String c rest =>
      let n := Z.of_nat (code c) in
      if (n <? 128)%Z then n :: utf8 rest
      else (192 + n / 64)%Z :: (128 + n mod 64)%Z :: utf8 rest
  end.

(** The module variables [generatedIV] and [generatedEphemeralKey]. *)
Record module_state := {
  generatedIV : option (list Z);
  generatedEphemeralKey : option (list Z)
}.

Definition initial : module_state :=
  {| generatedIV := None; generatedEphemeralKey := None |}.

Record parameters := {
  iv : list Z;
  ephemeralKey : list Z;
  ivHex : string;
  ephemeralKeyHex : string
}.

Definition FIXED_IV : list Z :=
  [0x01; 0x02; 0x03; 0x04; 0x05; 0x06; 0x07; 0x08; 0x09; 0x0a; 0x0b; 0x0c;
   0x0d; 0x0e; 0x0f; 0x10]%Z.

Definition FIXED_EPHEMERAL_KEY : list Z :=
  [0x11; 0x22; 0x33; 0x44; 0x55; 0x66; 0x77; 0x88; 0x99; 0xaa; 0xbb; 0xcc;
   0xdd; 0xee; 0xff; 0x00; 0x10; 0x20; 0x30; 0x40; 0x50; 0x60; 0x70; 0x80;
   0x90; 0xa0; 0xb0; 0xc0; 0xd0; 0xe0; 0xf0; 0x00]%Z.

(** [getEncryptionParameters()]: the result and the module variables after
    the call. *)
Definition getEncryptionParameters (s : module_state) : parameters * module_state :=
  let s' :=
    match generatedIV s, generatedEphemeralKey s with
    | Some _, Some _ => s
    | _, _ => {| generatedIV := Some FIXED_IV;
                 generatedEphemeralKey := Some FIXED_EPHEMERAL_KEY |}
    end in
  let i := default [] (generatedIV s') in
  let k := default [] (generatedEphemeralKey s') in
  ({| iv := i; ephemeralKey := k; ivHex := to_hex i; ephemeralKeyHex := to_hex k |}, s').

(** What [eccrypto.encrypt] resolves to. *)
Record Encrypted := {
  enc_iv : list Z;
  ephemPublicKey : list Z;
  ciphertext : list Z;
  mac : list Z
}.

(** [s.startsWith("0x") ? s.slice(2) : s] *)
Definition strip_0x (s : string) : string :=
  match lit "0x" s with
  | Some rest => rest
  | None => s
  end.

(** [url.substring(url.lastIndexOf("/") + 1)]: what follows the last
    slash, the whole string when there is none. *)
Fixpoint includes_char (c : ascii) (s : string) : bool :=
  match s with
  | EmptyString => false
  | String d rest => Ascii.eqb c d || includes_char c rest
  end.

Fixpoint after_last_slash (s : string) : string :=
  match s with
  | EmptyString => EmptyString
  | String c rest =>
      if includes_char "/" rest then after_last_slash rest
      else if Ascii.eqb c "/" then rest
      else String c rest
  end.

Section Encrypt.

(** [eccrypto.encrypt(publicKeyTo, msg, { iv, ephemPrivateKey })] of the
    eccrypto library, called with both options supplied, where it draws no
    randomness; [None] is a rejected promise. *)
Variable eccrypto_encrypt : list Z → list Z → list Z → list Z → option Encrypted.

(** [encryptWithWalletPublicKey(data, publicKey)] *)
Definition encryptWithWalletPublicKey (data publicKey : string) (s : module_state)
    : option string * module_state :=
  let '(p, s') := getEncryptionParameters s in
  let publicKeyBytes := from_hex (strip_0x publicKey) in
  let uncompressedKey :=
    if (length publicKeyBytes =? 64)%nat then 4%Z :: publicKeyBytes else publicKeyBytes in
  (match eccrypto_encrypt uncompressedKey (utf8 data) (iv p) (ephemeralKey p) with
   | Some encryptedBuffer =>
       Some (to_hex (enc_iv encryptedBuffer ++ ephemPublicKey encryptedBuffer
                     ++ ciphertext encryptedBuffer ++ mac encryptedBuffer))
   | None => None
   end, s').

(** [formatVanaFileId(url, timestamp)] *)
Definition formatVanaFileId (url : string) (timestamp : Z) : string :=
  "vana_submission_" +:+ pretty timestamp +:+ "_" +:+ after_last_slash url.

(** The module variables after [n] calls of [getEncryptionParameters]
    (directly or through [encryptWithWalletPublicKey]). *)
Definition after_calls (n : nat) : module_state :=
  Nat.iter n (λ s, snd (getEncryptionParameters s)) initial.

Lemma after_calls_cases n :
  after_calls n = initial ∨
  after_calls n = {| generatedIV := Some FIXED_IV;
                     generatedEphemeralKey := Some FIXED_EPHEMERAL_KEY |}.
Proof.
  induction n as [|n IH]; [now left|]. right.
  change (after_calls (S n)) with (snd (getEncryptionParameters (after_calls n))).
  destruct IH as [-> | ->]; reflexivity.
Qed.

Lemma parameters_fixed n :
  fst (getEncryptionParameters (after_calls n)) =
    {| iv := FIXED_IV; ephemeralKey := FIXED_EPHEMERAL_KEY;
       ivHex := "0102030405060708090a0b0c0d0e0f10";
       ephemeralKeyHex :=
         "112233445566778899aabbccddeeff00102030405060708090a0b0c0d0e0f000" |}.
Proof. destruct (after_calls_cases n) as [-> | ->]; reflexivity. Qed.

(** C10: [getEncryptionParameters] returns the same hard-coded 16-byte IV
    and 32-byte ephemeral private key on every call, however often the
    module was used before, so [encryptWithWalletPublicKey] is deterministic:
    two invocations on the same data and public key give the same hex
    string (or both reject). *)
Theorem C10_fixed_parameters_deterministic_encryption :
  (∀ n,
     iv (fst (getEncryptionParameters (after_calls n))) = FIXED_IV ∧
     ephemeralKey (fst (getEncryptionParameters (after_calls n))) = FIXED_EPHEMERAL_KEY) ∧
  length FIXED_IV = 16%nat ∧
  length FIXED_EPHEMERAL_KEY = 32%nat ∧
  (∀ n m data publicKey,
     fst (encryptWithWalletPublicKey data publicKey (after_calls n)) =
     fst (encryptWithWalletPublicKey data publicKey (after_calls m))).
Proof.
  split; [|split; [reflexivity|split; [reflexivity|]]].
  - intros n. now rewrite parameters_fixed.
  - intros n m data publicKey. unfold encryptWithWalletPublicKey.
    assert (Hn := parameters_fixed n). assert (Hm := parameters_fixed m).
    destruct (getEncryptionParameters (after_calls n)) as [pn sn].
    destruct (getEncryptionParameters (after_calls m)) as [pm sm].
    simpl in Hn, Hm. subst pn pm. reflexivity.
Qed.

(** *** Hexadecimal text and key normalisation *)

Lemma hex_value_hex_char n : (0 ≤ n < 16)%Z → hex_value (hex_char n) = Some n.
Proof.
  intros Hn.
  assert (Hcases : (n = 0 ∨ n = 1 ∨ n = 2 ∨ n = 3 ∨ n = 4 ∨ n = 5 ∨ n = 6 ∨ n = 7 ∨
                    n = 8 ∨ n = 9 ∨ n = 10 ∨ n = 11 ∨ n = 12 ∨ n = 13 ∨ n = 14 ∨
                    n = 15)%Z) by lia.
  repeat (destruct Hcases as [-> | Hcases]; [reflexivity|]). now subst n.
Qed.

Lemma is_hex_hex_char n : is_hex (hex_char n) = true.
Proof.
  destruct n as [|p|p]; try reflexivity.
  do 4 (destruct p as [p|p|]; try reflexivity).
Qed.

(** A byte: an integer from 0 to 255. *)
Definition byte (b : Z) : Prop := (0 ≤ b < 256)%Z.

Lemma from_hex_to_hex (bs : list Z) : Forall byte bs → from_hex (to_hex bs) = bs.
Proof.
  intros Hbytes. induction Hbytes as [|b bs Hb _ IH]; [reflexivity|].
  cbn [to_hex from_hex]. unfold byte in Hb.
  assert (Hhigh : (0 ≤ b / 16 < 16)%Z)
    by (split; [apply Z.div_pos; lia | apply Z.div_lt_upper_bound; lia]).
  assert (Hlow : (0 ≤ b mod 16 < 16)%Z) by (apply Z.mod_pos_bound; lia).
  rewrite (hex_value_hex_char _ Hhigh), (hex_value_hex_char _ Hlow), IH.
  f_equal. symmetry. apply Z.div_mod. lia.
Qed.

Lemma strip_0x_to_hex (bs : list Z) : strip_0x (to_hex bs) = to_hex bs.
Proof.
  unfold strip_0x. destruct bs as [|b bs]; [reflexivity|].
  cbn [to_hex lit].
  destruct (Ascii.eqb "0" (hex_char (b / 16))); [|reflexivity].
  assert (Hx : Ascii.eqb "x" (hex_char (b mod 16)) = false).
  { destruct (b mod 16)%Z as [|p|p]; try reflexivity.
    do 4 (destruct p as [p|p|]; try reflexivity). }
  now rewrite Hx.
Qed.

(** X26: Hexadecimal text is a faithful encoding of bytes: decoding what
    [toString("hex")] printed gives the bytes back, the text has two digits
    per byte, all of them hexadecimal, and it never starts with [0x]. *)
Theorem hex_round_trip (bs : list Z) :
  Forall byte bs →
  from_hex (to_hex bs) = bs ∧
  String.length (to_hex bs) = (2 * length bs)%nat ∧
  all_chars is_hex (to_hex bs) = true ∧
  strip_0x (to_hex bs) = to_hex bs.
Proof.
  intros Hbytes. split; [|split; [|split]].
  - now apply from_hex_to_hex.
  - clear Hbytes. induction bs as [|b bs IH]; [reflexivity|].
    cbn [to_hex String.length length]. rewrite IH. lia.
  - clear Hbytes. induction bs as [|b bs IH]; [reflexivity|].
    cbn [to_hex all_chars]. now rewrite !is_hex_hex_char, IH.
  - apply strip_0x_to_hex.
Qed.

Lemma strip_0x_prefixed key : strip_0x ("0x" +:+ key) = key.
Proof. unfold strip_0x. now rewrite lit_append. Qed.

(** X27: The public key may be given with or without the [0x] prefix: for the
    hexadecimal text of a key both spellings are encrypted alike, and
    the library is called with the bytes of the key, preceded by the byte 4
    exactly when the key has 64 bytes. *)
Theorem public_key_normalised (data : string) (key : list Z) (s : module_state) :
  Forall byte key →
  let normalised := if (length key =? 64)%nat then 4%Z :: key else key in
  let p := fst (getEncryptionParameters s) in
  encryptWithWalletPublicKey data ("0x" +:+ to_hex key) s
    = encryptWithWalletPublicKey data (to_hex key) s ∧
  fst (encryptWithWalletPublicKey data (to_hex key) s)
    = match eccrypto_encrypt normalised (utf8 data) (iv p) (ephemeralKey p) with
      | Some e => Some (to_hex (enc_iv e ++ ephemPublicKey e ++ ciphertext e ++ mac e))
      | None => None
      end.
Proof.
  intros Hbytes normalised p. subst normalised p.
  unfold encryptWithWalletPublicKey.
  rewrite strip_0x_prefixed, strip_0x_to_hex, (from_hex_to_hex key Hbytes).
  destruct (getEncryptionParameters s) as [p s']. now split.
Qed.

End Encrypt.

(** A library that rejects every request. *)
Definition rejecting_encrypt (publicKey message iv ephemPrivateKey : list Z)
    : option Encrypted := None.

Lemma public_key_normalised_witness :
  encryptWithWalletPublicKey rejecting_encrypt "signature"
    ("0x" +:+ to_hex [4; 171]%Z) initial
  = encryptWithWalletPublicKey rejecting_encrypt "signature"
      (to_hex [4; 171]%Z) initial.
Proof.
  assert (H : Forall byte [4; 171]%Z) by (repeat constructor; unfold byte; lia).
  destruct (public_key_normalised rejecting_encrypt "signature" [4; 171]%Z initial H)
    as (Hsame & _).
  exact Hsame.
Defined.

Lemma hex_round_trip_witness :
  from_hex (to_hex [0; 15; 16; 255]%Z) = [0; 15; 16; 255]%Z.
Proof.
  assert (H : Forall byte [0; 15; 16; 255]%Z) by (repeat constructor; unfold byte; lia).
  destruct (hex_round_trip [0; 15; 16; 255]%Z H) as (Hdecode & _).
  exact Hdecode.
Defined.

(** *** The file id made of a download URL *)

Lemma includes_char_append c a b :
  includes_char c (a +:+ b) = includes_char c a || includes_char c b.
Proof.
  induction a as [|x a IH]; [reflexivity|].
  change (String x a +:+ b) with (String x (a +:+ b)). cbn [includes_char].
  now rewrite IH, orb_assoc.
Qed.

Lemma after_last_slash_plain s :
  includes_char "/" s = false → after_last_slash s = s.
Proof.
  induction s as [|c s IH]; [reflexivity|]. cbn [includes_char after_last_slash].
  intros H. apply orb_false_iff in H as [Hc Hs]. rewrite Hs.
  rewrite Ascii.eqb_sym, Hc. reflexivity.
Qed.

(** X28: [formatVanaFileId] keeps the part of the URL after its last slash: the
    name it appends holds no slash, it is the last segment of a URL with
    slashes and the whole URL when there is none. *)
Theorem file_id_keeps_last_segment (url : string) (timestamp : Z) :
  formatVanaFileId url timestamp
    = "vana_submission_" +:+ pretty timestamp +:+ "_" +:+ after_last_slash url ∧
  includes_char "/" (after_last_slash url) = false ∧
  (includes_char "/" url = false → after_last_slash url = url) ∧
  (∀ directory name,
     url = directory +:+ "/" +:+ name → includes_char "/" name = false →
     after_last_slash url = name).
Proof.
  split; [reflexivity|]. split; [|split].
  - induction url as [|c url IH]; [reflexivity|]. cbn [after_last_slash].
    destruct (includes_char "/" url) eqn:Hrest; [exact IH|].
    destruct (Ascii.eqb c "/") eqn:Hc; [exact Hrest|].
    cbn [includes_char]. now rewrite Ascii.eqb_sym, Hc, Hrest.
  - apply after_last_slash_plain.
  - intros directory name -> Hname.
    induction directory as [|c directory IH].
    + change (EmptyString +:+ ?s) with s.
      change ("/" +:+ name) with (String "/" name). cbn [after_last_slash].
      now rewrite Hname.
    + change (String c directory +:+ ?s) with (String c (directory +:+ s)).
      cbn [after_last_slash].
      rewrite includes_char_append.
      change ("/" +:+ name) with (String "/" name). cbn [includes_char].
      rewrite Ascii.eqb_refl, orb_true_r. exact IH.
Qed.


End Crypto.

(** ** Deployment of the contracts (the [deploy:contracts] script) *)

Module DeployContracts.
Import JS Text.

(** The surroundings of a run: the files, whether the disk refuses writes,
    whether the working directory is [contracts/] and whether that directory
    exists, what [getBalance] resolves to ([None]: it rejects), and what
    [execSync('npx hardhat deploy ...')] gives (the output, or the message of
    the error it throws).  Console output is not recorded. *)
Record world := World {
  files : gmap string string;
  write_fails : bool;
  cwd_contracts : bool;
  has_contracts_dir : bool;
  balance : option Z;
  hardhat : string + string
}.

Definition set_files (f : gmap string string) (w : world) : world :=
  World f (write_fails w) (cwd_contracts w) (has_contracts_dir w) (balance w) (hardhat w).

Definition set_cwd (b : bool) (w : world) : world :=
  World (files w) (write_fails w) b (has_contracts_dir w) (balance w) (hardhat w).

(** [output.match(/Token Address:\s*(0x[a-fA-F0-9]{40})/)]: group 1. *)
Definition token_at (s : string) : option string :=
  r ← lit "Token Address:" s;
  hex_literal 40 (drop_while is_space r).

(** [/DataLiquidityPoolProxy\s+deployed\s+to:\s*(0x[a-fA-F0-9]{40})/] *)
Definition proxy_at (s : string) : option string :=
  r ← lit "DataLiquidityPoolProxy" s;
  r ← spaces1 r;
  r ← lit "deployed" r;
  r ← spaces1 r;
  r ← lit "to:" r;
  hex_literal 40 (drop_while is_space r).

(** [/Vesting Wallet Address:\s*(0x[a-fA-F0-9]{40})/] *)
Definition vesting_at (s : string) : option string :=
  r ← lit "Vesting Wallet Address:" s;
  hex_literal 40 (drop_while is_space r).

(** [/Proxy deployed to:\s*(0x[a-fA-F0-9]{40})/] *)
Definition alt_proxy_at (s : string) : option string :=
  r ← lit "Proxy deployed to:" s;
  hex_literal 40 (drop_while is_space r).

Definition tokenMatch (output : string) : option string := search token_at output.
Definition proxyMatch (output : string) : option string := search proxy_at output.
Definition vestingMatch (output : string) : option string := search vesting_at output.
Definition altProxyMatch (output : string) : option string := search alt_proxy_at output.

(** [proxyMatch ? proxyMatch[1] : (altProxyMatch ? altProxyMatch[1] : null)] *)
Definition proxyAddress (output : string) : option string :=
  match proxyMatch output with
  | Some p => Some p
  | None => altProxyMatch output
  end.

(** [o[k] = x] outside strict mode: ignored when [o] is a primitive. *)
Definition assign (o : value) (k : string) (x : value) : value :=
  match o with
  | VObj m => VObj (<[k := x]> m)
  | _ => o
  end.

Definition of_match (m : option string) : value :=
  match m with
  | Some a => VStr a
  | None => VNull
  end.

(** The deployment after the assignments that record the addresses, up to
    [deployment.state = deployment.state || {}]. *)
Definition with_addresses (deployment : value) (token proxy : string)
    (vesting : option string) : value :=
  let d := assign deployment "contracts"
             (VObj (<["tokenAddress" := VStr token]>
                   (<["proxyAddress" := VStr proxy]>
                   (<["vestingAddress" := of_match vesting]> ∅)))) in
  let d := assign d "tokenAddress" (VStr token) in
  let d := assign d "proxyAddress" (VStr proxy) in
  assign d "state" (js_or (prop d "state") (VObj ∅)).

(** ... and after [deployment.state.contractsDeployed = true] and the
    vesting address. *)
Definition deployed (deployment : value) (token proxy : string)
    (vesting : option string) : value :=
  let d := with_addresses deployment token proxy vesting in
  let d := assign d "state" (assign (prop d "state") "contractsDeployed" (VBool true)) in
  match vesting with
  | Some v => assign d "vestingAddress" (VStr v)
  | None => d
  end.

Section Script.

Variable stringify : value → string.
Variable parse : string → option value.

(** [Number(balance) / 1e18 < 0.1], a floating-point test. *)
Variable balance_below_minimum : Z → bool.

(** [path.resolve('deployment.json')] and [path.resolve('..', 'deployment.json')],
    as paths relative to the project. *)
Definition resolve_deployment (w : world) : string :=
  if cwd_contracts w then "contracts/deployment.json" else "deployment.json".

Definition resolve_parent_deployment (w : world) : string :=
  if cwd_contracts w then "deployment.json" else "../deployment.json".

Definition readFileSync (p : string) : M world string := λ w,
  match files w !! p with
  | Some c => (Returned c, w)
  | None => (Thrown (Error "Error" "ENOENT: no such file or directory"), w)
  end.

Definition writeFileSync (p content : string) : M world unit := λ w,
  if write_fails w
  then (Thrown (Error "Error" "EACCES: permission denied"), w)
  else (Returned tt, set_files (<[p := content]> (files w)) w).

Definition JSON_parse (content : string) : M world value :=
  match parse content with
  | Some v => mret v
  | None => throw (Error "SyntaxError" "Unexpected token in JSON")
  end.

(** [deployment.address], a [TypeError] on [null]. *)
Definition address_of (deployment : value) : M world value :=
  match deployment with
  | VNull | VUndefined => throw (Error "TypeError" "Cannot read properties of null")
  | _ => mret (prop deployment "address")
  end.

(** [checkWalletBalance(address)] *)
Definition checkWalletBalance (address : value) : M world unit :=
  b ← gets balance;
  match b with
  | Some wei => if balance_below_minimum wei then exit 1 else mret tt
  | None => mret tt
  end.

(** [process.chdir('contracts')] *)
Definition chdir_contracts : M world unit :=
  w ← gets id;
  if has_contracts_dir w && negb (cwd_contracts w)
  then modify (set_cwd true)
  else throw (Error "Error" "ENOENT: no such file or directory, chdir 'contracts'").

(** [execSync('npx hardhat deploy --network moksha --tags DLPDeploy', ...)] *)
Definition execSync_hardhat : M world string :=
  h ← gets hardhat;
  match h with
  | inl output => mret output
  | inr message => throw (Error "Error" message)
  end.

(** The [try] block up to the output of the deployment tool. *)
Definition run_hardhat : M world (value * string) :=
  deploymentPath ← gets resolve_deployment;
  content ← readFileSync deploymentPath;
  deployment ← JSON_parse content;
  address ← address_of deployment;
  checkWalletBalance address;;
  chdir_contracts;;
  output ← execSync_hardhat;
  mret (deployment, output).

(** The [try] block from the extraction of the addresses on. *)
Definition record_addresses (deployment : value) (output : string) : M world unit :=
  match tokenMatch output with
  | None => exit 1
  | Some tokenAddress =>
      match proxyAddress output with
      | None => exit 1
      | Some proxy =>
          let d := with_addresses deployment tokenAddress proxy (vestingMatch output) in
          match prop d "state" with
          | VUndefined | VNull =>
              throw (Error "TypeError" "Cannot set properties of undefined")
          | _ =>
              path ← gets resolve_parent_deployment;
              writeFileSync path
                (stringify (deployed deployment tokenAddress proxy (vestingMatch output)))
          end
      end
  end.

(** Does the [catch] block build a recovery step from
    [deployment.address]?  It does for the 'funding' and 'nonce' actions. *)
Definition mentions_address (errorLower : string) : bool :=
  includes "insufficient funds" errorLower || includes "insufficient_funds" errorLower
  || includes "nonce" errorLower || includes "already known" errorLower.

(** The [catch] block, given the matches found before the failure. *)
Definition handle_failure (e : error) (token proxy vesting : option string)
    : M world unit :=
  deploymentPath ← gets resolve_deployment;
  deployment ← try_catch (content ← readFileSync deploymentPath; JSON_parse content)
                         (λ _, mret (VObj {[ "address" := VStr "unknown" ]}));
  (if mentions_address (toLowerCase (message e))
   then address_of deployment;; mret tt
   else mret tt);;
  (match token, proxy, vesting with
   | None, None, None => mret tt
   | _, _, _ =>
       match deployment with
       | VNull => throw (Error "TypeError" "Cannot read properties of null")
       | _ =>
           let partialState : gmap string value :=
             <["partial" := VBool true]>
             (<["state" := js_or (prop deployment "state") (VObj ∅)]>
                (entries deployment)) in
           let partialState :=
             match token with
             | Some t => <["tokenAddress" := VStr t]> partialState
             | None => partialState
             end in
           let partialState :=
             match proxy with
             | Some p => <["proxyAddress" := VStr p]> partialState
             | None => partialState
             end in
           let partialState :=
             match vesting with
             | Some v => <["vestingAddress" := VStr v]> partialState
             | None => partialState
             end in
           writeFileSync deploymentPath (stringify (VObj partialState))
       end
   end);;
  exit 1.

(** [deployContracts()] *)
Definition deployContracts : M world unit :=
  started ← try_catch (r ← run_hardhat; mret (inr r)) (λ e, mret (inl e));
  match started with
  | inl e => handle_failure e None None None
  | inr (deployment, output) =>
      try_catch (record_addresses deployment output)
        (λ e, handle_failure e (tokenMatch output) (proxyMatch output)
                (vestingMatch output))
  end.

(** *** What the patterns accept *)

(** The declarative reading of the three patterns: where in the output the
    address [t] stands. *)
Definition token_shape (output t : string) : Prop :=
  ∃ before ws rest,
    output = before +:+ "Token Address:" +:+ ws +:+ t +:+ rest ∧
    all_chars is_space ws = true ∧ is_hex_literal 40 t.

Definition proxy_shape (output p : string) : Prop :=
  ∃ before ws1 ws2 ws3 rest,
    output = before +:+ "DataLiquidityPoolProxy" +:+ ws1 +:+ "deployed" +:+ ws2
               +:+ "to:" +:+ ws3 +:+ p +:+ rest ∧
    ws1 ≠ EmptyString ∧ all_chars is_space ws1 = true ∧
    ws2 ≠ EmptyString ∧ all_chars is_space ws2 = true ∧
    all_chars is_space ws3 = true ∧ is_hex_literal 40 p.

Definition alt_proxy_shape (output p : string) : Prop :=
  ∃ before ws rest,
    output = before +:+ "Proxy deployed to:" +:+ ws +:+ p +:+ rest ∧
    all_chars is_space ws = true ∧ is_hex_literal 40 p.

Lemma address_after_spaces_sound r t :
  hex_literal 40 (drop_while is_space r) = Some t →
  ∃ ws rest, r = ws +:+ t +:+ rest ∧ all_chars is_space ws = true ∧ is_hex_literal 40 t.
Proof.
  intros H. apply hex_literal_sound in H as (Hlit & rest & Hrest).
  exists (take_while is_space r), rest. split; [|split; [apply all_chars_take_while|exact Hlit]].
  rewrite <- Hrest. symmetry. apply take_drop_while.
Qed.

Lemma address_after_spaces_complete ws t rest :
  all_chars is_space ws = true → is_hex_literal 40 t →
  hex_literal 40 (drop_while is_space (ws +:+ t +:+ rest)) = Some t.
Proof.
  intros Hws Hlit. rewrite (drop_spaces_before_literal 40) by assumption.
  now apply hex_literal_append.
Qed.

Lemma spaces1_sound s r :
  spaces1 s = Some r →
  ∃ ws, s = ws +:+ r ∧ ws ≠ EmptyString ∧ all_chars is_space ws = true.
Proof.
  destruct s as [|c s]; [discriminate|]. simpl.
  destruct (is_space c) eqn:Hc; [|discriminate]. intros [= <-].
  exists (String c (take_while is_space s)). split; [|split].
  - change (String c s = String c (take_while is_space s +:+ drop_while is_space s)).
    now rewrite take_drop_while.
  - discriminate.
  - simpl. rewrite Hc. apply all_chars_take_while.
Qed.

Lemma spaces1_complete ws r :
  ws ≠ EmptyString → all_chars is_space ws = true → drop_while is_space r = r →
  spaces1 (ws +:+ r) = Some r.
Proof.
  destruct ws as [|c ws]; [congruence|]. intros _ Hall Hr.
  simpl in Hall. apply andb_true_iff in Hall as [Hc Hws].
  change (String c ws +:+ r) with (String c (ws +:+ r)). simpl. rewrite Hc.
  now rewrite drop_while_append, Hr.
Qed.

Lemma tokenMatch_sound output t : tokenMatch output = Some t → token_shape output t.
Proof.
  intros H. apply search_sound in H as (before & from_here & -> & Hat).
  unfold token_at in Hat. destruct (lit "Token Address:" from_here) as [r|] eqn:Hl;
    simpl in Hat; [|discriminate].
  apply lit_sound in Hl as ->.
  apply address_after_spaces_sound in Hat as (ws & rest & -> & Hws & Hlit).
  now exists before, ws, rest.
Qed.

Lemma tokenMatch_complete output t :
  token_shape output t → ∃ t', tokenMatch output = Some t'.
Proof.
  intros (before & ws & rest & -> & Hws & Hlit).
  apply (search_complete token_at before _ t).
  unfold token_at. rewrite lit_append. simpl.
  now apply address_after_spaces_complete.
Qed.

Lemma altProxyMatch_sound output p :
  altProxyMatch output = Some p → alt_proxy_shape output p.
Proof.
  intros H. apply search_sound in H as (before & from_here & -> & Hat).
  unfold alt_proxy_at in Hat. destruct (lit "Proxy deployed to:" from_here) as [r|] eqn:Hl;
    simpl in Hat; [|discriminate].
  apply lit_sound in Hl as ->.
  apply address_after_spaces_sound in Hat as (ws & rest & -> & Hws & Hlit).
  now exists before, ws, rest.
Qed.

Lemma altProxyMatch_complete output p :
  alt_proxy_shape output p → ∃ p', altProxyMatch output = Some p'.
Proof.
  intros (before & ws & rest & -> & Hws & Hlit).
  apply (search_complete alt_proxy_at before _ p).
  unfold alt_proxy_at. rewrite lit_append. simpl.
  now apply address_after_spaces_complete.
Qed.

Lemma proxyMatch_sound output p : proxyMatch output = Some p → proxy_shape output p.
Proof.
  intros H. apply search_sound in H as (before & from_here & -> & Hat).
  unfold proxy_at in Hat.
  apply bind_Some in Hat as (r1 & H1 & Hat).
  apply bind_Some in Hat as (r2 & H2 & Hat).
  apply bind_Some in Hat as (r3 & H3 & Hat).
  apply bind_Some in Hat as (r4 & H4 & Hat).
  apply bind_Some in Hat as (r5 & H5 & Hat).
  apply lit_sound in H1 as ->. apply spaces1_sound in H2 as (ws1 & -> & Hne1 & Hws1).
  apply lit_sound in H3 as ->. apply spaces1_sound in H4 as (ws2 & -> & Hne2 & Hws2).
  apply lit_sound in H5 as ->.
  apply address_after_spaces_sound in Hat as (ws3 & rest & -> & Hws3 & Hlit).
  exists before, ws1, ws2, ws3, rest. repeat split; auto.
Qed.

Lemma proxyMatch_complete output p :
  proxy_shape output p → ∃ p', proxyMatch output = Some p'.
Proof.
  intros (before & ws1 & ws2 & ws3 & rest & -> & Hne1 & Hws1 & Hne2 & Hws2 & Hws3 & Hlit).
  apply (search_complete proxy_at before _ p).
  unfold proxy_at. rewrite lit_append. cbn [mbind option_bind].
  rewrite (spaces1_complete ws1) by (auto; reflexivity). cbn [mbind option_bind].
  rewrite lit_append. cbn [mbind option_bind].
  rewrite (spaces1_complete ws2) by (auto; reflexivity). cbn [mbind option_bind].
  rewrite lit_append. cbn [mbind option_bind].
  now apply address_after_spaces_complete.
Qed.

(** *** The run *)

Lemma run_hardhat_ok w content deployment output :
  cwd_contracts w = false → has_contracts_dir w = true →
  files w !! "deployment.json" = Some content →
  parse content = Some (VObj deployment) →
  match balance w with
  | Some wei => balance_below_minimum wei = false
  | None => True
  end →
  hardhat w = inl output →
  run_hardhat w = (Returned (VObj deployment, output), set_cwd true w).
Proof.
  intros Hcwd Hdir Hfile Hparse Hbal Hout. unfold run_hardhat.
  cbv [mbind M_bind mret M_ret gets modify throw exit readFileSync JSON_parse
       address_of checkWalletBalance chdir_contracts execSync_hardhat
       resolve_deployment id].
  destruct (balance w) as [wei|] eqn:Hwei;
    repeat (first [rewrite Hcwd | rewrite Hfile | rewrite Hparse | rewrite Hdir
                  | rewrite Hout | rewrite Hwei | rewrite Hbal]; simpl);
    reflexivity.
Qed.

Lemma deployed_object deployment t p v :
  ∃ m, deployed (VObj deployment) t p v = VObj m ∧
    m !! "tokenAddress" = Some (VStr t) ∧ m !! "proxyAddress" = Some (VStr p) ∧
    m !! "contracts" =
      Some (VObj (<["tokenAddress" := VStr t]>
                 (<["proxyAddress" := VStr p]>
                 (<["vestingAddress" := of_match v]> ∅)))) ∧
    (truthy (prop (VObj deployment) "state") = false
     ∨ (∃ st, prop (VObj deployment) "state" = VObj st) →
     prop (default VUndefined (m !! "state")) "contractsDeployed" = VBool true).
Proof.
  unfold deployed, with_addresses. cbn [assign].
  set (d3 := <["proxyAddress" := VStr p]> (<["tokenAddress" := VStr t]>
              (<["contracts" := _]> deployment))).
  assert (Hstate : prop (VObj d3) "state" = prop (VObj deployment) "state").
  { unfold prop, d3. now rewrite !lookup_insert_ne by discriminate. }
  rewrite Hstate.
  set (st := js_or (prop (VObj deployment) "state") (VObj ∅)).
  assert (Hst : prop (VObj (<["state" := st]> d3)) "state" = st).
  { unfold prop. now rewrite lookup_insert_eq. }
  rewrite Hst.
  set (final := <["state" := assign st "contractsDeployed" (VBool true)]>
                  (<["state" := st]> d3)).
  assert (Hfinal : final !! "tokenAddress" = Some (VStr t) ∧
                   final !! "proxyAddress" = Some (VStr p) ∧
                   final !! "contracts" =
                     Some (VObj (<["tokenAddress" := VStr t]>
                                (<["proxyAddress" := VStr p]>
                                (<["vestingAddress" := of_match v]> ∅)))) ∧
                   final !! "state" = Some (assign st "contractsDeployed" (VBool true))).
  { unfold final, d3. repeat split.
    - repeat (rewrite lookup_insert_ne by discriminate). apply lookup_insert_eq.
    - repeat (rewrite lookup_insert_ne by discriminate). apply lookup_insert_eq.
    - repeat (rewrite lookup_insert_ne by discriminate). apply lookup_insert_eq.
    - apply lookup_insert_eq. }
  destruct Hfinal as (Ht & Hp & Hc & Hs).
  assert (Hflag : truthy (prop (VObj deployment) "state") = false
                  ∨ (∃ m, prop (VObj deployment) "state" = VObj m) →
                  prop (assign st "contractsDeployed" (VBool true)) "contractsDeployed"
                    = VBool true).
  { unfold st, js_or. intros [Hfalsy|[m Hm]].
    - rewrite Hfalsy. simpl. now rewrite lookup_insert_eq.
    - rewrite Hm. simpl. now rewrite lookup_insert_eq. }
  destruct v as [v|]; cbn [assign].
  - exists (<["vestingAddress" := VStr v]> final). split; [reflexivity|].
    repeat (rewrite lookup_insert_ne by discriminate). rewrite Hs. auto.
  - exists final. split; [reflexivity|]. rewrite Hs. auto.
Qed.

Lemma with_addresses_state deployment t p v :
  prop (with_addresses (VObj deployment) t p v) "state"
    = js_or (prop (VObj deployment) "state") (VObj ∅).
Proof.
  unfold with_addresses. cbn [assign].
  assert (H : prop (VObj (<["proxyAddress" := VStr p]> (<["tokenAddress" := VStr t]>
                (<["contracts" := VObj (<["tokenAddress" := VStr t]>
                   (<["proxyAddress" := VStr p]>
                   (<["vestingAddress" := of_match v]> ∅)))]> deployment)))) "state"
              = prop (VObj deployment) "state").
  { unfold prop. now repeat (rewrite lookup_insert_ne by discriminate). }
  rewrite H. unfold prop at 1. now rewrite lookup_insert_eq.
Qed.

Lemma record_addresses_run deployment output w :
  record_addresses (VObj deployment) output w =
    match tokenMatch output, proxyAddress output with
    | Some t, Some p =>
        writeFileSync (resolve_parent_deployment w)
          (stringify (deployed (VObj deployment) t p (vestingMatch output))) w
    | _, _ => (Exited 1, w)
    end.
Proof.
  unfold record_addresses. destruct (tokenMatch output) as [t|]; [|reflexivity].
  destruct (proxyAddress output) as [p|]; [|reflexivity].
  cbv zeta. rewrite with_addresses_state. unfold js_or.
  destruct (prop (VObj deployment) "state") as [| |[|]|n|[|c s]|m]; try reflexivity.
  simpl. now destruct (negb (n =? 0)%Z).
Qed.

(** C3: [deployContracts] takes the token address from the first place in
    the console output where 'Token Address:', optional white space and
    [0x] with 40 hexadecimal digits stand, and the proxy address likewise
    after 'DataLiquidityPoolProxy deployed to:' (any white space between the
    words) or else after 'Proxy deployed to:'.  When the token address or
    the proxy address cannot be extracted the run exits with code 1 and
    leaves the files as they were; when both are extracted it writes
    [deployment.json] with the addresses under [contracts] and at top level
    and with [state.contractsDeployed = true]. *)
Theorem C3_deploy_contracts_extracts_and_records (w : world) (content output : string)
    (deployment : gmap string value) :
  cwd_contracts w = false → has_contracts_dir w = true →
  files w !! "deployment.json" = Some content →
  parse content = Some (VObj deployment) →
  match balance w with
  | Some wei => balance_below_minimum wei = false
  | None => True
  end →
  hardhat w = inl output →
  (∀ t, tokenMatch output = Some t → token_shape output t) ∧
  ((∃ t, token_shape output t) → ∃ t, tokenMatch output = Some t) ∧
  (∀ p, proxyAddress output = Some p →
        proxy_shape output p ∨ alt_proxy_shape output p) ∧
  ((∃ p, proxy_shape output p ∨ alt_proxy_shape output p) →
   ∃ p, proxyAddress output = Some p) ∧
  (tokenMatch output = None ∨ proxyAddress output = None →
   ∃ w', deployContracts w = (Exited 1, w') ∧ files w' = files w) ∧
  (∀ t p,
     tokenMatch output = Some t → proxyAddress output = Some p →
     write_fails w = false →
     let d := deployed (VObj deployment) t p (vestingMatch output) in
     ∃ w', deployContracts w = (Returned tt, w') ∧
       files w' = <["deployment.json" := stringify d]> (files w) ∧
       prop (prop d "contracts") "tokenAddress" = VStr t ∧
       prop (prop d "contracts") "proxyAddress" = VStr p ∧
       prop d "tokenAddress" = VStr t ∧
       prop d "proxyAddress" = VStr p ∧
       (truthy (prop (VObj deployment) "state") = false
        ∨ (∃ st, prop (VObj deployment) "state" = VObj st) →
        prop (prop d "state") "contractsDeployed" = VBool true)).
Proof.
  intros Hcwd Hdir Hfile Hparse Hbal Hout.
  assert (Hrun : deployContracts w =
            try_catch (record_addresses (VObj deployment) output)
              (λ e, handle_failure e (tokenMatch output) (proxyMatch output)
                      (vestingMatch output)) (set_cwd true w)).
  { unfold deployContracts. unfold mbind at 1, M_bind at 1, try_catch at 1.
    unfold mbind at 1, M_bind at 1.
    rewrite (run_hardhat_ok _ _ _ _ Hcwd Hdir Hfile Hparse Hbal Hout). reflexivity. }
  repeat match goal with |- _ ∧ _ => split end.
  - apply tokenMatch_sound.
  - intros [t Ht]. now apply (tokenMatch_complete output t).
  - intros p. unfold proxyAddress.
    destruct (proxyMatch output) as [p'|] eqn:Hp.
    + intros [= <-]. left. now apply proxyMatch_sound.
    + intros Halt. right. now apply altProxyMatch_sound.
  - intros [p [Hshape|Hshape]]; unfold proxyAddress.
    + destruct (proxyMatch_complete _ _ Hshape) as [p' ->]. now eexists.
    + destruct (proxyMatch output); [now eexists|].
      now apply (altProxyMatch_complete output p).
  - intros Hnone. exists (set_cwd true w). split; [|reflexivity].
    rewrite Hrun. unfold try_catch. rewrite record_addresses_run.
    destruct Hnone as [-> | Hnone]; [reflexivity|].
    rewrite Hnone. now destruct (tokenMatch output).
  - intros t p Ht Hp Hwf d.
    destruct (deployed_object deployment t p (vestingMatch output))
      as (m & Hd & Hmt & Hmp & Hmc & Hms).
    exists (set_files (<["deployment.json" := stringify d]> (files w)) (set_cwd true w)).
    split; [|split; [reflexivity|]].
    + rewrite Hrun. unfold try_catch. rewrite record_addresses_run, Ht, Hp.
      unfold writeFileSync, resolve_parent_deployment. simpl. now rewrite Hwf.
    + unfold d. rewrite Hd. unfold prop at 2 4 5 6 8. rewrite Hmc, Hmt, Hmp. simpl.
      repeat split; try reflexivity. exact Hms.
Qed.

(** *** What the script never does *)

Lemma run_hardhat_files w : files (snd (run_hardhat w)) = files w.
Proof.
  unfold run_hardhat.
  cbv [mbind M_bind mret M_ret gets modify throw exit readFileSync JSON_parse
       address_of checkWalletBalance chdir_contracts execSync_hardhat id].
  destruct (files w !! resolve_deployment w) as [content|]; [|reflexivity].
  destruct (parse content) as [deployment|]; [|reflexivity].
  destruct deployment; try reflexivity;
    (destruct (balance w) as [wei|];
     [destruct (balance_below_minimum wei); [reflexivity|]|]);
    cbn; destruct (has_contracts_dir w && negb (cwd_contracts w)); cbn;
    try reflexivity; destruct (hardhat w); reflexivity.
Qed.

Lemma run_hardhat_output w deployment output w' :
  run_hardhat w = (Returned (deployment, output), w') → hardhat w = inl output.
Proof.
  unfold run_hardhat.
  cbv [mbind M_bind mret M_ret gets modify throw exit readFileSync JSON_parse
       address_of checkWalletBalance chdir_contracts execSync_hardhat id].
  destruct (files w !! resolve_deployment w) as [content|]; [|discriminate].
  destruct (parse content) as [d|]; [|discriminate].
  destruct d; try discriminate;
    (destruct (balance w) as [wei|];
     [destruct (balance_below_minimum wei); [discriminate|]|]);
    cbn; destruct (has_contracts_dir w && negb (cwd_contracts w)); cbn;
    try discriminate; destruct (hardhat w) eqn:Hh; cbn; try discriminate;
    now intros [= _ -> _].
Qed.

Lemma handle_failure_nothing_found e w :
  files (snd (handle_failure e None None None w)) = files w.
Proof.
  unfold handle_failure.
  cbv [mbind M_bind mret M_ret gets throw exit try_catch readFileSync JSON_parse].
  destruct (files w !! resolve_deployment w) as [content|]; cbn.
  - destruct (parse content) as [deployment|]; cbn.
    + destruct (mentions_address (toLowerCase (message e))); cbn; [|reflexivity].
      now destruct deployment.
    + now destruct (mentions_address (toLowerCase (message e))).
  - now destruct (mentions_address (toLowerCase (message e))).
Qed.

(** X29: The script touches the files only after the deployment tool ran and both
    a token address and a proxy address were found in its output.  In
    particular nothing is written when [deployment.json] cannot be read, the
    balance is too low, the [contracts] directory is missing or the tool
    fails; and with a balance below the minimum the process exits with code 1
    before the tool is started. *)
Theorem deployContracts_writes_only_after_match (w : world) :
  (files (snd (deployContracts w)) ≠ files w →
   ∃ output t p,
     hardhat w = inl output ∧ tokenMatch output = Some t ∧
     proxyAddress output = Some p) ∧
  (∀ content deployment wei,
     files w !! resolve_deployment w = Some content →
     parse content = Some (VObj deployment) →
     balance w = Some wei → balance_below_minimum wei = true →
     deployContracts w = (Exited 1, w)).
Proof.
  split.
  - intros Hchanged. unfold deployContracts in Hchanged.
    unfold mbind at 1, M_bind at 1, try_catch at 1 in Hchanged.
    unfold mbind at 1, M_bind at 1 in Hchanged.
    assert (Hfiles := run_hardhat_files w).
    destruct (run_hardhat w) as [[[deployment output]|e|c] w1] eqn:Hrun;
      cbn [snd] in Hfiles; cbn in Hchanged.
    + apply run_hardhat_output in Hrun. exists output.
      destruct (tokenMatch output) as [t|] eqn:Htoken.
      2:{ exfalso. apply Hchanged. rewrite <- Hfiles.
          unfold try_catch, record_addresses. now rewrite Htoken. }
      destruct (proxyAddress output) as [p|] eqn:Hproxy.
      2:{ exfalso. apply Hchanged. rewrite <- Hfiles.
          unfold try_catch, record_addresses. now rewrite Htoken, Hproxy. }
      now exists t, p.
    + exfalso. apply Hchanged. rewrite <- Hfiles. apply handle_failure_nothing_found.
    + exfalso. now apply Hchanged.
  - intros content deployment wei Hfile Hparse Hbalance Hlow.
    unfold deployContracts, run_hardhat.
    cbv [mbind M_bind mret M_ret gets modify throw exit try_catch readFileSync
         JSON_parse address_of checkWalletBalance].
    rewrite Hfile. cbn. rewrite Hparse. cbn. rewrite Hbalance, Hlow. reflexivity.
Qed.

End Script.

(** A run on the output of a successful deployment. *)
Definition demo_output : string :=
  "Token Address: 0x1111111111111111111111111111111111111111 "
  +:+ "DataLiquidityPoolProxy deployed to: 0x2222222222222222222222222222222222222222".

Definition demo_world : world :=
  World {[ "deployment.json" := "{}" ]} false false true
        (Some 1000000000000000000%Z) (inl demo_output).

Definition demo_parse (content : string) : option value := Some (VObj ∅).

Definition demo_balance_below_minimum (wei : Z) : bool :=
  (wei <? 100000000000000000)%Z.

Lemma C3_witness :
  cwd_contracts demo_world = false ∧ has_contracts_dir demo_world = true ∧
  files demo_world !! "deployment.json" = Some "{}" ∧
  demo_parse "{}" = Some (VObj ∅) ∧
  demo_balance_below_minimum 1000000000000000000 = false ∧
  hardhat demo_world = inl demo_output ∧
  ∃ w', deployContracts StateManager.demo_stringify demo_parse
          demo_balance_below_minimum demo_world = (Returned tt, w').
Proof.
  assert (H1 : cwd_contracts demo_world = false) by reflexivity.
  assert (H2 : has_contracts_dir demo_world = true) by reflexivity.
  assert (H3 : files demo_world !! "deployment.json" = Some "{}") by reflexivity.
  assert (H4 : demo_parse "{}" = Some (VObj ∅)) by reflexivity.
  assert (H5 : demo_balance_below_minimum 1000000000000000000 = false) by reflexivity.
  assert (H6 : hardhat demo_world = inl demo_output) by reflexivity.
  repeat (split; [assumption|]).
  destruct (C3_deploy_contracts_extracts_and_records StateManager.demo_stringify
              demo_parse demo_balance_below_minimum demo_world "{}" demo_output ∅
              H1 H2 H3 H4 H5 H6) as (_ & _ & _ & _ & _ & Hrecord).
  destruct (Hrecord "0x1111111111111111111111111111111111111111"
                    "0x2222222222222222222222222222222222222222"
                    ltac:(vm_compute; reflexivity) ltac:(vm_compute; reflexivity)
                    eq_refl) as (w' & Hrun & _).
  exists w'. exact Hrun.
Defined.

(** *** What the next scripts find in the recorded deployment *)

Lemma hex_literal_truthy n t : is_hex_literal n t → truthy (VStr t) = true.
Proof. intros (d & -> & _). reflexivity. Qed.

(** X30: The document that a successful deployment records is what the later
    steps look for: the state manager counts the contracts step as complete
    and has no 'missing contract addresses' issue for it, and the
    registration script finds the proxy address that was extracted.  Without
    a vesting address in the output, [contracts.vestingAddress] is [null] and
    the top-level [vestingAddress] is left as it was. *)
Theorem deployed_document_is_complete (output t p : string)
    (deployment : gmap string value) :
  tokenMatch output = Some t →
  proxyAddress output = Some p →
  ∃ m,
    deployed (VObj deployment) t p (vestingMatch output) = VObj m ∧
    truthy (StateManager.isCompleted_of m "contractsDeployed") = true ∧
    Register.proxy_address (VObj m) = VStr p ∧
    truthy (Register.proxy_address (VObj m)) = true ∧
    ("Marked as deployed but missing contract addresses"
       ∉ StateManager.validateConfiguration_of m) ∧
    (vestingMatch output = None →
     m !! "vestingAddress" = deployment !! "vestingAddress" ∧
     prop (prop (VObj m) "contracts") "vestingAddress" = VNull) ∧
    (∀ v, vestingMatch output = Some v →
     m !! "vestingAddress" = Some (VStr v) ∧
     prop (prop (VObj m) "contracts") "vestingAddress" = VStr v).
Proof.
  intros Htoken Hproxy.
  assert (Ht : truthy (VStr t) = true).
  { apply tokenMatch_sound in Htoken as (? & ? & ? & _ & _ & Hhex).
    exact (hex_literal_truthy _ _ Hhex). }
  assert (Hp : truthy (VStr p) = true).
  { unfold proxyAddress in Hproxy.
    destruct (proxyMatch output) as [p'|] eqn:Hmatch.
    - injection Hproxy as <-.
      apply proxyMatch_sound in Hmatch
        as (? & ? & ? & ? & ? & _ & _ & _ & _ & _ & _ & Hhex).
      exact (hex_literal_truthy _ _ Hhex).
    - apply altProxyMatch_sound in Hproxy as (? & ? & ? & _ & _ & Hhex).
      exact (hex_literal_truthy _ _ Hhex). }
  destruct (deployed_object deployment t p (vestingMatch output))
    as (m & Hm & Hmt & Hmp & Hmc & _).
  exists m. split; [exact Hm|].
  assert (Hpt : prop (VObj m) "tokenAddress" = VStr t) by (unfold prop; now rewrite Hmt).
  assert (Hpp : prop (VObj m) "proxyAddress" = VStr p) by (unfold prop; now rewrite Hmp).
  split.
  { apply (StateManager.isCompleted_of_data (λ _, None) EmptyString).
    unfold StateManager.spec_data_present.
    cbn [String.eqb Ascii.eqb Bool.eqb]. now rewrite Hpt, Hpp, Ht, Hp. }
  assert (Hreg : Register.proxy_address (VObj m) = VStr p).
  { unfold Register.proxy_address. rewrite Hpp. unfold js_or at 2. rewrite Hp.
    unfold js_or. now rewrite Hp. }
  split; [exact Hreg|]. split; [now rewrite Hreg|]. split.
  { unfold StateManager.validateConfiguration_of. cbv zeta. rewrite !not_elem_of_app.
    split.
    { intros Hin. apply list_elem_of_fmap in Hin as (field & Heq & _). discriminate. }
    split; [destruct (_ || _); [rewrite list_elem_of_singleton; discriminate
                               | apply not_elem_of_nil]|].
    split; [destruct (_ || _); [rewrite list_elem_of_singleton; discriminate
                               | apply not_elem_of_nil]|].
    split; [destruct (_ && _); [rewrite list_elem_of_singleton; discriminate
                               | apply not_elem_of_nil]|].
    destruct (truthy (prop (prop (VObj m) "state") "contractsDeployed"));
      [|apply not_elem_of_nil].
    rewrite Hpt, Hpp. unfold js_and at 1. rewrite Ht, Hp.
    cbn [negb andb]. apply not_elem_of_nil. }
  assert (Hvest : m !! "vestingAddress"
                  = match vestingMatch output with
                    | Some v => Some (VStr v)
                    | None => deployment !! "vestingAddress"
                    end).
  { revert Hm. unfold deployed, with_addresses. cbn [assign].
    destruct (vestingMatch output) as [v|]; cbn [assign]; intros [= <-].
    - apply lookup_insert_eq.
    - now rewrite !lookup_insert_ne by discriminate. }
  assert (Hcontracts : prop (prop (VObj m) "contracts") "vestingAddress"
                       = of_match (vestingMatch output)).
  { assert (Hc : prop (VObj m) "contracts"
                 = VObj (<["tokenAddress" := VStr t]>
                        (<["proxyAddress" := VStr p]>
                        (<["vestingAddress" := of_match (vestingMatch output)]> ∅))))
      by (unfold prop; now rewrite Hmc).
    rewrite Hc. unfold prop.
    rewrite !lookup_insert_ne by discriminate. now rewrite lookup_insert_eq. }
  split.
  - intros Hnone. rewrite Hnone in Hvest, Hcontracts. now split.
  - intros v Hsome. rewrite Hsome in Hvest, Hcontracts. now split.
Qed.

Lemma deployed_document_is_complete_witness :
  ∃ m,
    deployed (VObj ∅) "0x1111111111111111111111111111111111111111"
      "0x2222222222222222222222222222222222222222" (vestingMatch demo_output)
      = VObj m ∧
    truthy (StateManager.isCompleted_of m "contractsDeployed") = true.
Proof.
  assert (H1 : tokenMatch demo_output
               = Some "0x1111111111111111111111111111111111111111")
    by (vm_compute; reflexivity).
  assert (H2 : proxyAddress demo_output
               = Some "0x2222222222222222222222222222222222222222")
    by (vm_compute; reflexivity).
  destruct (deployed_document_is_complete demo_output _ _ ∅ H1 H2)
    as (m & Hm & Hdone & _).
  exists m. split; [exact Hm | exact Hdone].
Defined.

End DeployContracts.
